(** * A-share technical analysis: indicator, signal and scoring engine

    Shallow embedding of [scripts/technical_analysis.py], of the decision
    blocks of [scripts/generate_report.py], of [get_market_overview] in
    [scripts/fetch_market_data.py] and of the pool filter and the four
    single-style strategies of [scripts/strategy_multi_factor.py].

    Modelling conventions.
    - A pandas [Series] of float64 is a [list fnum].  A value is the
      not-a-number sentinel, one of the two infinities, or a finite number.
      Finite numbers are exact rationals kept in lowest terms: special
      values behave as in IEEE 754 (0/0 and inf-inf are NaN, x/0 is an
      infinity, every ordered comparison with NaN is false); rounding error,
      overflow, underflow and the sign of zero are not represented.
    - Python [str] is [string] holding the UTF-8 encoding; [sub in s] is
      byte-wise substring search, which agrees with code-point search on
      well-formed UTF-8.
    - Python [int] is [Z].
    - Exceptions are the [Raise] branch of [result].
    - [rolling(window=w)] and [ewm(adjust=False)] follow the documented
      pandas semantics with the default [min_periods]; each window is
      aggregated on its own.  Both read an infinity as a missing value, and
      an exponential window refuses [span < 1] and [com < 0] with a
      ValueError.
    - The square root of the Bollinger deviation is a parameter [qsqrt] on
      the finite numbers: no statement depends on its values.
    - A [DataFrame] is the list of its named columns; the quote table of
      the strategies is the list of its rows.
    - A remote fetch is a function argument that returns a frame or raises.
    - [rank(pct=True)] is the average rank among the values present over
      their number; [nsmallest] lists rows in ascending order of the column
      with missing values last.  No statement depends on the order among
      rows of equal score.
    - [strategy_multi_factor] (logarithm and median of the market value) and
      the text templates of the reports are not modelled.                   *)

From Stdlib Require Import String Ascii ZArith QArith Qabs Bool Lia Lqa List.
From Stdlib Require Import DecimalString Sorted Permutation.
Import ListNotations.

Open Scope Z_scope.

(* ------------------------------------------------------------------ *)
(** ** Exceptions *)

Inductive exn := KeyError | IndexError | ValueError.

Inductive result (A : Type) : Type :=
| Ok (a : A)
| Raise (e : exn).

Arguments Ok {A} a.
Arguments Raise {A} e.

Definition bind {A B : Type} (r : result A) (k : A -> result B) : result B :=
  match r with
  | Ok a => k a
  | Raise e => Raise e
  end.

Notation "x <- c ;; k" := (bind c (fun x => k))
  (at level 61, c at next level, right associativity).

(* ------------------------------------------------------------------ *)
(** ** Floating-point values *)

Inductive fnum : Type :=
| NaN
| PInf
| NInf
| Fin (q : Q).

Definition Qltb (a b : Q) : bool := negb (Qle_bool b a).

Definition Qzerob (a : Q) : bool := (Qnum a =? 0)%Z.
Definition Qposb (a : Q) : bool := (0 <? Qnum a)%Z.
Definition Qnegb (a : Q) : bool := (Qnum a <? 0)%Z.

Definition is_nan (x : fnum) : bool :=
  match x with NaN => true | _ => false end.

Definition is_finite (x : fnum) : bool :=
  match x with Fin _ => true | _ => false end.

Definition of_Z (z : Z) : fnum := Fin (inject_Z z).

Definition fopp (x : fnum) : fnum :=
  match x with
  | NaN => NaN
  | PInf => NInf
  | NInf => PInf
  | Fin q => Fin (Qred (- q))
  end.

Definition fabs (x : fnum) : fnum :=
  match x with
  | NaN => NaN
  | PInf | NInf => PInf
  | Fin q => Fin (Qred (Qabs q))
  end.

Definition fadd (x y : fnum) : fnum :=
  match x, y with
  | NaN, _ | _, NaN => NaN
  | PInf, NInf | NInf, PInf => NaN
  | PInf, _ | _, PInf => PInf
  | NInf, _ | _, NInf => NInf
  | Fin a, Fin b => Fin (Qred (a + b))
  end.

Definition fsub (x y : fnum) : fnum := fadd x (fopp y).

(** An infinity with the sign flipped when [neg] holds. *)
Definition inf_signed (neg : bool) : fnum := if neg then NInf else PInf.

Definition fmul (x y : fnum) : fnum :=
  match x, y with
  | NaN, _ | _, NaN => NaN
  | PInf, PInf | NInf, NInf => PInf
  | PInf, NInf | NInf, PInf => NInf
  | PInf, Fin b | Fin b, PInf =>
      if Qzerob b then NaN else inf_signed (Qnegb b)
  | NInf, Fin b | Fin b, NInf =>
      if Qzerob b then NaN else inf_signed (Qposb b)
  | Fin a, Fin b => Fin (Qred (a * b))
  end.

Definition fdiv (x y : fnum) : fnum :=
  match x, y with
  | NaN, _ | _, NaN => NaN
  | PInf, PInf | PInf, NInf | NInf, PInf | NInf, NInf => NaN
  | PInf, Fin b => inf_signed (Qnegb b)
  | NInf, Fin b => inf_signed (negb (Qnegb b))
  | Fin _, PInf | Fin _, NInf => Fin 0
  | Fin a, Fin b =>
      if Qzerob b then
        (if Qzerob a then NaN else inf_signed (Qnegb a))
      else Fin (Qred (a / b))
  end.

(** Python [x < y] on floats. *)
Definition fltb (x y : fnum) : bool :=
  match x, y with
  | NaN, _ | _, NaN => false
  | _, NInf => false
  | NInf, _ => true
  | PInf, _ => false
  | Fin _, PInf => true
  | Fin a, Fin b => Qltb a b
  end.

(** Python [x <= y] on floats. *)
Definition fleb (x y : fnum) : bool :=
  match x, y with
  | NaN, _ | _, NaN => false
  | NInf, _ => true
  | _, PInf => true
  | PInf, _ => false
  | Fin _, NInf => false
  | Fin a, Fin b => Qle_bool a b
  end.

Definition fgtb (x y : fnum) : bool := fltb y x.
Definition fgeb (x y : fnum) : bool := fleb y x.

(** Python [x == y] on floats, as a relation. *)
Definition feq (x y : fnum) : Prop :=
  match x, y with
  | PInf, PInf | NInf, NInf => True
  | Fin a, Fin b => a == b
  | _, _ => False
  end.

(** Square root given one on the finite non-negative numbers. *)
Definition fsqrt (qsqrt : Q -> Q) (x : fnum) : fnum :=
  match x with
  | NaN | NInf => NaN
  | PInf => PInf
  | Fin q => if Qnegb q then NaN else Fin (Qred (qsqrt q))
  end.

(** Nearest integer, ties to even. *)
Definition round_half_even (q : Q) : Z :=
  let n := Qnum q in
  let d := Zpos (Qden q) in
  let fl := n / d in
  match (2 * (n mod d) ?= d) with
  | Lt => fl
  | Gt => fl + 1
  | Eq => if Z.even fl then fl else fl + 1
  end.

(** Python [round(x, nd)]. *)
Definition round (x : fnum) (nd : nat) : fnum :=
  match x with
  | Fin q =>
      let p := inject_Z (10 ^ Z.of_nat nd) in
      Fin (Qred (inject_Z (round_half_even (q * p)) / p))
  | _ => x
  end.

(** A comparison of two fallible operands, left to right. *)
Definition cmp (op : fnum -> fnum -> bool) (x y : result fnum) : result bool :=
  a <- x ;; b <- y ;; Ok (op a b).

(** Python [c and k]: [k] is evaluated only when [c] holds. *)
Definition and_ (c k : result bool) : result bool :=
  b <- c ;; if b then k else Ok false.

(* ------------------------------------------------------------------ *)
(** ** Strings *)

Open Scope string_scope.

(** Python [sub in s]. *)
Fixpoint contains (sub s : string) : bool :=
  String.prefix sub s ||
  match s with
  | EmptyString => false
  | String _ s' => contains sub s'
  end.

Definition str_of_Z (z : Z) : string :=
  NilZero.string_of_uint (N.to_uint (Z.to_N z)).

Definition str_of_nat (n : nat) : string :=
  NilZero.string_of_uint (Nat.to_uint n).

(** Python [f"{x:.1f}"]. *)
Definition format_1f (x : fnum) : string :=
  match x with
  | NaN => "nan"
  | PInf => "inf"
  | NInf => "-inf"
  | Fin q =>
      let s := round_half_even (Qabs q * inject_Z 10) in
      (if Qnegb q then "-" else "") ++
      str_of_Z (s / 10) ++ "." ++ str_of_Z (s mod 10)
  end.

(* ------------------------------------------------------------------ *)
(** ** Series *)

Definition Series := list fnum.

(** [s.iloc[-k]] for [k >= 1]. *)
Definition iloc_neg (s : Series) (k : nat) : result fnum :=
  if (length s <? k)%nat then Raise IndexError
  else match nth_error s (length s - k) with
       | Some x => Ok x
       | None => Raise IndexError
       end.

(** Element-wise binary operation of two series on the same index. *)
Definition zip_with (f : fnum -> fnum -> fnum) (a b : Series) : Series :=
  map (fun p => f (fst p) (snd p)) (combine a b).

Definition s_sub (a b : Series) : Series := zip_with fsub a b.
Definition s_add (a b : Series) : Series := zip_with fadd a b.
Definition s_div (a b : Series) : Series := zip_with fdiv a b.
Definition s_scale (c : fnum) (a : Series) : Series := map (fun x => fmul x c) a.
Definition s_lscale (c : fnum) (a : Series) : Series := map (fun x => fmul c x) a.

(** [s.fillna(v)]. *)
Definition fillna (v : fnum) (s : Series) : Series :=
  map (fun x => if is_nan x then v else x) s.

(** [s.shift(1)]. *)
Definition shift1 (s : Series) : Series :=
  match s with
  | [] => []
  | _ :: _ => NaN :: removelast s
  end.

(** [s.diff()]. *)
Definition diff (s : Series) : Series := s_sub s (shift1 s).

(** [s.where(cond, other)] with the condition computed per element. *)
Definition where_ (cond : fnum -> bool) (other : fnum) (s : Series) : Series :=
  map (fun x => if cond x then x else other) s.

Definition fsum (l : list fnum) : fnum := fold_left fadd l (Fin 0).

Definition fmin2 (x y : fnum) : fnum := if fltb y x then y else x.
Definition fmax2 (x y : fnum) : fnum := if fltb x y then y else x.

(** Aggregates of a window without missing values; the empty window has none. *)
Definition agg_mean (w : list fnum) : fnum :=
  fdiv (fsum w) (of_Z (Z.of_nat (length w))).

Definition agg_min (w : list fnum) : fnum :=
  match w with
  | [] => NaN
  | x :: r => fold_left fmin2 r x
  end.

Definition agg_max (w : list fnum) : fnum :=
  match w with
  | [] => NaN
  | x :: r => fold_left fmax2 r x
  end.

(** Sample variance (ddof = 1) and standard deviation. *)
Definition agg_var (w : list fnum) : fnum :=
  let m := agg_mean w in
  fdiv (fsum (map (fun x => fmul (fsub x m) (fsub x m)) w))
       (of_Z (Z.of_nat (length w) - 1)).

Definition agg_std (qsqrt : Q -> Q) (w : list fnum) : fnum :=
  fsqrt qsqrt (agg_var w).

(** The trailing window of [w] observations ending at position [i]. *)
Definition window_at (w : nat) (s : Series) (i : nat) : list fnum :=
  firstn w (skipn (i + 1 - w) s).

(** The window routines read an infinity as a missing value: the input is
    prepared by turning every infinity into NaN. *)
Definition is_missing (x : fnum) : bool := negb (is_finite x).

Definition prep_values (s : Series) : Series :=
  map (fun x => if is_missing x then NaN else x) s.

(** [s.rolling(window=w).agg()]: a position is missing while fewer than [w]
    observations are available or when the window holds a missing value. *)
Definition rolling_at (agg : list fnum -> fnum) (w : nat) (s : Series) (i : nat) : fnum :=
  if (i + 1 <? w)%nat then NaN
  else let win := window_at w s i in
       if existsb is_missing win then NaN else agg win.

Definition rolling (agg : list fnum -> fnum) (w : nat) (s : Series) : Series :=
  map (rolling_at agg w s) (seq 0 (length s)).

(** [s.ewm(alpha, adjust=False).mean()]: [y0 = x0],
    [yt = (1 - alpha) * y(t-1) + alpha * xt]; a missing observation repeats
    the previous mean and decays the weight of the past. *)
Fixpoint ewm_go (alpha : Q) (weighted : fnum) (old_wt : Q) (xs : list fnum) : list fnum :=
  match xs with
  | [] => []
  | cur :: rest =>
      if is_nan weighted then
        let w' := if is_nan cur then weighted else cur in
        w' :: ewm_go alpha w' old_wt rest
      else
        let old_wt' := Qred (old_wt * (1 - alpha)) in
        if is_nan cur then weighted :: ewm_go alpha weighted old_wt' rest
        else
          let w' := fdiv (fadd (fmul (Fin old_wt') weighted) (fmul (Fin alpha) cur))
                         (Fin (Qred (old_wt' + alpha))) in
          w' :: ewm_go alpha w' 1 rest
  end.

Definition ewm_mean (alpha : Q) (s : Series) : Series :=
  match prep_values s with
  | [] => []
  | x :: rest => x :: ewm_go alpha x 1 rest
  end.

(** The smoothing factor of [ewm(span=n)] and of [ewm(com=c)]. *)
Definition alpha_of_span (span : Z) : Q := Qred (2 / inject_Z (span + 1)).
Definition alpha_of_com (com : Z) : Q := Qred (1 / inject_Z (1 + com)).

(** [s.ewm(span=n, adjust=False).mean()] and [s.ewm(com=c, adjust=False).mean()]:
    the window refuses [span < 1] and [com < 0] with a ValueError. *)
Definition ewm_span (span : Z) (s : Series) : result Series :=
  if (span <? 1)%Z then Raise ValueError else Ok (ewm_mean (alpha_of_span span) s).

Definition ewm_com (com : Z) (s : Series) : result Series :=
  if (com <? 0)%Z then Raise ValueError else Ok (ewm_mean (alpha_of_com com) s).

(** Row-wise maximum of aligned columns, missing values skipped. *)
Definition max_skipna (row : list fnum) : fnum :=
  agg_max (filter (fun x => negb (is_nan x)) row).

(** [pd.concat([a, b, c], axis=1).max(axis=1)]. *)
Definition row_max3 (a b c : Series) : Series :=
  map (fun r => max_skipna [fst (fst r); snd (fst r); snd r])
      (combine (combine a b) c).

(* ------------------------------------------------------------------ *)
(** ** Data frames *)

Definition DataFrame := list (string * Series).

(** [name in df.columns]. *)
Definition has_column (df : DataFrame) (name : string) : bool :=
  existsb (fun c => String.eqb (fst c) name) df.

(** [df[name]]. *)
Fixpoint column (df : DataFrame) (name : string) : result Series :=
  match df with
  | [] => Raise KeyError
  | (n, s) :: rest => if String.eqb n name then Ok s else column rest name
  end.

(** One trading period. *)
Record Bar := mkBar {
  bar_open : fnum;
  bar_high : fnum;
  bar_low : fnum;
  bar_close : fnum;
  bar_volume : fnum
}.

(** The frame of a bar series, one column per field. *)
Definition frame_of_bars (bars : list Bar) : DataFrame :=
  [ ("open", map bar_open bars); ("high", map bar_high bars);
    ("low", map bar_low bars); ("close", map bar_close bars);
    ("volume", map bar_volume bars) ].

(** The same frame under the column names of the market-data source. *)
Definition frame_of_bars_zh (bars : list Bar) : DataFrame :=
  [ ("开盘", map bar_open bars); ("最高", map bar_high bars);
    ("最低", map bar_low bars); ("收盘", map bar_close bars);
    ("成交量", map bar_volume bars) ].

(* ------------------------------------------------------------------ *)
(** ** Indicator library and signal classifier *)

Record MACDData := mkMACD {
  macd_DIF : Series;
  macd_DEA : Series;
  macd_MACD : Series;
  macd_signal : string
}.

Record KDJData := mkKDJ {
  kdj_K : Series;
  kdj_D : Series;
  kdj_J : Series;
  kdj_signal : string
}.

Record RSIData := mkRSI {
  rsi_RSI : Series;
  rsi_signal : string
}.

Record BOLLData := mkBOLL {
  boll_UPPER : Series;
  boll_MID : Series;
  boll_LOWER : Series;
  boll_signal : string
}.

Record Levels := mkLevels {
  support : fnum;
  resistance : fnum;
  pivot : fnum
}.

Record ScoreData := mkScore {
  score : Z;
  rating : string;
  stars : Z
}.

Definition default_ma_periods : list nat := [5; 10; 20; 60; 120]%nat.
Definition default_vol_periods : list nat := [5; 10; 20]%nat.

(** [calc_ma]: one column [MA<p>] per period. *)
Definition calc_ma (close : Series) (periods : list nat) : DataFrame :=
  map (fun p => ("MA" ++ str_of_nat p, rolling agg_mean p close)) periods.

Definition calc_ema (close : Series) (period : Z) : result Series :=
  ewm_span period close.

(** [get_macd_signal]. *)
Definition get_macd_signal (dif dea : Series) : result string :=
  if (length dif <? 2)%nat then Ok "数据不足"
  else
    golden <- and_ (cmp fgtb (iloc_neg dif 1) (iloc_neg dea 1))
                   (cmp fleb (iloc_neg dif 2) (iloc_neg dea 2)) ;;
    if golden then Ok "金叉买入"
    else
      death <- and_ (cmp fltb (iloc_neg dif 1) (iloc_neg dea 1))
                    (cmp fgeb (iloc_neg dif 2) (iloc_neg dea 2)) ;;
      if death then Ok "死叉卖出"
      else
        above <- cmp fgtb (iloc_neg dif 1) (iloc_neg dea 1) ;;
        if above then
          pos <- cmp fgtb (iloc_neg dif 1) (Ok (of_Z 0)) ;;
          Ok (if pos then "多头强势" else "多头初现")
        else
          neg <- cmp fltb (iloc_neg dif 1) (Ok (of_Z 0)) ;;
          Ok (if neg then "空头强势" else "空头初现").

(** [calc_macd]. *)
Definition calc_macd (close : Series) (fast slow signal : Z) : result MACDData :=
  ema_fast <- ewm_span fast close ;;
  ema_slow <- ewm_span slow close ;;
  let dif := s_sub ema_fast ema_slow in
  dea <- ewm_span signal dif ;;
  let macd := s_scale (of_Z 2) (s_sub dif dea) in
  sig <- get_macd_signal dif dea ;;
  Ok (mkMACD dif dea macd sig).

(** [get_kdj_signal]. *)
Definition get_kdj_signal (k d : Series) : result string :=
  if (length k <? 2)%nat then Ok "数据不足"
  else
    k_val <- iloc_neg k 1 ;;
    golden <- and_ (cmp fgtb (iloc_neg k 1) (iloc_neg d 1))
                   (cmp fleb (iloc_neg k 2) (iloc_neg d 2)) ;;
    if golden then
      Ok (if fltb k_val (of_Z 20) then "超卖金叉-强买"
          else if fltb k_val (of_Z 50) then "金叉买入"
          else "高位金叉")
    else
      death <- and_ (cmp fltb (iloc_neg k 1) (iloc_neg d 1))
                    (cmp fgeb (iloc_neg k 2) (iloc_neg d 2)) ;;
      if death then
        Ok (if fgtb k_val (of_Z 80) then "超买死叉-强卖"
            else if fgtb k_val (of_Z 50) then "死叉卖出"
            else "低位死叉")
      else
        Ok (if fgtb k_val (of_Z 80) then "超买区域"
            else if fltb k_val (of_Z 20) then "超卖区域"
            else "中性震荡").

(** The raw stochastic value of [calc_kdj], before and after [fillna(50)]. *)
Definition kdj_rsv_raw (high low close : Series) (n : nat) : Series :=
  let low_n := rolling agg_min n low in
  let high_n := rolling agg_max n high in
  s_scale (of_Z 100) (s_div (s_sub close low_n) (s_sub high_n low_n)).

Definition kdj_rsv (high low close : Series) (n : nat) : Series :=
  fillna (of_Z 50) (kdj_rsv_raw high low close n).

(** [calc_kdj]. *)
Definition calc_kdj (high low close : Series) (n : nat) (m1 m2 : Z) : result KDJData :=
  let rsv := kdj_rsv high low close n in
  k <- ewm_com (m1 - 1) rsv ;;
  d <- ewm_com (m2 - 1) k ;;
  let j := s_sub (s_lscale (of_Z 3) k) (s_lscale (of_Z 2) d) in
  sig <- get_kdj_signal k d ;;
  Ok (mkKDJ k d j sig).

(** [get_rsi_signal]. *)
Definition get_rsi_signal (rsi : Series) : result string :=
  if (length rsi <? 1)%nat then Ok "数据不足"
  else
    rsi_val <- iloc_neg rsi 1 ;;
    Ok (if fgtb rsi_val (of_Z 80) then "严重超买"
        else if fgtb rsi_val (of_Z 70) then "超买"
        else if fltb rsi_val (of_Z 20) then "严重超卖"
        else if fltb rsi_val (of_Z 30) then "超卖"
        else "中性(" ++ format_1f rsi_val ++ ")").

(** [delta.where(delta > 0, 0)] and [-delta.where(delta < 0, 0)] of [calc_rsi]. *)
Definition rsi_gains (close : Series) : Series :=
  where_ (fun d => fgtb d (of_Z 0)) (of_Z 0) (diff close).

Definition rsi_losses (close : Series) : Series :=
  map fopp (where_ (fun d => fltb d (of_Z 0)) (of_Z 0) (diff close)).

(** The average gain and loss of [calc_rsi]. *)
Definition rsi_gain (close : Series) (period : nat) : Series :=
  rolling agg_mean period (rsi_gains close).

Definition rsi_loss (close : Series) (period : nat) : Series :=
  rolling agg_mean period (rsi_losses close).

Definition rsi_series (close : Series) (period : nat) : Series :=
  let rs := s_div (rsi_gain close period) (rsi_loss close period) in
  map (fun r => fsub (of_Z 100) (fdiv (of_Z 100) (fadd (of_Z 1) r))) rs.

(** [calc_rsi]. *)
Definition calc_rsi (close : Series) (period : nat) : result RSIData :=
  let rsi := rsi_series close period in
  sig <- get_rsi_signal rsi ;;
  Ok (mkRSI rsi sig).

(** [get_boll_signal]. *)
Definition get_boll_signal (close upper mid lower : Series) : result string :=
  if (length close <? 1)%nat then Ok "数据不足"
  else
    price <- iloc_neg close 1 ;;
    u <- iloc_neg upper 1 ;;
    m <- iloc_neg mid 1 ;;
    l <- iloc_neg lower 1 ;;
    Ok (if fgtb price u then "突破上轨-超买"
        else if fltb price l then "跌破下轨-超卖"
        else if fgtb price m then "中轨上方-偏多"
        else "中轨下方-偏空").

(** [calc_boll]; [qsqrt] is the square root on finite numbers. *)
Definition calc_boll (qsqrt : Q -> Q) (close : Series) (period : nat) (std_dev : Z)
  : result BOLLData :=
  let mid := rolling agg_mean period close in
  let std := rolling (agg_std qsqrt) period close in
  let upper := s_add mid (s_lscale (of_Z std_dev) std) in
  let lower := s_sub mid (s_lscale (of_Z std_dev) std) in
  sig <- get_boll_signal close upper mid lower ;;
  Ok (mkBOLL upper mid lower sig).

(** [calc_atr]. *)
Definition calc_atr (high low close : Series) (period : nat) : Series :=
  let tr1 := s_sub high low in
  let tr2 := map fabs (s_sub high (shift1 close)) in
  let tr3 := map fabs (s_sub low (shift1 close)) in
  let tr := row_max3 tr1 tr2 tr3 in
  rolling agg_mean period tr.

(** [calc_vol_ma]: one column [VOL_MA<p>] per period. *)
Definition calc_vol_ma (volume : Series) (periods : list nat) : DataFrame :=
  map (fun p => ("VOL_MA" ++ str_of_nat p, rolling agg_mean p volume)) periods.

(** [detect_trend]. *)
Definition detect_trend (close : Series) (ma_short ma_long : nat) : result string :=
  let ma_s := rolling agg_mean ma_short close in
  let ma_l := rolling agg_mean ma_long close in
  if (length ma_s <? 1)%nat || (length ma_l <? 1)%nat then Ok "数据不足"
  else
    up <- and_ (cmp fgtb (iloc_neg ma_s 1) (iloc_neg ma_l 1))
               (cmp fgtb (iloc_neg close 1) (iloc_neg ma_s 1)) ;;
    if up then Ok "上升趋势"
    else
      down <- and_ (cmp fltb (iloc_neg ma_s 1) (iloc_neg ma_l 1))
                   (cmp fltb (iloc_neg close 1) (iloc_neg ma_s 1)) ;;
      Ok (if down then "下降趋势" else "震荡整理").

(** [find_support_resistance]. *)
Definition find_support_resistance (high low close : Series) (period : nat) : result Levels :=
  sup <- iloc_neg (rolling agg_min period low) 1 ;;
  res <- iloc_neg (rolling agg_max period high) 1 ;;
  h1 <- iloc_neg high 1 ;;
  l1 <- iloc_neg low 1 ;;
  c1 <- iloc_neg close 1 ;;
  let piv := fdiv (fadd (fadd h1 l1) c1) (of_Z 3) in
  Ok (mkLevels (round sup 2) (round res 2) (round piv 2)).

(* ------------------------------------------------------------------ *)
(** ** Composite scorer *)

Definition macd_adjust (macd_signal : string) : Z :=
  if contains "金叉" macd_signal || contains "多头" macd_signal then 15
  else if contains "死叉" macd_signal || contains "空头" macd_signal then -15
  else 0.

Definition kdj_adjust (kdj_signal : string) : Z :=
  if contains "强买" kdj_signal then 15
  else if contains "买入" kdj_signal then 10
  else if contains "强卖" kdj_signal then -15
  else if contains "卖出" kdj_signal then -10
  else 0.

Definition rsi_adjust (rsi_signal : string) : Z :=
  if contains "超卖" rsi_signal then 10
  else if contains "超买" rsi_signal then -10
  else 0.

Definition boll_adjust (boll_signal : string) : Z :=
  if contains "超卖" boll_signal then 10
  else if contains "超买" boll_signal then -10
  else if contains "偏多" boll_signal then 5
  else if contains "偏空" boll_signal then -5
  else 0.

Definition trend_adjust (trend : string) : Z :=
  if String.eqb trend "上升趋势" then 15
  else if String.eqb trend "下降趋势" then -15
  else 0.

(** The score of [technical_score] before the rating and the clamp:
    base 50 plus the five adjustments in source order. *)
Definition raw_score (macd_signal kdj_signal rsi_signal boll_signal trend : string) : Z :=
  50 + macd_adjust macd_signal + kdj_adjust kdj_signal + rsi_adjust rsi_signal
     + boll_adjust boll_signal + trend_adjust trend.

(** The rating block of [technical_score]. *)
Definition rating_tier (score : Z) : string * Z :=
  if score >=? 80 then ("强烈买入", 5)
  else if score >=? 65 then ("买入", 4)
  else if score >=? 50 then ("中性", 3)
  else if score >=? 35 then ("卖出", 2)
  else ("强烈卖出", 1).

(** [technical_score]. *)
Definition technical_score (macd_signal kdj_signal rsi_signal boll_signal trend : string)
  : ScoreData :=
  let score := raw_score macd_signal kdj_signal rsi_signal boll_signal trend in
  let tier := rating_tier score in
  mkScore (Z.min (Z.max score 0) 100) (fst tier) (snd tier).

(* ------------------------------------------------------------------ *)
(** ** Entry point *)

Record PriceInfo := mkPrice {
  current : fnum;
  change_pct : fnum
}.

Record MACDOut := mkMACDOut {
  out_DIF : fnum;
  out_DEA : fnum;
  out_macd_signal : string
}.

Record KDJOut := mkKDJOut {
  out_K : fnum;
  out_D : fnum;
  out_J : fnum;
  out_kdj_signal : string
}.

Record RSIOut := mkRSIOut {
  out_rsi_value : fnum;
  out_rsi_signal : string
}.

Record BOLLOut := mkBOLLOut {
  out_upper : fnum;
  out_mid : fnum;
  out_lower : fnum;
  out_boll_signal : string
}.

Record Indicators := mkIndicators {
  ind_MACD : MACDOut;
  ind_KDJ : KDJOut;
  ind_RSI : RSIOut;
  ind_BOLL : BOLLOut;
  ind_ATR : fnum
}.

Record AnalysisBundle := mkBundle {
  price : PriceInfo;
  trend : string;
  support_resistance : Levels;
  indicators : Indicators;
  score_data : ScoreData
}.

(** [df[zh] if zh in df.columns else df[en]]. *)
Definition column_either (df : DataFrame) (zh en : string) : result Series :=
  if has_column df zh then column df zh else column df en.

(** [analyze_stock]. *)
Definition analyze_stock (qsqrt : Q -> Q) (df : DataFrame) : result AnalysisBundle :=
  close <- column_either df "收盘" "close" ;;
  high <- column_either df "最高" "high" ;;
  low <- column_either df "最低" "low" ;;
  volume <- column_either df "成交量" "volume" ;;
  let ma_data := calc_ma close default_ma_periods in
  macd_data <- calc_macd close 12 26 9 ;;
  kdj_data <- calc_kdj high low close 9 3 3 ;;
  rsi_data <- calc_rsi close 14 ;;
  boll_data <- calc_boll qsqrt close 20 2 ;;
  let atr := calc_atr high low close 14 in
  trend <- detect_trend close 20 60 ;;
  sr <- find_support_resistance high low close 20 ;;
  let score_data :=
    technical_score (macd_signal macd_data) (kdj_signal kdj_data)
                    (rsi_signal rsi_data) (boll_signal boll_data) trend in
  c1 <- iloc_neg close 1 ;;
  c1' <- iloc_neg close 1 ;;
  c2 <- iloc_neg close 2 ;;
  dif1 <- iloc_neg (macd_DIF macd_data) 1 ;;
  dea1 <- iloc_neg (macd_DEA macd_data) 1 ;;
  k1 <- iloc_neg (kdj_K kdj_data) 1 ;;
  d1 <- iloc_neg (kdj_D kdj_data) 1 ;;
  j1 <- iloc_neg (kdj_J kdj_data) 1 ;;
  rsi1 <- iloc_neg (rsi_RSI rsi_data) 1 ;;
  up1 <- iloc_neg (boll_UPPER boll_data) 1 ;;
  mid1 <- iloc_neg (boll_MID boll_data) 1 ;;
  low1 <- iloc_neg (boll_LOWER boll_data) 1 ;;
  atr1 <- iloc_neg atr 1 ;;
  Ok (mkBundle
        (mkPrice (round c1 2)
                 (round (fmul (fsub (fdiv c1' c2) (of_Z 1)) (of_Z 100)) 2))
        trend
        sr
        (mkIndicators
           (mkMACDOut (round dif1 4) (round dea1 4) (macd_signal macd_data))
           (mkKDJOut (round k1 2) (round d1 2) (round j1 2) (kdj_signal kdj_data))
           (mkRSIOut (round rsi1 2) (rsi_signal rsi_data))
           (mkBOLLOut (round up1 2) (round mid1 2) (round low1 2) (boll_signal boll_data))
           (round atr1 2))
        score_data).

(** A concrete square root for evaluation: the floor at 2^-60 resolution. *)
Definition qsqrt_floor (q : Q) : Q :=
  let scale := (2 ^ 120)%Z in
  Qred (Qmake (Z.sqrt ((Qnum q * scale) / Zpos (Qden q))) (2 ^ 60)%positive).

(** Well-formed input: finite fields with [low <= close <= high]. *)
Definition bar_wf (b : Bar) : bool :=
  is_finite (bar_open b) && is_finite (bar_high b) && is_finite (bar_low b) &&
  is_finite (bar_close b) && is_finite (bar_volume b) &&
  fleb (bar_low b) (bar_close b) && fleb (bar_close b) (bar_high b).

(** A bar trading at the single price [p] with volume [v]. *)
Definition flat_bar (p v : Z) : Bar :=
  mkBar (of_Z p) (of_Z p) (of_Z p) (of_Z p) (of_Z v).

(* ------------------------------------------------------------------ *)
(** ** Reports ([scripts/generate_report.py]) *)

(** The three advice sections of [generate_stock_report]. *)
Definition advice_buy : string := "
✅ **建议买入**

当前技术面表现良好，各项指标偏多，可考虑逢低布局。

**注意事项**:
- 建议分批建仓，控制单只股票仓位不超过20%
- 设置止损位在支撑位下方3-5%
- 关注成交量变化，无量上涨需谨慎
".

Definition advice_watch : string := "
⚠️ **建议观望**

当前技术面处于震荡整理阶段，方向不明确。

**注意事项**:
- 等待趋势明朗后再做决策
- 关注是否突破关键支撑/阻力位
- 可设置价格提醒，突破后再介入
".

Definition advice_avoid : string := "
❌ **建议回避**

当前技术面偏弱，多项指标发出卖出信号。

**注意事项**:
- 如持有建议逢高减仓
- 等待企稳信号出现后再考虑
- 关注下方支撑位是否有效
".

(** The section [generate_stock_report] appends for [analysis['score']['score']]. *)
Definition stock_advice (score : Z) : string :=
  if score >=? 70 then advice_buy
  else if score >=? 50 then advice_watch
  else advice_avoid.

(** The summary sentence [generate_market_report] appends for the change of
    the first index. *)
Definition market_sentiment (sh_change : fnum) : string :=
  if fgtb sh_change (of_Z 1) then
    "📈 **市场情绪**: 今日市场表现强势，做多情绪高涨。建议关注热点板块龙头，把握短线机会。
"
  else if fgtb sh_change (of_Z 0) then
    "📊 **市场情绪**: 今日市场小幅上涨，整体偏暖。可适度参与，但需控制仓位。
"
  else if fgtb sh_change (of_Z (-1)) then
    "📉 **市场情绪**: 今日市场小幅调整，情绪偏谨慎。建议观望为主，等待企稳信号。
"
  else
    "⚠️ **市场情绪**: 今日市场大幅下跌，恐慌情绪蔓延。建议控制仓位，防范风险。
".

(** [len(df)]. *)
Definition df_len (df : DataFrame) : nat :=
  match df with
  | [] => 0%nat
  | (_, s) :: _ => length s
  end.

(** A row of a frame: each column name to the value in that row. *)
Definition Row := string -> result fnum.

(** [df.iloc[-k]] for [k >= 1]; [row name] is [df.iloc[-k][name]]. *)
Definition df_iloc_neg (df : DataFrame) (k : nat) : result Row :=
  if (df_len df <? k)%nat then Raise IndexError
  else Ok (fun name => s <- column df name ;; iloc_neg s k).

Record IndexItem := mkIndexItem {
  item_name : string;
  item_close : fnum;
  item_change : fnum;
  item_volume : fnum
}.

(** One entry of [index_data] in [generate_market_report], from the frame
    the data source returned for the index. *)
Definition report_index_item (name : string) (df : DataFrame) : result IndexItem :=
  latest <- df_iloc_neg df 1 ;;
  prev <- df_iloc_neg df 2 ;;
  lc <- latest "close" ;;
  pc <- prev "close" ;;
  pc' <- prev "close" ;;
  let change := fmul (fdiv (fsub lc pc) pc') (of_Z 100) in
  lc' <- latest "close" ;;
  lv <- latest "volume" ;;
  Ok (mkIndexItem name lc' change (fdiv lv (of_Z 100000000))).

(* ------------------------------------------------------------------ *)
(** ** Market overview ([scripts/fetch_market_data.py]) *)

(** Python [f"{x:+.2f}"]. *)
Definition format_signed_2f (x : fnum) : string :=
  match x with
  | NaN => "+nan"
  | PInf => "+inf"
  | NInf => "-inf"
  | Fin q =>
      let s := round_half_even (Qabs q * inject_Z 100) in
      (if Qnegb q then "-" else "+") ++
      str_of_Z (s / 100) ++ "." ++ str_of_Z ((s mod 100) / 10) ++ str_of_Z (s mod 10)
  end.

Record OverviewRow := mkOverviewRow {
  ov_name : string;
  ov_code : string;
  ov_close : fnum;
  ov_change : string;
  ov_amount : fnum
}.

(** The indices of [get_market_overview], in dictionary order. *)
Definition market_indices : list (string * string) :=
  [ ("上证指数", "sh000001"); ("深证成指", "sz399001"); ("创业板指", "sz399006");
    ("科创50", "sh000688"); ("沪深300", "sh000300"); ("中证500", "sh000905") ].

(** The body of the [try] of [get_market_overview] once the frame of an
    index has been fetched: the row to append, if any. *)
Definition overview_row (name code : string) (df : DataFrame) : result (option OverviewRow) :=
  if (0 <? df_len df)%nat then
    latest <- df_iloc_neg df 1 ;;
    prev <- (if (1 <? df_len df)%nat then df_iloc_neg df 2 else Ok latest) ;;
    lc <- latest "close" ;;
    pc <- prev "close" ;;
    pc' <- prev "close" ;;
    let change_pct := fmul (fdiv (fsub lc pc) pc') (of_Z 100) in
    lc' <- latest "close" ;;
    lv <- latest "volume" ;;
    Ok (Some (mkOverviewRow name code (round lc' 2)
                (format_signed_2f change_pct ++ "%")
                (round (fdiv lv (of_Z 100000000)) 2)))
  else Ok None.

(** [get_market_overview]; [fetch] is the data source, any exception of the
    fetch or of the body skips the index. *)
Definition get_market_overview (fetch : string -> result DataFrame) : list OverviewRow :=
  flat_map (fun nc =>
              match (df <- fetch (snd nc) ;; overview_row (fst nc) (snd nc) df) with
              | Ok (Some r) => [r]
              | _ => []
              end) market_indices.

(* ------------------------------------------------------------------ *)
(** ** Stock selection ([scripts/strategy_multi_factor.py]) *)

(** One row of the real-time quote table, with the columns the strategies
    read: 代码, 名称, 最新价, 涨跌幅, 市盈率-动态, 市净率, 换手率, 成交额,
    量比, 振幅, 总市值. *)
Record Quote := mkQuote {
  q_code : string;
  q_name : string;
  q_price : fnum;
  q_pct_chg : fnum;
  q_pe : fnum;
  q_pb : fnum;
  q_turnover : fnum;
  q_amount : fnum;
  q_vol_ratio : fnum;
  q_amplitude : fnum;
  q_total_cap : fnum
}.

(** The filters of [get_stock_pool] on the fetched table, in source order. *)
Definition stock_pool_filter (df : list Quote) : list Quote :=
  let df := filter (fun q => negb (contains "ST" (q_name q) || contains "退" (q_name q))) df in
  let df := filter (fun q => fltb (q_pct_chg q) (Fin (99 # 10))) df in
  let df := filter (fun q => fgtb (q_pct_chg q) (Fin (- 99 # 10))) df in
  let df := filter (fun q => fgtb (q_turnover q) (of_Z 0)) df in
  let df := filter (fun q => fgtb (q_pe q) (of_Z 0)) df in
  df.

(** Python [x == y] on floats. *)
Definition feqb (x y : fnum) : bool := fleb x y && fleb y x.

Definition count (p : fnum -> bool) (l : list fnum) : nat := length (filter p l).

(** The values of a column that are present. *)
Definition present (s : Series) : Series :=
  filter (fun x => negb (is_nan x)) s.

(** [y] is ranked strictly before [x]. *)
Definition ranks_before (asc : bool) (y x : fnum) : bool :=
  if asc then fltb y x else fltb x y.

(** The percentile rank of one value among the values present: its average
    rank (ties share the mean of their positions) over their number; a
    missing value has no rank. *)
Definition rank_among (asc : bool) (valid : Series) (x : fnum) : fnum :=
  if is_nan x then NaN
  else
    let before := count (fun y => ranks_before asc y x) valid in
    let ties := count (fun y => feqb y x) valid in
    fdiv (fadd (of_Z (Z.of_nat before))
               (fdiv (of_Z (Z.of_nat ties + 1)) (of_Z 2)))
         (of_Z (Z.of_nat (length valid))).

(** [s.rank(pct=True, ascending=asc)]. *)
Definition rank_pct (asc : bool) (s : Series) : Series :=
  map (rank_among asc (present s)) s.

(** Ascending order of a score column, missing values last. *)
Definition key_leb (x y : fnum) : bool :=
  is_nan y || (negb (is_nan x) && fleb x y).

Fixpoint insert_row {A : Type} (key : A -> fnum) (a : A) (l : list A) : list A :=
  match l with
  | [] => [a]
  | b :: r => if key_leb (key a) (key b) then a :: l else b :: insert_row key a r
  end.

(** Rows in ascending order of [key], equal keys in order of appearance
    ([keep='first']). *)
Definition sort_rows {A : Type} (key : A -> fnum) (l : list A) : list A :=
  fold_right (insert_row key) [] l.

(** [df.nsmallest(n, column)]: the first [n] rows in ascending order of the
    column, ties in order of appearance. *)
Definition nsmallest {A : Type} (n : nat) (key : A -> fnum) (l : list A) : list A :=
  firstn n (sort_rows key l).

(** The order in which [nsmallest] lists rows. *)
Definition row_le {A : Type} (key : A -> fnum) (a b : A) : Prop :=
  key_leb (key a) (key b) = true.

(** [strategy_value]: the selected rows with their [value_score]. *)
Definition value_scores (df : list Quote) : Series :=
  let pe_rank := rank_pct true (map q_pe df) in
  let pb_rank := rank_pct true (map q_pb df) in
  s_add (s_scale (Fin (1 # 2)) pe_rank) (s_scale (Fin (1 # 2)) pb_rank).

Definition strategy_value (df : list Quote) (top_n : nat) : list (Quote * fnum) :=
  nsmallest top_n snd (combine df (value_scores df)).

(** [strategy_momentum]: the selected rows with their [momentum_score]. *)
Definition momentum_scores (df : list Quote) : Series :=
  let momentum_rank := rank_pct false (map q_pct_chg df) in
  let turnover_rank := rank_pct true (map q_turnover df) in
  s_add (s_scale (Fin (7 # 10)) momentum_rank) (s_scale (Fin (3 # 10)) turnover_rank).

Definition strategy_momentum (df : list Quote) (top_n : nat) : list (Quote * fnum) :=
  nsmallest top_n snd (combine df (momentum_scores df)).

(** [strategy_breakout]: the ranks are taken over the whole table, the
    filter on 量比 and 涨跌幅 comes after. *)
Definition breakout_scores (df : list Quote) : Series :=
  let vol_ratio_rank := rank_pct false (map q_vol_ratio df) in
  let change_rank := rank_pct false (map q_pct_chg df) in
  let amplitude_rank := rank_pct true (map q_amplitude df) in
  s_add (s_add (s_scale (Fin (2 # 5)) vol_ratio_rank) (s_scale (Fin (2 # 5)) change_rank))
        (s_scale (Fin (1 # 5)) amplitude_rank).

(** The mask [(df['量比'] > 1.5) & (df['涨跌幅'] > 2)]. *)
Definition breakout_mask (q : Quote) : bool :=
  fgtb (q_vol_ratio q) (Fin (3 # 2)) && fgtb (q_pct_chg q) (of_Z 2).

Definition strategy_breakout (df : list Quote) (top_n : nat) : list (Quote * fnum) :=
  let scored := combine df (breakout_scores df) in
  let kept := filter (fun r => breakout_mask (fst r)) scored in
  nsmallest top_n snd kept.

(** [strategy_quality]: the selected rows with [implied_roe] and
    [quality_score]. *)
Definition implied_roe (q : Quote) : fnum :=
  fdiv (of_Z 1) (fadd (fmul (q_pe q) (q_pb q)) (Fin (1 # 100))).

Definition quality_scores (df : list Quote) : Series :=
  let roe_rank := rank_pct false (map implied_roe df) in
  let cap_rank := rank_pct true (map q_total_cap df) in
  s_add (s_scale (Fin (7 # 10)) roe_rank) (s_scale (Fin (3 # 10)) cap_rank).

Definition strategy_quality (df : list Quote) (top_n : nat) : list (Quote * fnum * fnum) :=
  nsmallest top_n snd
    (combine (combine df (map implied_roe df)) (quality_scores df)).

(* ------------------------------------------------------------------ *)
(** ** Vocabulary of the statements *)

(** [x] is ranked no later than [y]. *)
Definition not_after (asc : bool) (x y : fnum) : bool :=
  if asc then fleb x y else fleb y x.

(** The rank that [before] smaller values and [ties] equal ones (the value
    itself included) give among [n] values. *)
Definition rank_value (before ties n : nat) : Q :=
  (inject_Z (Z.of_nat before) + inject_Z (Z.of_nat ties + 1) / 2)
  / inject_Z (Z.of_nat n).

(** The rank of a row on one factor of the table. *)
Definition factor_rank (asc : bool) (col : Quote -> fnum) (df : list Quote) (q : Quote) : fnum :=
  rank_among asc (present (map col df)) (col q).

(** The scores of the four strategies, row by row. *)
Definition value_score_of (df : list Quote) (q : Quote) : fnum :=
  fadd (fmul (factor_rank true q_pe df q) (Fin (1 # 2)))
       (fmul (factor_rank true q_pb df q) (Fin (1 # 2))).

Definition momentum_score_of (df : list Quote) (q : Quote) : fnum :=
  fadd (fmul (factor_rank false q_pct_chg df q) (Fin (7 # 10)))
       (fmul (factor_rank true q_turnover df q) (Fin (3 # 10))).

Definition breakout_score_of (df : list Quote) (q : Quote) : fnum :=
  fadd (fadd (fmul (factor_rank false q_vol_ratio df q) (Fin (2 # 5)))
             (fmul (factor_rank false q_pct_chg df q) (Fin (2 # 5))))
       (fmul (factor_rank true q_amplitude df q) (Fin (1 # 5))).

Definition quality_score_of (df : list Quote) (q : Quote) : fnum :=
  fadd (fmul (factor_rank false implied_roe df q) (Fin (7 # 10)))
       (fmul (factor_rank true q_total_cap df q) (Fin (3 # 10))).

(** The row has a value on the factor. *)
Definition has_value (col : Quote -> fnum) (q : Quote) : Prop :=
  is_nan (col q) = false.

(** A finite value whose number satisfies [P]. *)
Definition fin_sat (P : Q -> Prop) (x : fnum) : Prop :=
  match x with
  | Fin q => P q
  | _ => False
  end.

(** A finite value. *)
Definition finite (x : fnum) : Prop := is_finite x = true.

(** The labels [get_macd_signal] gives to two or more points. *)
Definition macd_labels : list string :=
  ["金叉买入"; "死叉卖出"; "多头强势"; "多头初现"; "空头强势"; "空头初现"].

(** The columns of the frame of a bar series. *)
Definition closes (bars : list Bar) : Series := map bar_close bars.
Definition highs (bars : list Bar) : Series := map bar_high bars.
Definition lows (bars : list Bar) : Series := map bar_low bars.
Definition volumes (bars : list Bar) : Series := map bar_volume bars.

(** Five bars closing at 10, 11, 12, 11, 13, each without intraday range. *)
Definition sample_five_bars : list Bar :=
  map (fun p => flat_bar p 1000) [10; 11; 12; 11; 13].

(** [n] bars all trading at 10 only. *)
Definition flat_market (n : nat) : list Bar := repeat (flat_bar 10 1000) n.

(** [n] bars without intraday range closing at 100, 101, 102, ... *)
Definition rising_market (n : nat) : list Bar :=
  map (fun k => flat_bar (100 + Z.of_nat k) 1000) (seq 0 n).

(** A small quote table: two banks and a stock under special treatment. *)
Definition quote_a : Quote :=
  mkQuote "600000" "浦发银行" (of_Z 10) (of_Z 3) (of_Z 5) (Fin (1 # 2)) (of_Z 1)
          (of_Z 100000000) (of_Z 2) (of_Z 3) (of_Z 1000000000).

Definition quote_b : Quote :=
  mkQuote "000001" "平安银行" (of_Z 12) (of_Z 1) (of_Z 8) (of_Z 1) (of_Z 2)
          (of_Z 200000000) (of_Z 1) (of_Z 4) (of_Z 2000000000).

Definition quote_st : Quote :=
  mkQuote "600001" "ST样本" (of_Z 3) (of_Z 5) (of_Z 20) (of_Z 2) (of_Z 3)
          (of_Z 50000000) (of_Z 3) (of_Z 6) (of_Z 500000000).

Definition sample_quotes : list Quote := [quote_b; quote_a; quote_st].

(* ================================================================== *)
(** * Properties *)

(* ------------------------------------------------------------------ *)
(** ** Comparisons *)

Lemma Qltb_true (a b : Q) : Qltb a b = true <-> (a < b)%Q.
Proof.
  unfold Qltb. rewrite negb_true_iff.
  split; intros H.
  - apply Qnot_le_lt. intros Hle. apply Qle_bool_iff in Hle. congruence.
  - destruct (Qle_bool b a) eqn:E; [ | reflexivity ].
    apply Qle_bool_iff in E. exfalso. apply (Qlt_not_le _ _ H E).
Qed.

Lemma Qltb_false (a b : Q) : Qltb a b = false <-> (b <= a)%Q.
Proof.
  unfold Qltb. rewrite negb_false_iff. apply Qle_bool_iff.
Qed.

Lemma Qle_bool_false (a b : Q) : Qle_bool a b = false <-> (b < a)%Q.
Proof.
  rewrite <- Qltb_true. unfold Qltb. now rewrite negb_true_iff.
Qed.

(** Turn the boolean comparisons of the context and goal into propositions
    on the rationals. *)
Ltac q_props :=
  unfold of_Z, inject_Z in *;
  repeat match goal with
    | H : Qltb _ _ = true |- _ => apply Qltb_true in H
    | H : Qltb _ _ = false |- _ => apply Qltb_false in H
    | H : Qle_bool _ _ = true |- _ => apply Qle_bool_iff in H
    | H : Qle_bool _ _ = false |- _ => apply Qle_bool_false in H
    | |- Qltb _ _ = true => apply Qltb_true
    | |- Qltb _ _ = false => apply Qltb_false
    | |- Qle_bool _ _ = true => apply Qle_bool_iff
    | |- Qle_bool _ _ = false => apply Qle_bool_false
    end.

(** Case analysis on every value in sight, then arithmetic. *)
Ltac f_cases :=
  unfold fgtb, fgeb, of_Z, inject_Z in *;
  repeat match goal with x : fnum |- _ => destruct x end;
  cbn [fltb fleb is_nan is_finite] in *;
  try discriminate; try reflexivity;
  q_props; try lra.

Lemma fltb_asym (x y : fnum) : fltb x y = true -> fltb y x = false.
Proof. intros H. f_cases. Qed.

(* ------------------------------------------------------------------ *)
(** ** Composite scorer *)

Lemma macd_adjust_range (s : string) : -15 <= macd_adjust s <= 15.
Proof.
  unfold macd_adjust.
  destruct (contains "金叉" s || contains "多头" s);
    [ | destruct (contains "死叉" s || contains "空头" s) ]; lia.
Qed.

Lemma kdj_adjust_range (s : string) : -15 <= kdj_adjust s <= 15.
Proof.
  unfold kdj_adjust.
  repeat match goal with |- context [if ?c then _ else _] => destruct c end; lia.
Qed.

Lemma rsi_adjust_range (s : string) : -10 <= rsi_adjust s <= 10.
Proof.
  unfold rsi_adjust.
  repeat match goal with |- context [if ?c then _ else _] => destruct c end; lia.
Qed.

Lemma boll_adjust_range (s : string) : -10 <= boll_adjust s <= 10.
Proof.
  unfold boll_adjust.
  repeat match goal with |- context [if ?c then _ else _] => destruct c end; lia.
Qed.

Lemma trend_adjust_range (s : string) : -15 <= trend_adjust s <= 15.
Proof.
  unfold trend_adjust.
  repeat match goal with |- context [if ?c then _ else _] => destruct c end; lia.
Qed.

(** The unclamped sum ranges over [-15, 115]: the clamp is not idle. *)
Lemma raw_score_range (m k r b t : string) : -15 <= raw_score m k r b t <= 115.
Proof.
  unfold raw_score.
  pose proof (macd_adjust_range m). pose proof (kdj_adjust_range k).
  pose proof (rsi_adjust_range r). pose proof (boll_adjust_range b).
  pose proof (trend_adjust_range t). lia.
Qed.

(** C3: the returned score lies in [0,100] for every five inputs, and the
    clamp is what achieves it: the all-bullish labels sum to 115 and are
    returned as 100, the all-bearish labels sum to -15 and are returned as 0. *)
Theorem technical_score_clamped :
  (forall m k r b t : string,
      0 <= score (technical_score m k r b t) <= 100) /\
  (raw_score "金叉买入" "超卖金叉-强买" "严重超卖" "跌破下轨-超卖" "上升趋势" = 115 /\
   score (technical_score "金叉买入" "超卖金叉-强买" "严重超卖" "跌破下轨-超卖" "上升趋势") = 100) /\
  (raw_score "死叉卖出" "超买死叉-强卖" "严重超买" "突破上轨-超买" "下降趋势" = -15 /\
   score (technical_score "死叉卖出" "超买死叉-强卖" "严重超买" "突破上轨-超买" "下降趋势") = 0).
Proof.
  split; [ | split; split; vm_compute; reflexivity ].
  intros m k r b t. unfold technical_score. cbn [score]. lia.
Qed.

(** The rating block depends on the score only through the four floors, so
    clamping to [0,100] before or after rating gives the same tier. *)
Lemma rating_tier_clamp (s : Z) : rating_tier (Z.min (Z.max s 0) 100) = rating_tier s.
Proof.
  unfold rating_tier.
  repeat match goal with |- context [?a >=? ?b] => destruct (Z.geb_spec a b) end;
    try reflexivity; lia.
Qed.

(** C4: rating and stars are fixed by the returned score with floors 80, 65,
    50 and 35 inclusive; the block gives strong buy / 5 at exactly 80 and
    buy / 4 at exactly 79, and 80 is a score the scorer does return. *)
Theorem technical_score_rating_tiers :
  (forall m k r b t : string,
      let res := technical_score m k r b t in
      (80 <= score res -> rating res = "强烈买入" /\ stars res = 5) /\
      (65 <= score res < 80 -> rating res = "买入" /\ stars res = 4) /\
      (50 <= score res < 65 -> rating res = "中性" /\ stars res = 3) /\
      (35 <= score res < 50 -> rating res = "卖出" /\ stars res = 2) /\
      (score res < 35 -> rating res = "强烈卖出" /\ stars res = 1)) /\
  rating_tier 80 = ("强烈买入", 5) /\
  rating_tier 79 = ("买入", 4) /\
  technical_score "金叉买入" "中性震荡" "中性(50.0)" "" "上升趋势"
    = mkScore 80 "强烈买入" 5.
Proof.
  split; [ | repeat split; vm_compute; reflexivity ].
  intros m k r b t res.
  assert (Ht : (rating res, stars res) = rating_tier (score res)).
  { subst res. unfold technical_score. cbn [score rating stars].
    rewrite rating_tier_clamp. now destruct (rating_tier _). }
  revert Ht. generalize (score res) as s. intros s Ht.
  unfold rating_tier in Ht.
  split; [ | split; [ | split; [ | split ] ] ]; intros Hs;
    repeat match type of Ht with
      | context [?a >=? ?b] => destruct (Z.geb_spec a b); try lia
      end; split; congruence.
Qed.

(** C10: the labels 高位金叉 and 低位死叉 match none of the four KDJ keywords,
    so they add 0 and score exactly as the neutral label 中性震荡, whatever
    the other four inputs; the classifier emits them for a fresh golden cross
    with K >= 50 and a fresh death cross with K <= 50. *)
Theorem kdj_high_low_cross_unscored :
  (kdj_adjust "高位金叉" = 0 /\ kdj_adjust "低位死叉" = 0 /\ kdj_adjust "中性震荡" = 0) /\
  (forall m r b t : string,
      technical_score m "高位金叉" r b t = technical_score m "中性震荡" r b t /\
      technical_score m "低位死叉" r b t = technical_score m "中性震荡" r b t) /\
  (forall (k d : Series) (k1 d1 k2 d2 : fnum),
      iloc_neg k 1 = Ok k1 -> iloc_neg d 1 = Ok d1 ->
      iloc_neg k 2 = Ok k2 -> iloc_neg d 2 = Ok d2 ->
      fgtb k1 d1 = true -> fleb k2 d2 = true -> fgeb k1 (of_Z 50) = true ->
      get_kdj_signal k d = Ok "高位金叉") /\
  (forall (k d : Series) (k1 d1 k2 d2 : fnum),
      iloc_neg k 1 = Ok k1 -> iloc_neg d 1 = Ok d1 ->
      iloc_neg k 2 = Ok k2 -> iloc_neg d 2 = Ok d2 ->
      fltb k1 d1 = true -> fgeb k2 d2 = true -> fleb k1 (of_Z 50) = true ->
      get_kdj_signal k d = Ok "低位死叉").
Proof.
  split; [ repeat split; vm_compute; reflexivity | ].
  split.
  { intros m r b t. unfold technical_score, raw_score.
    change (kdj_adjust "高位金叉") with 0.
    change (kdj_adjust "低位死叉") with 0.
    change (kdj_adjust "中性震荡") with 0.
    split; reflexivity. }
  split.
  - intros k d k1 d1 k2 d2 Hk1 Hd1 Hk2 Hd2 Hgt Hle H50.
    unfold get_kdj_signal.
    destruct (length k <? 2)%nat eqn:Hlen.
    { unfold iloc_neg in Hk2. now rewrite Hlen in Hk2. }
    unfold and_, cmp. rewrite Hk1, Hd1, Hk2, Hd2. cbn [bind].
    rewrite Hgt, Hle.
    assert (fltb k1 (of_Z 20) = false) as -> by (clear - H50; f_cases).
    assert (fltb k1 (of_Z 50) = false) as -> by (clear - H50; f_cases).
    reflexivity.
  - intros k d k1 d1 k2 d2 Hk1 Hd1 Hk2 Hd2 Hlt Hge H50.
    unfold get_kdj_signal.
    destruct (length k <? 2)%nat eqn:Hlen.
    { unfold iloc_neg in Hk2. now rewrite Hlen in Hk2. }
    unfold and_, cmp. rewrite Hk1, Hd1, Hk2, Hd2. cbn [bind].
    assert (fgtb k1 d1 = false) as -> by (unfold fgtb; now apply fltb_asym).
    rewrite Hlt, Hge.
    assert (fgtb k1 (of_Z 80) = false) as -> by (clear - H50; f_cases).
    assert (fgtb k1 (of_Z 50) = false) as -> by (clear - H50; f_cases).
    reflexivity.
Qed.

(* ------------------------------------------------------------------ *)
(** ** Signal classifier *)

Lemma iloc_neg_length (s : Series) (k : nat) (x : fnum) :
  iloc_neg s k = Ok x -> (k <= length s)%nat.
Proof.
  unfold iloc_neg. destruct (Nat.ltb_spec (length s) k); [ discriminate | lia ].
Qed.

Lemma iloc_neg_ok (s : Series) (k : nat) :
  (1 <= k <= length s)%nat -> exists x, iloc_neg s k = Ok x.
Proof.
  intros H. unfold iloc_neg.
  destruct (Nat.ltb_spec (length s) k); [ lia | ].
  destruct (nth_error s (length s - k)) eqn:E; [ eauto | ].
  apply nth_error_None in E. lia.
Qed.

(** C5: with fewer than two points the MACD label is 数据不足; otherwise the
    label is 金叉买入 exactly when DIF was at or below DEA on the prior bar and
    is above it on the current bar, and 死叉卖出 exactly when DIF was at or
    above DEA on the prior bar and is below it on the current bar. *)
Theorem get_macd_signal_cross (dif dea : Series) :
  ((length dif < 2)%nat -> get_macd_signal dif dea = Ok "数据不足") /\
  (forall d1 d2 e1 e2 : fnum,
      iloc_neg dif 1 = Ok d1 -> iloc_neg dif 2 = Ok d2 ->
      iloc_neg dea 1 = Ok e1 -> iloc_neg dea 2 = Ok e2 ->
      exists sig : string,
        get_macd_signal dif dea = Ok sig /\
        (sig = "金叉买入" <-> fleb d2 e2 = true /\ fgtb d1 e1 = true) /\
        (sig = "死叉卖出" <-> fgeb d2 e2 = true /\ fltb d1 e1 = true)).
Proof.
  split.
  - intros H. unfold get_macd_signal.
    destruct (Nat.ltb_spec (length dif) 2); [ reflexivity | lia ].
  - intros d1 d2 e1 e2 Hd1 Hd2 He1 He2.
    pose proof (iloc_neg_length _ _ _ Hd2) as Hlen.
    unfold get_macd_signal.
    destruct (Nat.ltb_spec (length dif) 2); [ lia | ].
    unfold and_, cmp. rewrite Hd1, Hd2, He1, He2. cbn [bind].
    destruct (fgtb d1 e1) eqn:Hgt.
    + assert (Hlt : fltb d1 e1 = false) by (unfold fgtb in Hgt; now apply fltb_asym).
      rewrite Hlt.
      destruct (fleb d2 e2) eqn:Hle.
      * eexists; split; [ reflexivity | ].
        split; split; intros; try discriminate; intuition congruence.
      * destruct (fgtb d1 (of_Z 0)); eexists; (split; [ reflexivity | ]);
          split; split; intros; try discriminate; intuition congruence.
    + destruct (fltb d1 e1) eqn:Hlt.
      * destruct (fgeb d2 e2) eqn:Hge.
        -- eexists; split; [ reflexivity | ].
           split; split; intros; try discriminate; intuition congruence.
        -- destruct (fltb d1 (of_Z 0)); eexists; (split; [ reflexivity | ]);
             split; split; intros; try discriminate; intuition congruence.
      * destruct (fltb d1 (of_Z 0)); eexists; (split; [ reflexivity | ]);
          split; split; intros; try discriminate; intuition congruence.
Qed.

(** DIF rising through a flat DEA between the last two bars is a golden cross. *)
Lemma get_macd_signal_cross_witness :
  get_macd_signal [of_Z 0; of_Z 1] [of_Z 0; of_Z 0] = Ok "金叉买入".
Proof.
  destruct (get_macd_signal_cross [of_Z 0; of_Z 1] [of_Z 0; of_Z 0]) as [_ H].
  destruct (H (of_Z 1) (of_Z 0) (of_Z 0) (of_Z 0) eq_refl eq_refl eq_refl eq_refl)
    as [sig [Hs [Hg _]]].
  rewrite Hs. f_equal. apply Hg. split; reflexivity.
Defined.

(** The mirror crossing and the four non-crossing labels. *)
Example get_macd_signal_death :
  get_macd_signal [of_Z 0; of_Z (-1)] [of_Z 0; of_Z 0] = Ok "死叉卖出".
Proof. reflexivity. Qed.

Example get_macd_signal_no_cross :
  get_macd_signal [of_Z 2; of_Z 3] [of_Z 1; of_Z 1] = Ok "多头强势" /\
  get_macd_signal [of_Z (-2); of_Z (-1)] [of_Z (-3); of_Z (-3)] = Ok "多头初现" /\
  get_macd_signal [of_Z (-2); of_Z (-3)] [of_Z (-1); of_Z (-1)] = Ok "空头强势" /\
  get_macd_signal [of_Z 2; of_Z 1] [of_Z 3; of_Z 3] = Ok "空头初现" /\
  get_macd_signal [of_Z 1; NaN] [of_Z 1; of_Z 0] = Ok "空头初现".
Proof. repeat split; reflexivity. Qed.

(** A fresh golden cross at K = 60 and a fresh death cross at K = 40. *)
Example get_kdj_signal_unscored_crosses :
  get_kdj_signal [of_Z 40; of_Z 60] [of_Z 50; of_Z 55] = Ok "高位金叉" /\
  get_kdj_signal [of_Z 60; of_Z 40] [of_Z 50; of_Z 45] = Ok "低位死叉".
Proof. split; reflexivity. Qed.

(* ------------------------------------------------------------------ *)
(** ** Series: lengths and positions *)

Open Scope list_scope.

Lemma iloc_neg_nth_error (s : Series) (k : nat) :
  (1 <= k <= length s)%nat ->
  forall x, iloc_neg s k = Ok x <-> nth_error s (length s - k) = Some x.
Proof.
  intros H x. unfold iloc_neg.
  destruct (Nat.ltb_spec (length s) k); [ lia | ].
  destruct (nth_error s (length s - k)) eqn:E.
  - split; congruence.
  - apply nth_error_None in E. lia.
Qed.

Lemma length_zip_with (f : fnum -> fnum -> fnum) (a b : Series) :
  length (zip_with f a b) = Nat.min (length a) (length b).
Proof. unfold zip_with. now rewrite length_map, length_combine. Qed.

Lemma nth_error_combine {A B : Type} (a : list A) (b : list B) (i : nat) (x : A) (y : B) :
  nth_error a i = Some x -> nth_error b i = Some y ->
  nth_error (combine a b) i = Some (x, y).
Proof.
  revert b i. induction a as [ | a0 a IH ]; intros [ | b0 b ] [ | i ]; cbn;
    try discriminate; try congruence.
  apply IH.
Qed.

Lemma nth_error_zip_with (f : fnum -> fnum -> fnum) (a b : Series) (i : nat) (x y : fnum) :
  nth_error a i = Some x -> nth_error b i = Some y ->
  nth_error (zip_with f a b) i = Some (f x y).
Proof.
  intros Ha Hb. unfold zip_with.
  now rewrite nth_error_map, (nth_error_combine _ _ _ _ _ Ha Hb).
Qed.

Lemma length_rolling (agg : list fnum -> fnum) (w : nat) (s : Series) :
  length (rolling agg w s) = length s.
Proof. unfold rolling. now rewrite length_map, length_seq. Qed.

Lemma nth_error_rolling (agg : list fnum -> fnum) (w : nat) (s : Series) (i : nat) :
  (i < length s)%nat ->
  nth_error (rolling agg w s) i = Some (rolling_at agg w s i).
Proof.
  intros H. unfold rolling. rewrite nth_error_map, nth_error_seq.
  destruct (Nat.ltb_spec i (length s)); [ reflexivity | lia ].
Qed.

(** Before the window has filled the rolling aggregate is missing. *)
Lemma rolling_at_unfilled (agg : list fnum -> fnum) (w : nat) (s : Series) (i : nat) :
  (i + 1 < w)%nat -> rolling_at agg w s i = NaN.
Proof.
  intros H. unfold rolling_at.
  destruct (Nat.ltb_spec (i + 1) w); [ reflexivity | lia ].
Qed.

Lemma rolling_unfilled (agg : list fnum -> fnum) (w : nat) (s : Series) (i : nat) :
  (i + 1 < w)%nat -> (i < length s)%nat ->
  nth_error (rolling agg w s) i = Some NaN.
Proof.
  intros Hw Hi. now rewrite nth_error_rolling, rolling_at_unfilled.
Qed.

Lemma nth_error_window_at (w : nat) (s : Series) (i k : nat) :
  nth_error (window_at w s i) k =
  if (k <? w)%nat then nth_error s (i + 1 - w + k) else None.
Proof. unfold window_at. now rewrite nth_error_firstn, nth_error_skipn. Qed.

Lemma length_window_at (w : nat) (s : Series) (i : nat) :
  (w <= i + 1)%nat -> (i < length s)%nat -> length (window_at w s i) = w.
Proof.
  intros Hw Hi. unfold window_at. rewrite length_firstn, length_skipn. lia.
Qed.

Lemma Forall_nth_error {A : Type} (P : A -> Prop) (l : list A) :
  (forall k x, nth_error l k = Some x -> P x) -> Forall P l.
Proof.
  induction l as [ | a l IH ]; intros H; constructor.
  - apply (H 0%nat). reflexivity.
  - apply IH. intros k x Hk. apply (H (S k)). exact Hk.
Qed.

(** A property of every series position in the trailing window holds of
    every element of the window. *)
Lemma Forall_window_at (P : fnum -> Prop) (w : nat) (s : Series) (i : nat) :
  (w <= i + 1)%nat ->
  (forall j x, (i + 1 - w <= j <= i)%nat -> nth_error s j = Some x -> P x) ->
  Forall P (window_at w s i).
Proof.
  intros Hw H. apply Forall_nth_error. intros k x Hk.
  rewrite nth_error_window_at in Hk.
  destruct (Nat.ltb_spec k w); [ | discriminate ].
  apply (H (i + 1 - w + k)%nat); [ lia | exact Hk ].
Qed.

Lemma existsb_is_missing_false (l : list fnum) :
  Forall (fun x => is_missing x = false) l -> existsb is_missing l = false.
Proof.
  induction 1 as [ | x l Hx _ IH ]; cbn [existsb]; [ reflexivity | ].
  now rewrite Hx, IH.
Qed.

(** On a filled window without missing values the rolling aggregate is the
    aggregate of the window. *)
Lemma rolling_at_filled (agg : list fnum -> fnum) (w : nat) (s : Series) (i : nat) :
  (w <= i + 1)%nat ->
  Forall (fun x => is_missing x = false) (window_at w s i) ->
  rolling_at agg w s i = agg (window_at w s i).
Proof.
  intros Hw Hn. unfold rolling_at.
  destruct (Nat.ltb_spec (i + 1) w); [ lia | ].
  now rewrite existsb_is_missing_false.
Qed.

Lemma prep_values_finite (s : Series) :
  Forall (fun x => is_finite x = true) s -> prep_values s = s.
Proof.
  unfold prep_values, is_missing.
  induction 1 as [ | x l Hx _ IH ]; cbn [map]; [ reflexivity | ].
  now rewrite Hx, IH.
Qed.

Lemma length_prep_values (s : Series) : length (prep_values s) = length s.
Proof. apply length_map. Qed.

Lemma nth_error_prep_values (s : Series) (j : nat) (q : Q) :
  nth_error s j = Some (Fin q) -> nth_error (prep_values s) j = Some (Fin q).
Proof.
  intros H. unfold prep_values. rewrite nth_error_map, H. reflexivity.
Qed.

Lemma length_ewm_go (alpha : Q) (xs : list fnum) :
  forall (w : fnum) (o : Q), length (ewm_go alpha w o xs) = length xs.
Proof.
  induction xs as [ | x xs IH ]; intros w o; cbn [ewm_go length]; [ reflexivity | ].
  destruct (is_nan w); [ | destruct (is_nan x) ]; cbn [length]; now rewrite IH.
Qed.

Lemma length_ewm_mean (alpha : Q) (s : Series) :
  length (ewm_mean alpha s) = length s.
Proof.
  unfold ewm_mean. rewrite <- (length_prep_values s).
  destruct (prep_values s) as [ | x r ]; cbn [length]; [ reflexivity | ].
  now rewrite length_ewm_go.
Qed.

Lemma length_shift1 (s : Series) : length (shift1 s) = length s.
Proof.
  destruct s as [ | x s ]; [ reflexivity | ].
  unfold shift1. cbn [length]. rewrite removelast_firstn_len, length_firstn.
  cbn [length]. lia.
Qed.

Lemma nth_error_shift1_0 (s : Series) :
  s <> [] -> nth_error (shift1 s) 0 = Some NaN.
Proof. destruct s; [ congruence | reflexivity ]. Qed.

Lemma nth_error_shift1_S (s : Series) (j : nat) :
  (S j < length s)%nat -> nth_error (shift1 s) (S j) = nth_error s j.
Proof.
  intros H. destruct s as [ | x s ]; [ cbn in H; lia | ].
  unfold shift1. cbn [nth_error]. rewrite removelast_firstn_len, nth_error_firstn.
  destruct (Nat.ltb_spec j (Nat.pred (length (x :: s)))); [ reflexivity | ].
  cbn [length] in *. lia.
Qed.

Lemma length_diff (s : Series) : length (diff s) = length s.
Proof. unfold diff, s_sub. rewrite length_zip_with, length_shift1. lia. Qed.

(* ------------------------------------------------------------------ *)
(** ** Missing values through arithmetic *)

Lemma fadd_nan_r (x : fnum) : fadd x NaN = NaN.
Proof. now destruct x. Qed.

Lemma fsub_nan_r (x : fnum) : fsub x NaN = NaN.
Proof. now destruct x. Qed.

Lemma fmul_nan_r (x : fnum) : fmul x NaN = NaN.
Proof. now destruct x. Qed.


Lemma Qred_eq_of_Qeq (a b : Q) : (a == b)%Q -> Qred b = b -> Qred a = b.
Proof. intros H Hb. rewrite <- Hb. now apply Qred_complete. Qed.

Lemma Qzerob_true (a : Q) : Qzerob a = true <-> (a == 0)%Q.
Proof.
  unfold Qzerob, Qeq. cbn. rewrite Z.eqb_eq. lia.
Qed.

Lemma Qzerob_false (a : Q) : Qzerob a = false <-> ~ (a == 0)%Q.
Proof.
  rewrite <- Qzerob_true. destruct (Qzerob a); split; congruence.
Qed.

Lemma Qnegb_true (a : Q) : Qnegb a = true <-> (a < 0)%Q.
Proof.
  unfold Qnegb, Qlt. cbn. rewrite Z.ltb_lt. lia.
Qed.

Lemma Qnegb_false (a : Q) : Qnegb a = false <-> (0 <= a)%Q.
Proof.
  unfold Qnegb, Qle. cbn. rewrite Z.ltb_ge. lia.
Qed.

(** One smoothing step on a constant input returns the constant. *)
Lemma ewm_step_const (alpha q : Q) :
  Qred q = q ->
  fdiv (fadd (fmul (Fin (Qred (1 * (1 - alpha)))) (Fin q)) (fmul (Fin alpha) (Fin q)))
       (Fin (Qred (Qred (1 * (1 - alpha)) + alpha))) = Fin q.
Proof.
  intros Hq. cbn [fmul fadd fdiv].
  assert (Hone : (Qred (Qred (1 * (1 - alpha)) + alpha) == 1)%Q).
  { rewrite !Qred_correct. ring. }
  assert (Hz : Qzerob (Qred (Qred (1 * (1 - alpha)) + alpha)) = false).
  { apply Qzerob_false. rewrite Hone. discriminate. }
  rewrite Hz. f_equal. apply Qred_eq_of_Qeq; [ | exact Hq ].
  rewrite Hone, !Qred_correct. field.
Qed.

Lemma ewm_go_const_prefix (alpha q : Q) (xs : list fnum) (i : nat) :
  Qred q = q ->
  (forall j, (j <= i)%nat -> (j < length xs)%nat -> nth_error xs j = Some (Fin q)) ->
  forall j, (j <= i)%nat -> (j < length xs)%nat ->
       nth_error (ewm_go alpha (Fin q) 1 xs) j = Some (Fin q).
Proof.
  intros Hq. revert i.
  induction xs as [ | x xs IH ]; intros i H j Hj Hlen; [ cbn in Hlen; lia | ].
  assert (Hx : x = Fin q).
  { specialize (H 0%nat). cbn in H. assert (Some x = Some (Fin q)) by (apply H; lia).
    congruence. }
  subst x. cbn [ewm_go is_nan]. rewrite ewm_step_const by exact Hq.
  destruct j as [ | j ]; [ reflexivity | ].
  cbn [nth_error]. destruct i as [ | i ]; [ lia | ].
  apply (IH i); cbn [length] in *; try lia.
  intros j' Hj' Hl'. apply (H (S j')); cbn [length]; lia.
Qed.

(** Smoothing a series that starts with [i + 1] copies of a constant starts
    with [i + 1] copies of that constant. *)
Lemma ewm_mean_const_prefix (alpha q : Q) (s : Series) (i : nat) :
  Qred q = q ->
  (forall j, (j <= i)%nat -> (j < length s)%nat -> nth_error s j = Some (Fin q)) ->
  forall j, (j <= i)%nat -> (j < length s)%nat ->
       nth_error (ewm_mean alpha s) j = Some (Fin q).
Proof.
  intros Hq H0 j Hj Hlen. unfold ewm_mean.
  assert (H : forall j, (j <= i)%nat -> (j < length (prep_values s))%nat ->
                   nth_error (prep_values s) j = Some (Fin q)).
  { intros j' Hj' Hl'. rewrite length_prep_values in Hl'.
    apply nth_error_prep_values. now apply H0. }
  rewrite <- (length_prep_values s) in Hlen. clear H0.
  destruct (prep_values s) as [ | x s' ]; [ cbn in Hlen; lia | ].
  rename s' into s0.
  assert (Hx : x = Fin q).
  { specialize (H 0%nat). cbn in H. assert (Some x = Some (Fin q)) by (apply H; lia).
    congruence. }
  subst x.
  destruct j as [ | j ]; [ reflexivity | ].
  cbn [nth_error]. destruct i as [ | i ]; [ lia | ].
  apply (ewm_go_const_prefix alpha q s0 i Hq); cbn [length] in *; try lia.
  intros j' Hj' Hl'. apply (H (S j')); cbn [length]; lia.
Qed.

(* ------------------------------------------------------------------ *)
(** ** Positions before the window has filled *)

Lemma ewm_span_ok (span : Z) (s : Series) :
  1 <= span -> ewm_span span s = Ok (ewm_mean (alpha_of_span span) s).
Proof.
  intros H. unfold ewm_span. destruct (Z.ltb_spec span 1); [ lia | reflexivity ].
Qed.

Lemma ewm_com_ok (com : Z) (s : Series) :
  0 <= com -> ewm_com com s = Ok (ewm_mean (alpha_of_com com) s).
Proof.
  intros H. unfold ewm_com. destruct (Z.ltb_spec com 0); [ lia | reflexivity ].
Qed.

Lemma ewm_span_raises (span : Z) (s : Series) :
  span < 1 -> ewm_span span s = Raise ValueError.
Proof.
  intros H. unfold ewm_span. destruct (Z.ltb_spec span 1); [ reflexivity | lia ].
Qed.

Lemma ewm_com_raises (com : Z) (s : Series) :
  com < 0 -> ewm_com com s = Raise ValueError.
Proof.
  intros H. unfold ewm_com. destruct (Z.ltb_spec com 0); [ reflexivity | lia ].
Qed.

(** [calc_kdj] with smoothing lengths of at least one. *)
Lemma calc_kdj_unfold (high low close : Series) (n : nat) (m1 m2 : Z) :
  1 <= m1 -> 1 <= m2 ->
  calc_kdj high low close n m1 m2 =
  (let k := ewm_mean (alpha_of_com (m1 - 1)) (kdj_rsv high low close n) in
   let d := ewm_mean (alpha_of_com (m2 - 1)) k in
   sig <- get_kdj_signal k d ;;
   Ok (mkKDJ k d (s_sub (s_lscale (of_Z 3) k) (s_lscale (of_Z 2) d)) sig)).
Proof.
  intros H1 H2. unfold calc_kdj.
  rewrite (ewm_com_ok (m1 - 1)) by lia. cbn [bind].
  rewrite (ewm_com_ok (m2 - 1)) by lia. reflexivity.
Qed.

Lemma calc_kdj_params (high low close : Series) (n : nat) (m1 m2 : Z) (d : KDJData) :
  calc_kdj high low close n m1 m2 = Ok d -> 1 <= m1 /\ 1 <= m2.
Proof.
  unfold calc_kdj. intros H.
  destruct (Z.lt_ge_cases m1 1) as [Hm1 | Hm1].
  { rewrite (ewm_com_raises (m1 - 1)) in H by lia. discriminate. }
  rewrite (ewm_com_ok (m1 - 1)) in H by lia. cbn [bind] in H.
  destruct (Z.lt_ge_cases m2 1) as [Hm2 | Hm2].
  { rewrite (ewm_com_raises (m2 - 1)) in H by lia. discriminate. }
  lia.
Qed.

Lemma calc_kdj_fields (high low close : Series) (n : nat) (m1 m2 : Z) (d : KDJData) :
  calc_kdj high low close n m1 m2 = Ok d ->
  kdj_K d = ewm_mean (alpha_of_com (m1 - 1)) (kdj_rsv high low close n) /\
  kdj_D d = ewm_mean (alpha_of_com (m2 - 1)) (kdj_K d) /\
  kdj_J d = s_sub (s_lscale (of_Z 3) (kdj_K d)) (s_lscale (of_Z 2) (kdj_D d)).
Proof.
  intros H. destruct (calc_kdj_params _ _ _ _ _ _ _ H) as [H1 H2].
  rewrite calc_kdj_unfold in H by assumption. cbv zeta in H.
  destruct (get_kdj_signal _ _); cbn [bind] in H; [ | discriminate ].
  injection H as <-. cbn. repeat split.
Qed.

Lemma calc_boll_fields (qsqrt : Q -> Q) (close : Series) (period : nat) (k : Z) (d : BOLLData) :
  calc_boll qsqrt close period k = Ok d ->
  boll_MID d = rolling agg_mean period close /\
  boll_UPPER d = s_add (boll_MID d)
                   (s_lscale (of_Z k) (rolling (agg_std qsqrt) period close)) /\
  boll_LOWER d = s_sub (boll_MID d)
                   (s_lscale (of_Z k) (rolling (agg_std qsqrt) period close)).
Proof.
  unfold calc_boll. destruct (get_boll_signal _ _ _ _); cbn [bind]; [ | discriminate ].
  intros H. injection H as <-. cbn. repeat split.
Qed.

Lemma length_kdj_rsv (high low close : Series) (n : nat) :
  length high = length close -> length low = length close ->
  length (kdj_rsv high low close n) = length close.
Proof.
  intros Hh Hl. unfold kdj_rsv, fillna, kdj_rsv_raw, s_scale, s_div, s_sub.
  rewrite !length_map, !length_zip_with, !length_rolling. lia.
Qed.

Lemma nth_error_some_lt {A : Type} (l : list A) (i : nat) :
  (i < length l)%nat -> exists x, nth_error l i = Some x.
Proof.
  intros H. destruct (nth_error l i) eqn:E; [ eauto | ].
  apply nth_error_None in E. lia.
Qed.

(** While the stochastic window has not filled, [fillna] puts 50. *)
Lemma kdj_rsv_unfilled (high low close : Series) (n i : nat) :
  length high = length close -> length low = length close ->
  (i + 1 < n)%nat -> (i < length close)%nat ->
  nth_error (kdj_rsv high low close n) i = Some (of_Z 50).
Proof.
  intros Hh Hl Hn Hi.
  destruct (nth_error_some_lt close i Hi) as [c Hc].
  unfold kdj_rsv, fillna, kdj_rsv_raw, s_scale, s_div.
  rewrite !nth_error_map.
  rewrite (nth_error_zip_with fdiv _ _ i (fsub c NaN) (fsub NaN NaN)).
  - rewrite fsub_nan_r. reflexivity.
  - apply nth_error_zip_with; [ exact Hc | ].
    apply rolling_unfilled; lia.
  - apply nth_error_zip_with; apply rolling_unfilled; lia.
Qed.

Lemma calc_ma_unfilled (close : Series) (periods : list nat) (k p i : nat)
    (col : string * Series) :
  (i < length close)%nat ->
  nth_error periods k = Some p -> (i + 1 < p)%nat ->
  nth_error (calc_ma close periods) k = Some col ->
  nth_error (snd col) i = Some NaN.
Proof.
  intros Hi Hp Hw Hcol. unfold calc_ma in Hcol.
  rewrite nth_error_map, Hp in Hcol. injection Hcol as <-. cbn [snd].
  apply rolling_unfilled; lia.
Qed.

Lemma calc_vol_ma_unfilled (volume : Series) (periods : list nat) (k p i : nat)
    (col : string * Series) :
  (i < length volume)%nat ->
  nth_error periods k = Some p -> (i + 1 < p)%nat ->
  nth_error (calc_vol_ma volume periods) k = Some col ->
  nth_error (snd col) i = Some NaN.
Proof.
  intros Hi Hp Hw Hcol. unfold calc_vol_ma in Hcol.
  rewrite nth_error_map, Hp in Hcol. injection Hcol as <-. cbn [snd].
  apply rolling_unfilled; lia.
Qed.

Lemma rsi_series_unfilled (close : Series) (period i : nat) :
  (i < length close)%nat -> (i + 1 < period)%nat ->
  nth_error (rsi_series close period) i = Some NaN.
Proof.
  intros Hi Hw. unfold rsi_series, s_div.
  rewrite nth_error_map.
  rewrite (nth_error_zip_with fdiv _ _ i NaN NaN); [ reflexivity | | ].
  - unfold rsi_gain. apply rolling_unfilled; [ lia | ].
    unfold rsi_gains, where_. now rewrite length_map, length_diff.
  - unfold rsi_loss. apply rolling_unfilled; [ lia | ].
    unfold rsi_losses, where_. now rewrite !length_map, length_diff.
Qed.

Lemma calc_boll_unfilled (qsqrt : Q -> Q) (close : Series) (period : nat) (k : Z)
    (d : BOLLData) (i : nat) :
  (i < length close)%nat -> (i + 1 < period)%nat ->
  calc_boll qsqrt close period k = Ok d ->
  nth_error (boll_UPPER d) i = Some NaN /\
  nth_error (boll_MID d) i = Some NaN /\
  nth_error (boll_LOWER d) i = Some NaN.
Proof.
  intros Hi Hw Hd.
  destruct (calc_boll_fields _ _ _ _ _ Hd) as (Hmid & Hup & Hlo).
  assert (Hm : nth_error (boll_MID d) i = Some NaN).
  { rewrite Hmid. apply rolling_unfilled; lia. }
  assert (Hs : nth_error (s_lscale (of_Z k) (rolling (agg_std qsqrt) period close)) i
               = Some (fmul (of_Z k) NaN)).
  { unfold s_lscale. rewrite nth_error_map, rolling_unfilled by lia. reflexivity. }
  repeat split.
  - rewrite Hup. unfold s_add.
    rewrite (nth_error_zip_with fadd _ _ i _ _ Hm Hs). reflexivity.
  - exact Hm.
  - rewrite Hlo. unfold s_sub.
    rewrite (nth_error_zip_with fsub _ _ i _ _ Hm Hs). reflexivity.
Qed.

Lemma calc_atr_unfilled (high low close : Series) (period i : nat) :
  length high = length close -> length low = length close ->
  (i < length close)%nat -> (i + 1 < period)%nat ->
  nth_error (calc_atr high low close period) i = Some NaN.
Proof.
  intros Hh Hl Hi Hw. unfold calc_atr. apply rolling_unfilled; [ lia | ].
  unfold row_max3. rewrite length_map, !length_combine, !length_map.
  unfold s_sub. rewrite !length_zip_with, length_shift1. lia.
Qed.

(** [calc_kdj] before its window has filled: the stochastic value, K, D and
    J are all the number 50. *)
Lemma calc_kdj_unfilled (high low close : Series) (n : nat) (m1 m2 : Z)
    (d : KDJData) (i : nat) :
  length high = length close -> length low = length close ->
  (i < length close)%nat -> (i + 1 < n)%nat ->
  calc_kdj high low close n m1 m2 = Ok d ->
  nth_error (kdj_rsv high low close n) i = Some (of_Z 50) /\
  nth_error (kdj_K d) i = Some (of_Z 50) /\
  nth_error (kdj_D d) i = Some (of_Z 50) /\
  nth_error (kdj_J d) i = Some (of_Z 50).
Proof.
  intros Hh Hl Hi Hw Hd.
  destruct (calc_kdj_fields _ _ _ _ _ _ _ Hd) as (HK & HD & HJ).
  assert (Hrsv : forall j, (j <= i)%nat ->
                   (j < length (kdj_rsv high low close n))%nat ->
                   nth_error (kdj_rsv high low close n) j = Some (Fin 50)).
  { intros j Hj Hlen. rewrite length_kdj_rsv in Hlen by assumption.
    apply (kdj_rsv_unfilled high low close n j Hh Hl); lia. }
  assert (HKj : forall j, (j <= i)%nat -> (j < length (kdj_K d))%nat ->
                     nth_error (kdj_K d) j = Some (Fin 50)).
  { intros j Hj Hlen. rewrite HK in *. rewrite length_ewm_mean in Hlen.
    apply (ewm_mean_const_prefix _ 50 _ i eq_refl Hrsv j Hj Hlen). }
  assert (HlenK : length (kdj_K d) = length close).
  { rewrite HK, length_ewm_mean. now apply length_kdj_rsv. }
  assert (HDi : nth_error (kdj_D d) i = Some (Fin 50)).
  { rewrite HD.
    apply (ewm_mean_const_prefix _ 50 _ i eq_refl HKj i); lia. }
  assert (HKi : nth_error (kdj_K d) i = Some (Fin 50)) by (apply HKj; lia).
  repeat split.
  - apply (kdj_rsv_unfilled high low close n i Hh Hl); lia.
  - exact HKi.
  - exact HDi.
  - rewrite HJ. unfold s_sub, s_lscale.
    rewrite (nth_error_zip_with fsub _ _ i (fmul (of_Z 3) (Fin 50))
               (fmul (of_Z 2) (Fin 50))).
    + reflexivity.
    + now rewrite nth_error_map, HKi.
    + now rewrite nth_error_map, HDi.
Qed.

(** C7: at a position [i] that precedes the first full window, the simple
    moving averages, the volume averages, RSI, the three Bollinger bands and
    ATR are NaN; the stochastic value is 50 there and K, D and J are the
    number 50, not NaN. *)
Theorem window_leading_positions
    (qsqrt : Q -> Q) (high low close volume : Series) (i : nat) :
  length high = length close -> length low = length close ->
  length volume = length close -> (i < length close)%nat ->
  (forall periods k p col,
      nth_error periods k = Some p -> (i + 1 < p)%nat ->
      nth_error (calc_ma close periods) k = Some col ->
      nth_error (snd col) i = Some NaN) /\
  (forall periods k p col,
      nth_error periods k = Some p -> (i + 1 < p)%nat ->
      nth_error (calc_vol_ma volume periods) k = Some col ->
      nth_error (snd col) i = Some NaN) /\
  (forall period, (i + 1 < period)%nat ->
      nth_error (rsi_series close period) i = Some NaN) /\
  (forall period k d, (i + 1 < period)%nat ->
      calc_boll qsqrt close period k = Ok d ->
      nth_error (boll_UPPER d) i = Some NaN /\
      nth_error (boll_MID d) i = Some NaN /\
      nth_error (boll_LOWER d) i = Some NaN) /\
  (forall period, (i + 1 < period)%nat ->
      nth_error (calc_atr high low close period) i = Some NaN) /\
  (forall n m1 m2 d, (i + 1 < n)%nat ->
      calc_kdj high low close n m1 m2 = Ok d ->
      nth_error (kdj_rsv high low close n) i = Some (of_Z 50) /\
      nth_error (kdj_K d) i = Some (of_Z 50) /\
      nth_error (kdj_D d) i = Some (of_Z 50) /\
      nth_error (kdj_J d) i = Some (of_Z 50)).
Proof.
  intros Hh Hl Hv Hi.
  split; [ | split; [ | split; [ | split; [ | split ] ] ] ].
  - intros periods k p col Hp Hw Hcol.
    now apply (calc_ma_unfilled close periods k p i).
  - intros periods k p col Hp Hw Hcol.
    apply (calc_vol_ma_unfilled volume periods k p i); try assumption. lia.
  - intros period Hw. now apply rsi_series_unfilled.
  - intros period k d Hw Hd. now apply (calc_boll_unfilled qsqrt close period k).
  - intros period Hw. now apply calc_atr_unfilled.
  - intros n m1 m2 d Hw Hd. now apply (calc_kdj_unfilled high low close n m1 m2).
Qed.

(** The three-bar series 10, 11, 12 at its middle bar: RSI(14) is missing. *)
Lemma window_leading_positions_witness :
  nth_error (rsi_series [of_Z 10; of_Z 11; of_Z 12] 14) 1 = Some NaN.
Proof.
  pose (s := [of_Z 10; of_Z 11; of_Z 12]).
  assert (Hi : (1 < length s)%nat) by (cbn; lia).
  destruct (window_leading_positions qsqrt_floor s s s s 1 eq_refl eq_refl eq_refl Hi)
    as (_ & _ & Hrsi & _).
  apply Hrsi. lia.
Defined.

(** C7 as stated fails for KDJ: one bar with a non-zero range is fewer than
    the 9 observations of the stochastic window, yet K, D and J are 50. *)
Lemma kdj_leading_position_filled :
  calc_kdj [of_Z 10] [of_Z 9] [of_Z 10] 9 3 3
  = Ok (mkKDJ [of_Z 50] [of_Z 50] [of_Z 50] "数据不足").
Proof. reflexivity. Qed.

(* ------------------------------------------------------------------ *)
(** ** KDJ on a window without range *)






Lemma window_at_nonempty (w : nat) (s : Series) (i : nat) :
  (1 <= w <= i + 1)%nat -> (i < length s)%nat -> window_at w s i <> [].
Proof.
  intros Hw Hi Hnil. pose proof (length_window_at w s i) as Hlen.
  rewrite Hnil in Hlen. cbn in Hlen. lia.
Qed.


Lemma get_kdj_signal_ok (k d : Series) :
  length d = length k -> exists sig, get_kdj_signal k d = Ok sig.
Proof.
  intros Hlen. unfold get_kdj_signal.
  destruct (Nat.ltb_spec (length k) 2); [ eauto | ].
  destruct (iloc_neg_ok k 1) as [k1 Hk1]; [ lia | ].
  destruct (iloc_neg_ok k 2) as [k2 Hk2]; [ lia | ].
  destruct (iloc_neg_ok d 1) as [d1 Hd1]; [ lia | ].
  destruct (iloc_neg_ok d 2) as [d2 Hd2]; [ lia | ].
  unfold and_, cmp. rewrite Hk1, Hk2, Hd1, Hd2. cbn [bind].
  destruct (fgtb k1 d1); cbn [bind];
    [ destruct (fleb k2 d2); [ eauto | ] | ];
    (destruct (fltb k1 d1); cbn [bind];
       [ destruct (fgeb k2 d2); eauto | eauto ]).
Qed.

(** [calc_kdj] returns on every input with smoothing lengths of at least
    one: no zero range raises. *)
Lemma calc_kdj_total (high low close : Series) (n : nat) (m1 m2 : Z) :
  1 <= m1 -> 1 <= m2 ->
  exists d, calc_kdj high low close n m1 m2 = Ok d.
Proof.
  intros H1 H2. rewrite calc_kdj_unfold by assumption. cbv zeta.
  destruct (get_kdj_signal_ok
              (ewm_mean (alpha_of_com (m1 - 1)) (kdj_rsv high low close n))
              (ewm_mean (alpha_of_com (m2 - 1))
                 (ewm_mean (alpha_of_com (m1 - 1)) (kdj_rsv high low close n))))
    as [sig Hsig].
  { now rewrite length_ewm_mean. }
  rewrite Hsig. cbn [bind]. eauto.
Qed.





(* ------------------------------------------------------------------ *)
(** ** Sums and means of finite windows *)

Lemma Forall_not_nan (P : Q -> Prop) (l : list fnum) :
  Forall (fin_sat P) l -> Forall (fun x => is_missing x = false) l.
Proof. apply Forall_impl. intros x Hx. now destruct x. Qed.

Lemma fold_fadd_nonneg (l : list fnum) :
  Forall (fin_sat (fun q => 0 <= q)%Q) l ->
  forall a, exists s, fold_left fadd l (Fin a) = Fin s /\ (a <= s)%Q /\
                 (Exists (fin_sat (fun q => 0 < q)%Q) l -> (a < s)%Q).
Proof.
  induction 1 as [ | x l Hx _ IH ]; intros a; cbn [fold_left].
  - exists a. split; [ reflexivity | ]. split; [ lra | ].
    intros HE. inversion HE.
  - destruct x as [ | | | q ]; cbn in Hx; try contradiction.
    cbn [fadd]. destruct (IH (Qred (a + q))) as (s & Hs & Hle & Hlt).
    rewrite Qred_correct in Hle.
    exists s. split; [ exact Hs | ]. split; [ lra | ].
    intros HE. inversion HE as [ y l' Hy | y l' Hy ]; subst.
    + cbn in Hy. lra.
    + specialize (Hlt Hy). rewrite Qred_correct in Hlt. lra.
Qed.

Lemma fold_fadd_zero (l : list fnum) :
  Forall (fin_sat (fun q => q == 0)%Q) l ->
  forall a, exists s, fold_left fadd l (Fin a) = Fin s /\ (s == a)%Q.
Proof.
  induction 1 as [ | x l Hx _ IH ]; intros a; cbn [fold_left].
  - exists a. split; [ reflexivity | lra ].
  - destruct x as [ | | | q ]; cbn in Hx; try contradiction.
    cbn [fadd]. destruct (IH (Qred (a + q))) as (s & Hs & He).
    rewrite Qred_correct in He.
    exists s. split; [ exact Hs | lra ].
Qed.

Lemma Qzerob_of_nat (n : nat) : (1 <= n)%nat -> Qzerob (inject_Z (Z.of_nat n)) = false.
Proof. intros H. unfold Qzerob, inject_Z. cbn. apply Z.eqb_neq. lia. Qed.

Lemma inject_Z_of_nat_pos (n : nat) : (1 <= n)%nat -> (0 < inject_Z (Z.of_nat n))%Q.
Proof. intros H. unfold Qlt, inject_Z. cbn. lia. Qed.

Lemma Qdiv_pos (a b : Q) : (0 < a)%Q -> (0 < b)%Q -> (0 < a / b)%Q.
Proof.
  intros Ha Hb. unfold Qdiv. apply Qmult_lt_0_compat; [ exact Ha | ].
  now apply Qinv_lt_0_compat.
Qed.

Lemma Qdiv_nonneg (a b : Q) : (0 <= a)%Q -> (0 < b)%Q -> (0 <= a / b)%Q.
Proof.
  intros Ha Hb. unfold Qdiv. apply Qmult_le_0_compat; [ exact Ha | ].
  apply Qlt_le_weak. now apply Qinv_lt_0_compat.
Qed.

Lemma agg_mean_nonneg (w : list fnum) :
  w <> [] -> Forall (fin_sat (fun q => 0 <= q)%Q) w ->
  exists m, agg_mean w = Fin m /\ (0 <= m)%Q /\
            (Exists (fin_sat (fun q => 0 < q)%Q) w -> (0 < m)%Q).
Proof.
  intros Hne Hw. unfold agg_mean, fsum.
  destruct (fold_fadd_nonneg w Hw 0) as (s & Hs & Hle & Hlt). rewrite Hs.
  assert (Hn : (1 <= length w)%nat) by (destruct w; [ congruence | cbn; lia ]).
  unfold of_Z. cbn [fdiv]. rewrite (Qzerob_of_nat _ Hn).
  eexists. split; [ reflexivity | ].
  pose proof (inject_Z_of_nat_pos _ Hn) as Hpos.
  split.
  - rewrite Qred_correct. now apply Qdiv_nonneg.
  - intros HE. rewrite Qred_correct. apply Qdiv_pos; auto.
Qed.

Lemma agg_mean_zero (w : list fnum) :
  w <> [] -> Forall (fin_sat (fun q => q == 0)%Q) w ->
  exists m, agg_mean w = Fin m /\ (m == 0)%Q.
Proof.
  intros Hne Hw. unfold agg_mean, fsum.
  destruct (fold_fadd_zero w Hw 0) as (s & Hs & He). rewrite Hs.
  assert (Hn : (1 <= length w)%nat) by (destruct w; [ congruence | cbn; lia ]).
  unfold of_Z. cbn [fdiv]. rewrite (Qzerob_of_nat _ Hn).
  eexists. split; [ reflexivity | ].
  rewrite Qred_correct, He. unfold Qdiv. ring.
Qed.

(** The window's last element is the series position itself. *)
Lemma window_at_last (w : nat) (s : Series) (i : nat) (x : fnum) :
  (1 <= w <= i + 1)%nat -> nth_error s i = Some x -> In x (window_at w s i).
Proof.
  intros Hw Hx. apply (nth_error_In _ (w - 1)).
  rewrite nth_error_window_at.
  destruct (Nat.ltb_spec (w - 1) w); [ | lia ].
  replace (i + 1 - w + (w - 1))%nat with i by lia. exact Hx.
Qed.

(* ------------------------------------------------------------------ *)
(** ** RSI on monotone windows *)

Lemma nth_error_diff_0 (close : Series) (c : fnum) :
  nth_error close 0 = Some c -> nth_error (diff close) 0 = Some NaN.
Proof.
  intros Hc. unfold diff, s_sub.
  rewrite (nth_error_zip_with fsub _ _ 0 c NaN Hc).
  - now rewrite fsub_nan_r.
  - apply nth_error_shift1_0. intros ->. discriminate.
Qed.

Lemma nth_error_diff_S (close : Series) (j : nat) (a b : fnum) :
  nth_error close j = Some a -> nth_error close (S j) = Some b ->
  nth_error (diff close) (S j) = Some (fsub b a).
Proof.
  intros Ha Hb. unfold diff, s_sub.
  apply nth_error_zip_with; [ exact Hb | ].
  rewrite nth_error_shift1_S; [ exact Ha | ].
  apply nth_error_Some. congruence.
Qed.

Lemma length_rsi_gains (close : Series) : length (rsi_gains close) = length close.
Proof. unfold rsi_gains, where_. now rewrite length_map, length_diff. Qed.

Lemma length_rsi_losses (close : Series) : length (rsi_losses close) = length close.
Proof. unfold rsi_losses, where_. now rewrite !length_map, length_diff. Qed.

Lemma length_rsi_series (close : Series) (period : nat) :
  length (rsi_series close period) = length close.
Proof.
  unfold rsi_series, s_div, rsi_gain, rsi_loss.
  rewrite length_map, length_zip_with, !length_rolling.
  rewrite length_rsi_gains, length_rsi_losses. lia.
Qed.

(** The RSI value at a position, from the average gain and loss there. *)
Lemma nth_error_rsi_series (close : Series) (period i : nat) :
  (i < length close)%nat ->
  nth_error (rsi_series close period) i =
  Some (fsub (of_Z 100)
          (fdiv (of_Z 100)
             (fadd (of_Z 1)
                (fdiv (rolling_at agg_mean period (rsi_gains close) i)
                      (rolling_at agg_mean period (rsi_losses close) i))))).
Proof.
  intros Hi. unfold rsi_series, s_div. rewrite nth_error_map.
  rewrite (nth_error_zip_with fdiv _ _ i
             (rolling_at agg_mean period (rsi_gains close) i)
             (rolling_at agg_mean period (rsi_losses close) i)).
  - reflexivity.
  - unfold rsi_gain. apply nth_error_rolling. now rewrite length_rsi_gains.
  - unfold rsi_loss. apply nth_error_rolling. now rewrite length_rsi_losses.
Qed.

(** Gain and loss of one step between finite closes. *)
Lemma step_gain_loss (a b : Q) :
  let d := fsub (Fin b) (Fin a) in
  fin_sat (fun q => 0 <= q /\ (a < b -> 0 < q) /\ (b <= a -> q == 0))%Q
    (if fgtb d (of_Z 0) then d else of_Z 0) /\
  fin_sat (fun q => 0 <= q /\ (b < a -> 0 < q) /\ (a <= b -> q == 0))%Q
    (fopp (if fltb d (of_Z 0) then d else of_Z 0)).
Proof.
  cbn zeta. unfold fsub, fgtb, of_Z. cbn [fopp fadd fltb].
  set (q := Qred (b + Qred (- a))).
  assert (Hq : (q == b - a)%Q) by (subst q; rewrite !Qred_correct; ring).
  split.
  - destruct (Qltb (inject_Z 0) q) eqn:E; q_props; cbn [fin_sat].
    + repeat split; intros; lra.
    + repeat split; intros; lra.
  - destruct (Qltb q (inject_Z 0)) eqn:E; q_props; cbn [fopp fin_sat];
      rewrite ?Qred_correct; repeat split; intros; lra.
Qed.

Lemma finite_nth_error (s : Series) (j : nat) (x : fnum) :
  Forall (fun x => is_finite x = true) s -> nth_error s j = Some x ->
  exists q, x = Fin q.
Proof.
  intros Hfin Hx. rewrite Forall_forall in Hfin.
  specialize (Hfin x (nth_error_In _ _ Hx)).
  destruct x; try discriminate. eauto.
Qed.

(** Gains and losses are finite and non-negative at every position of a
    finite close series. *)
Lemma rsi_gains_losses_nth (close : Series) (j : nat) :
  Forall (fun x => is_finite x = true) close -> (j < length close)%nat ->
  exists g l,
    nth_error (rsi_gains close) j = Some (Fin g) /\
    nth_error (rsi_losses close) j = Some (Fin l) /\
    (0 <= g)%Q /\ (0 <= l)%Q /\
    (forall j' a b, j = S j' -> nth_error close j' = Some (Fin a) ->
                    nth_error close j = Some (Fin b) ->
                    ((a < b -> 0 < g) /\ (b <= a -> g == 0) /\
                     (b < a -> 0 < l) /\ (a <= b -> l == 0))%Q) /\
    (j = 0%nat -> g == 0 /\ l == 0)%Q.
Proof.
  intros Hfin Hj.
  unfold rsi_gains, rsi_losses, where_. rewrite !nth_error_map.
  destruct j as [ | j' ].
  - destruct (nth_error_some_lt close 0 Hj) as [c Hc].
    rewrite (nth_error_diff_0 close c Hc). cbn.
    exists 0%Q, 0%Q. repeat split; try reflexivity; try lra; discriminate.
  - destruct (nth_error_some_lt close (S j') Hj) as [b Hb].
    destruct (nth_error_some_lt close j') as [a Ha]; [ lia | ].
    assert (Hfa : is_finite a = true).
    { rewrite Forall_forall in Hfin. apply Hfin. eapply nth_error_In; eauto. }
    assert (Hfb : is_finite b = true).
    { rewrite Forall_forall in Hfin. apply Hfin. eapply nth_error_In; eauto. }
    destruct a as [ | | | qa ]; try discriminate.
    destruct b as [ | | | qb ]; try discriminate.
    rewrite (nth_error_diff_S close j' _ _ Ha Hb). cbn [option_map].
    destruct (step_gain_loss qa qb) as [Hg Hl]. cbn zeta in Hg, Hl.
    destruct (if fgtb (fsub (Fin qb) (Fin qa)) (of_Z 0)
              then fsub (Fin qb) (Fin qa) else of_Z 0) as [ | | | g ];
      cbn [fin_sat] in Hg; try contradiction.
    destruct (fopp (if fltb (fsub (Fin qb) (Fin qa)) (of_Z 0)
                    then fsub (Fin qb) (Fin qa) else of_Z 0)) as [ | | | l ];
      cbn [fin_sat] in Hl; try contradiction.
    exists g, l. split; [ reflexivity | ]. split; [ reflexivity | ].
    split; [ tauto | ]. split; [ tauto | ]. split; [ | discriminate ].
    intros j'' a b Hjj Ha' Hb'. injection Hjj as <-.
    rewrite Ha in Ha'. rewrite Hb in Hb'.
    injection Ha' as <-. injection Hb' as <-. tauto.
Qed.

Lemma window_at_In (w : nat) (s : Series) (i j : nat) (x : fnum) :
  (w <= i + 1)%nat -> (i + 1 - w <= j <= i)%nat ->
  nth_error s j = Some x -> In x (window_at w s i).
Proof.
  intros Hw Hj Hx. apply (nth_error_In _ (j - (i + 1 - w))).
  rewrite nth_error_window_at.
  destruct (Nat.ltb_spec (j - (i + 1 - w)) w); [ | lia ].
  replace (i + 1 - w + (j - (i + 1 - w)))%nat with j by lia. exact Hx.
Qed.

(** The rolling mean of a series that is finite and non-negative over the
    trailing window: finite, non-negative, positive as soon as one element
    is, zero when all are. *)
Lemma rolling_mean_nonneg (s : Series) (w i : nat) :
  (1 <= w <= i + 1)%nat -> (i < length s)%nat ->
  (forall j, (i + 1 - w <= j <= i)%nat ->
             exists q, nth_error s j = Some (Fin q) /\ (0 <= q)%Q) ->
  exists m, rolling_at agg_mean w s i = Fin m /\ (0 <= m)%Q /\
    ((exists j q, (i + 1 - w <= j <= i)%nat /\
                  nth_error s j = Some (Fin q) /\ (0 < q)%Q) -> (0 < m)%Q) /\
    ((forall j q, (i + 1 - w <= j <= i)%nat ->
                  nth_error s j = Some (Fin q) -> (q == 0)%Q) -> (m == 0)%Q).
Proof.
  intros Hw Hi Hpos.
  assert (Hall : Forall (fin_sat (fun q => 0 <= q)%Q) (window_at w s i)).
  { apply Forall_window_at; [ lia | ].
    intros j x Hj Hx. destruct (Hpos j Hj) as (q & Hq & H0).
    rewrite Hq in Hx. injection Hx as <-. exact H0. }
  assert (Hne : window_at w s i <> []) by (apply window_at_nonempty; lia).
  rewrite rolling_at_filled; [ | lia | now apply (Forall_not_nan _ _ Hall) ].
  destruct (agg_mean_nonneg _ Hne Hall) as (m & Hm & Hm0 & Hmpos).
  exists m. split; [ exact Hm | ]. split; [ exact Hm0 | ]. split.
  - intros (j & q & Hj & Hq & Hq0). apply Hmpos.
    apply Exists_exists. exists (Fin q). split; [ | exact Hq0 ].
    apply (window_at_In w s i j); [ lia | exact Hj | exact Hq ].
  - intros Hzero.
    assert (Hz : Forall (fin_sat (fun q => q == 0)%Q) (window_at w s i)).
    { apply Forall_window_at; [ lia | ].
      intros j x Hj Hx. destruct (Hpos j Hj) as (q & Hq & _).
      rewrite Hq in Hx. injection Hx as <-. cbn. apply (Hzero j q Hj Hq). }
    destruct (agg_mean_zero _ Hne Hz) as (m' & Hm' & Hm'0).
    rewrite Hm in Hm'. injection Hm' as <-. exact Hm'0.
Qed.

(** RSI from a positive average gain and a zero average loss, and from a
    zero average gain and a positive average loss. *)
Lemma rsi_value_saturated (g l : Q) :
  (0 < g)%Q -> (l == 0)%Q ->
  fsub (of_Z 100) (fdiv (of_Z 100) (fadd (of_Z 1) (fdiv (Fin g) (Fin l)))) = Fin 100.
Proof.
  intros Hg Hl. cbn [fdiv].
  assert (Qzerob l = true) as -> by now apply Qzerob_true.
  assert (Qzerob g = false) as -> by (apply Qzerob_false; lra).
  assert (Qnegb g = false) as -> by (apply Qnegb_false; lra).
  reflexivity.
Qed.

Lemma rsi_value_floor (g l : Q) :
  (g == 0)%Q -> (0 < l)%Q ->
  feq (fsub (of_Z 100) (fdiv (of_Z 100) (fadd (of_Z 1) (fdiv (Fin g) (Fin l)))))
      (of_Z 0).
Proof.
  intros Hg Hl. cbn [fdiv].
  assert (Qzerob l = false) as -> by (apply Qzerob_false; lra).
  unfold of_Z. cbn [fadd fdiv].
  assert (H1 : (Qred (inject_Z 1 + Qred (g / l)) == 1)%Q).
  { rewrite !Qred_correct, Hg. unfold inject_Z. field. lra. }
  assert (Qzerob (Qred (inject_Z 1 + Qred (g / l))) = false) as ->.
  { apply Qzerob_false. rewrite H1. discriminate. }
  unfold fsub. cbn [fopp fadd feq].
  rewrite H1, !Qred_correct. unfold inject_Z. field.
Qed.

(** C9: on a finite close series that rises at every step of the trailing
    RSI window of the final position, the final RSI equals 100; on one that
    falls at every such step it equals 0. *)
Theorem rsi_monotone_window (close : Series) (period : nat) :
  (2 <= period <= length close)%nat ->
  Forall (fun x => is_finite x = true) close ->
  ((forall j a b, (length close - period <= S j < length close)%nat ->
        nth_error close j = Some a -> nth_error close (S j) = Some b ->
        fltb a b = true) ->
   exists r, iloc_neg (rsi_series close period) 1 = Ok r /\ feq r (of_Z 100)) /\
  ((forall j a b, (length close - period <= S j < length close)%nat ->
        nth_error close j = Some a -> nth_error close (S j) = Some b ->
        fltb b a = true) ->
   exists r, iloc_neg (rsi_series close period) 1 = Ok r /\ feq r (of_Z 0)).
Proof.
  intros Hp Hfin.
  set (i := (length close - 1)%nat).
  assert (Hi : (i < length close)%nat) by (subst i; lia).
  assert (Hrange : forall j, (i + 1 - period <= j <= i)%nat ->
                     (length close - period <= j < length close)%nat)
    by (subst i; lia).
  (* gains and losses over the window *)
  assert (HG : forall j, (i + 1 - period <= j <= i)%nat ->
             exists q, nth_error (rsi_gains close) j = Some (Fin q) /\ (0 <= q)%Q).
  { intros j Hj. destruct (rsi_gains_losses_nth close j Hfin) as (g & l & Hg & _ & H0 & _);
      [ lia | eauto ]. }
  assert (HL : forall j, (i + 1 - period <= j <= i)%nat ->
             exists q, nth_error (rsi_losses close) j = Some (Fin q) /\ (0 <= q)%Q).
  { intros j Hj. destruct (rsi_gains_losses_nth close j Hfin) as (g & l & _ & Hl & _ & H0 & _);
      [ lia | eauto ]. }
  destruct (rolling_mean_nonneg (rsi_gains close) period i) as (G & HGm & HG0 & HGpos & HGz);
    [ lia | now rewrite length_rsi_gains | exact HG | ].
  destruct (rolling_mean_nonneg (rsi_losses close) period i) as (L & HLm & HL0 & HLpos & HLz);
    [ lia | now rewrite length_rsi_losses | exact HL | ].
  assert (Hiloc : forall r, nth_error (rsi_series close period) i = Some r ->
                       iloc_neg (rsi_series close period) 1 = Ok r).
  { intros r Hr. apply iloc_neg_nth_error.
    - rewrite length_rsi_series. lia.
    - rewrite length_rsi_series. exact Hr. }
  (* the last step lies in the window *)
  destruct i as [ | i' ] eqn:Ei; [ lia | ].
  destruct (nth_error_some_lt close i') as [a Ha]; [ lia | ].
  destruct (nth_error_some_lt close (S i') Hi) as [b Hb].
  destruct (finite_nth_error close i' a Hfin Ha) as [qa ->].
  destruct (finite_nth_error close (S i') b Hfin Hb) as [qb ->].
  split; intros Hmono.
  - eexists. split.
    + apply Hiloc. rewrite nth_error_rsi_series by exact Hi. rewrite HGm, HLm. reflexivity.
    + rewrite rsi_value_saturated; [ cbn; reflexivity | | ].
      * apply HGpos.
        destruct (rsi_gains_losses_nth close (S i') Hfin Hi)
          as (g & l & Hg & _ & _ & _ & Hstep & _).
        exists (S i'), g. split; [ lia | ]. split; [ exact Hg | ].
        apply (Hstep i' qa qb eq_refl Ha Hb).
        assert (Hlt : fltb (Fin qa) (Fin qb) = true)
          by (apply (Hmono i'); [ apply Hrange; lia | exact Ha | exact Hb ]).
        cbn in Hlt. now apply Qltb_true.
      * apply HLz. intros j q Hj Hq.
        destruct (rsi_gains_losses_nth close j Hfin) as (g & l & _ & Hl & _ & _ & Hstep & Hzero);
          [ lia | ].
        rewrite Hl in Hq. injection Hq as <-.
        destruct j as [ | j' ]; [ now apply Hzero | ].
        destruct (nth_error_some_lt close j') as [a' Ha']; [ lia | ].
        destruct (nth_error_some_lt close (S j')) as [b' Hb']; [ lia | ].
        assert (Hlt : fltb a' b' = true)
          by (apply (Hmono j'); [ apply Hrange; lia | exact Ha' | exact Hb' ]).
        destruct (finite_nth_error close j' a' Hfin Ha') as [qa' ->].
        destruct (finite_nth_error close (S j') b' Hfin Hb') as [qb' ->].
        cbn in Hlt. apply Qltb_true in Hlt.
        apply (Hstep j' qa' qb' eq_refl Ha' Hb'). lra.
  - eexists. split.
    + apply Hiloc. rewrite nth_error_rsi_series by exact Hi. rewrite HGm, HLm. reflexivity.
    + apply rsi_value_floor.
      * apply HGz. intros j q Hj Hq.
        destruct (rsi_gains_losses_nth close j Hfin) as (g & l & Hg & _ & _ & _ & Hstep & Hzero);
          [ lia | ].
        rewrite Hg in Hq. injection Hq as <-.
        destruct j as [ | j' ]; [ now apply Hzero | ].
        destruct (nth_error_some_lt close j') as [a' Ha']; [ lia | ].
        destruct (nth_error_some_lt close (S j')) as [b' Hb']; [ lia | ].
        assert (Hlt : fltb b' a' = true)
          by (apply (Hmono j'); [ apply Hrange; lia | exact Ha' | exact Hb' ]).
        destruct (finite_nth_error close j' a' Hfin Ha') as [qa' ->].
        destruct (finite_nth_error close (S j') b' Hfin Hb') as [qb' ->].
        cbn in Hlt. apply Qltb_true in Hlt.
        apply (Hstep j' qa' qb' eq_refl Ha' Hb'). lra.
      * apply HLpos.
        destruct (rsi_gains_losses_nth close (S i') Hfin Hi)
          as (g & l & _ & Hl & _ & _ & Hstep & _).
        exists (S i'), l. split; [ lia | ]. split; [ exact Hl | ].
        apply (Hstep i' qa qb eq_refl Ha Hb).
        assert (Hlt : fltb (Fin qb) (Fin qa) = true)
          by (apply (Hmono i'); [ apply Hrange; lia | exact Ha | exact Hb ]).
        cbn in Hlt. now apply Qltb_true.
Qed.

(** Fifteen closes 1, 2, ..., 15 and the default period 14. *)
Lemma rsi_monotone_window_witness :
  exists r,
    iloc_neg (rsi_series (map of_Z [1; 2; 3; 4; 5; 6; 7; 8; 9; 10; 11; 12; 13; 14; 15]) 14) 1
      = Ok r /\ feq r (of_Z 100).
Proof.
  pose (s := map of_Z [1; 2; 3; 4; 5; 6; 7; 8; 9; 10; 11; 12; 13; 14; 15]).
  assert (Hp : (2 <= 14 <= length s)%nat) by (cbn; lia).
  assert (Hfin : Forall (fun x => is_finite x = true) s)
    by (repeat constructor).
  apply (proj1 (rsi_monotone_window s 14 Hp Hfin)).
  intros j a b Hj Ha Hb.
  do 14 (destruct j as [ | j ];
         [ cbn in Ha, Hb; injection Ha as <-; injection Hb as <-; reflexivity | ]).
  cbn in Hj. lia.
Defined.

Example rsi_falling_closes :
  iloc_neg (rsi_series (map of_Z [15; 14; 13; 12; 11; 10; 9; 8; 7; 6; 5; 4; 3; 2; 1]) 14) 1
  = Ok (of_Z 0).
Proof. reflexivity. Qed.

Example rsi_rising_closes_short :
  iloc_neg (rsi_series (map of_Z [1; 2; 3; 4; 5; 6; 7; 8; 9; 10; 11; 12; 13; 14]) 14) 1
  = Ok (of_Z 100).
Proof. reflexivity. Qed.

(* ------------------------------------------------------------------ *)
(** ** The entry point returns on two or more bars *)

Lemma get_macd_signal_ok (dif dea : Series) :
  length dea = length dif ->
  exists sig, get_macd_signal dif dea = Ok sig /\
              ((2 <= length dif)%nat -> In sig macd_labels).
Proof.
  intros Hlen. unfold get_macd_signal.
  destruct (Nat.ltb_spec (length dif) 2).
  { eexists. split; [ reflexivity | lia ]. }
  destruct (iloc_neg_ok dif 1) as [a1 Ha1]; [ lia | ].
  destruct (iloc_neg_ok dif 2) as [a2 Ha2]; [ lia | ].
  destruct (iloc_neg_ok dea 1) as [b1 Hb1]; [ lia | ].
  destruct (iloc_neg_ok dea 2) as [b2 Hb2]; [ lia | ].
  unfold and_, cmp. rewrite Ha1, Ha2, Hb1, Hb2. cbn [bind].
  destruct (fgtb a1 b1); cbn [bind];
    [ destruct (fleb a2 b2) | ];
    try (destruct (fltb a1 b1); cbn [bind]; [ destruct (fgeb a2 b2) | ]);
    try destruct (fgtb a1 (of_Z 0)); try destruct (fltb a1 (of_Z 0));
    eexists; (split; [ reflexivity | intros _; cbn; tauto ]).
Qed.

Lemma calc_macd_unfold (close : Series) (fast slow signal : Z) :
  1 <= fast -> 1 <= slow -> 1 <= signal ->
  calc_macd close fast slow signal =
  (let dif := s_sub (ewm_mean (alpha_of_span fast) close)
                    (ewm_mean (alpha_of_span slow) close) in
   let dea := ewm_mean (alpha_of_span signal) dif in
   sig <- get_macd_signal dif dea ;;
   Ok (mkMACD dif dea (s_scale (of_Z 2) (s_sub dif dea)) sig)).
Proof.
  intros H1 H2 H3. unfold calc_macd.
  rewrite (ewm_span_ok fast) by lia. cbn [bind].
  rewrite (ewm_span_ok slow) by lia. cbn [bind].
  rewrite (ewm_span_ok signal) by lia. reflexivity.
Qed.

Lemma calc_macd_ok (close : Series) (fast slow signal : Z) :
  1 <= fast -> 1 <= slow -> 1 <= signal ->
  exists d, calc_macd close fast slow signal = Ok d /\
    length (macd_DIF d) = length close /\ length (macd_DEA d) = length close /\
    ((2 <= length close)%nat -> In (macd_signal d) macd_labels).
Proof.
  intros Hp1 Hp2 Hp3. rewrite calc_macd_unfold by assumption. cbv zeta.
  set (dif := s_sub (ewm_mean (alpha_of_span fast) close)
                    (ewm_mean (alpha_of_span slow) close)).
  set (dea := ewm_mean (alpha_of_span signal) dif).
  assert (Hdif : length dif = length close).
  { subst dif. unfold s_sub. rewrite length_zip_with, !length_ewm_mean. lia. }
  assert (Hdea : length dea = length close).
  { subst dea. now rewrite length_ewm_mean. }
  destruct (get_macd_signal_ok dif dea) as (sig & Hsig & Hlab); [ congruence | ].
  rewrite Hsig. cbn [bind]. eexists. split; [ reflexivity | ].
  cbn. repeat split; try assumption. intros H. apply Hlab. lia.
Qed.

Lemma calc_kdj_ok (high low close : Series) (n : nat) (m1 m2 : Z) :
  1 <= m1 -> 1 <= m2 ->
  length high = length close -> length low = length close ->
  exists d, calc_kdj high low close n m1 m2 = Ok d /\
    length (kdj_K d) = length close /\ length (kdj_D d) = length close /\
    length (kdj_J d) = length close.
Proof.
  intros Hm1 Hm2 Hh Hl.
  destruct (calc_kdj_total high low close n m1 m2 Hm1 Hm2) as [d Hd].
  exists d. split; [ exact Hd | ].
  destruct (calc_kdj_fields _ _ _ _ _ _ _ Hd) as (HK & HD & HJ).
  assert (HlK : length (kdj_K d) = length close).
  { rewrite HK, length_ewm_mean. now apply length_kdj_rsv. }
  assert (HlD : length (kdj_D d) = length close).
  { now rewrite HD, length_ewm_mean. }
  repeat split; try assumption.
  rewrite HJ. unfold s_sub, s_lscale. rewrite length_zip_with, !length_map. lia.
Qed.

Lemma calc_rsi_ok (close : Series) (period : nat) :
  exists sig, calc_rsi close period = Ok (mkRSI (rsi_series close period) sig).
Proof.
  unfold calc_rsi, get_rsi_signal.
  destruct (Nat.ltb_spec (length (rsi_series close period)) 1).
  { cbn [bind]. eauto. }
  destruct (iloc_neg_ok (rsi_series close period) 1) as [r Hr]; [ lia | ].
  rewrite Hr. cbn [bind]. eauto.
Qed.

Lemma calc_boll_ok (qsqrt : Q -> Q) (close : Series) (period : nat) (k : Z) :
  exists d, calc_boll qsqrt close period k = Ok d /\
    length (boll_UPPER d) = length close /\ length (boll_MID d) = length close /\
    length (boll_LOWER d) = length close.
Proof.
  unfold calc_boll, get_boll_signal.
  set (mid := rolling agg_mean period close).
  set (std := s_lscale (of_Z k) (rolling (agg_std qsqrt) period close)).
  assert (Hmid : length mid = length close) by (subst mid; apply length_rolling).
  assert (Hstd : length std = length close).
  { subst std. unfold s_lscale. now rewrite length_map, length_rolling. }
  assert (Hup : length (s_add mid std) = length close).
  { unfold s_add. rewrite length_zip_with. lia. }
  assert (Hlo : length (s_sub mid std) = length close).
  { unfold s_sub. rewrite length_zip_with. lia. }
  destruct (Nat.ltb_spec (length close) 1).
  { cbn [bind]. eexists. split; [ reflexivity | ]. cbn. tauto. }
  destruct (iloc_neg_ok close 1) as [p Hp]; [ lia | ].
  destruct (iloc_neg_ok (s_add mid std) 1) as [u Hu]; [ lia | ].
  destruct (iloc_neg_ok mid 1) as [m Hm]; [ lia | ].
  destruct (iloc_neg_ok (s_sub mid std) 1) as [l Hl]; [ lia | ].
  rewrite Hp, Hu, Hm, Hl. cbn [bind].
  eexists. split; [ reflexivity | ]. cbn. tauto.
Qed.

Lemma detect_trend_ok (close : Series) (ma_short ma_long : nat) :
  exists t, detect_trend close ma_short ma_long = Ok t.
Proof.
  unfold detect_trend. rewrite !length_rolling.
  destruct (Nat.ltb_spec (length close) 1); cbn [orb]; [ eauto | ].
  destruct (iloc_neg_ok (rolling agg_mean ma_short close) 1) as [s1 Hs1];
    [ rewrite length_rolling; lia | ].
  destruct (iloc_neg_ok (rolling agg_mean ma_long close) 1) as [l1 Hl1];
    [ rewrite length_rolling; lia | ].
  destruct (iloc_neg_ok close 1) as [c1 Hc1]; [ lia | ].
  unfold and_, cmp. rewrite Hs1, Hl1, Hc1. cbn [bind].
  destruct (fgtb s1 l1); cbn [bind];
    [ destruct (fgtb c1 s1); [ eauto | ] | ];
    (destruct (fltb s1 l1); cbn [bind]; eauto).
Qed.

Lemma find_support_resistance_ok (high low close : Series) (period : nat) :
  length high = length close -> length low = length close ->
  (1 <= length close)%nat ->
  exists sr, find_support_resistance high low close period = Ok sr.
Proof.
  intros Hh Hl Hc. unfold find_support_resistance.
  destruct (iloc_neg_ok (rolling agg_min period low) 1) as [a Ha];
    [ rewrite length_rolling; lia | ].
  destruct (iloc_neg_ok (rolling agg_max period high) 1) as [b Hb];
    [ rewrite length_rolling; lia | ].
  destruct (iloc_neg_ok high 1) as [h1 Hh1]; [ lia | ].
  destruct (iloc_neg_ok low 1) as [l1 Hl1]; [ lia | ].
  destruct (iloc_neg_ok close 1) as [c1 Hc1]; [ lia | ].
  rewrite Ha, Hb, Hh1, Hl1, Hc1. cbn [bind]. eauto.
Qed.

Lemma frame_columns (bars : list Bar) :
  column_either (frame_of_bars bars) "收盘" "close" = Ok (closes bars) /\
  column_either (frame_of_bars bars) "最高" "high" = Ok (highs bars) /\
  column_either (frame_of_bars bars) "最低" "low" = Ok (lows bars) /\
  column_either (frame_of_bars bars) "成交量" "volume" = Ok (volumes bars).
Proof. repeat split. Qed.

Lemma length_calc_atr (high low close : Series) (period : nat) :
  length high = length close -> length low = length close ->
  length (calc_atr high low close period) = length close.
Proof.
  intros Hh Hl. unfold calc_atr, row_max3.
  rewrite length_rolling, length_map, !length_combine, !length_map.
  unfold s_sub. rewrite !length_zip_with, length_shift1. lia.
Qed.

(** What a returned bundle is made of. *)
Lemma analyze_stock_inv (qsqrt : Q -> Q) (bars : list Bar) (b : AnalysisBundle) :
  analyze_stock qsqrt (frame_of_bars bars) = Ok b ->
  exists macd kdj rsi boll tr sr c1 c2 dif1 dea1 k1 d1 j1 rsi1 up1 mid1 low1 atr1,
    calc_macd (closes bars) 12 26 9 = Ok macd /\
    calc_kdj (highs bars) (lows bars) (closes bars) 9 3 3 = Ok kdj /\
    calc_rsi (closes bars) 14 = Ok rsi /\
    calc_boll qsqrt (closes bars) 20 2 = Ok boll /\
    detect_trend (closes bars) 20 60 = Ok tr /\
    find_support_resistance (highs bars) (lows bars) (closes bars) 20 = Ok sr /\
    iloc_neg (closes bars) 1 = Ok c1 /\ iloc_neg (closes bars) 2 = Ok c2 /\
    iloc_neg (macd_DIF macd) 1 = Ok dif1 /\ iloc_neg (macd_DEA macd) 1 = Ok dea1 /\
    iloc_neg (kdj_K kdj) 1 = Ok k1 /\ iloc_neg (kdj_D kdj) 1 = Ok d1 /\
    iloc_neg (kdj_J kdj) 1 = Ok j1 /\
    iloc_neg (rsi_RSI rsi) 1 = Ok rsi1 /\
    iloc_neg (boll_UPPER boll) 1 = Ok up1 /\ iloc_neg (boll_MID boll) 1 = Ok mid1 /\
    iloc_neg (boll_LOWER boll) 1 = Ok low1 /\
    iloc_neg (calc_atr (highs bars) (lows bars) (closes bars) 14) 1 = Ok atr1 /\
    b = mkBundle
          (mkPrice (round c1 2)
                   (round (fmul (fsub (fdiv c1 c2) (of_Z 1)) (of_Z 100)) 2))
          tr sr
          (mkIndicators
             (mkMACDOut (round dif1 4) (round dea1 4) (macd_signal macd))
             (mkKDJOut (round k1 2) (round d1 2) (round j1 2) (kdj_signal kdj))
             (mkRSIOut (round rsi1 2) (rsi_signal rsi))
             (mkBOLLOut (round up1 2) (round mid1 2) (round low1 2) (boll_signal boll))
             (round atr1 2))
          (technical_score (macd_signal macd) (kdj_signal kdj) (rsi_signal rsi)
                           (boll_signal boll) tr).
Proof.
  unfold analyze_stock.
  destruct (frame_columns bars) as (-> & -> & -> & ->). cbn [bind].
  intros H.
  repeat match type of H with
    | bind ?c _ = Ok _ =>
        let E := fresh "E" in
        destruct c eqn:E; cbn [bind] in H; [ | discriminate ]
    end.
  injection H as <-.
  repeat match goal with
    | E1 : iloc_neg ?s ?k = Ok ?x, E2 : iloc_neg ?s ?k = Ok ?y |- _ =>
        rewrite E1 in E2; injection E2 as <-
    end.
  do 18 eexists. repeat (split; [ first [ reflexivity | eassumption ] | ]). reflexivity.
Qed.

(** Two bars are enough for every step of [analyze_stock]. *)
Lemma analyze_stock_ok (qsqrt : Q -> Q) (bars : list Bar) :
  (2 <= length bars)%nat ->
  exists b, analyze_stock qsqrt (frame_of_bars bars) = Ok b.
Proof.
  intros Hlen.
  assert (Hc : length (closes bars) = length bars) by apply length_map.
  assert (Hh : length (highs bars) = length (closes bars))
    by (unfold highs, closes; now rewrite !length_map).
  assert (Hl : length (lows bars) = length (closes bars))
    by (unfold lows, closes; now rewrite !length_map).
  unfold analyze_stock.
  destruct (frame_columns bars) as (-> & -> & -> & ->). cbn [bind].
  destruct (calc_macd_ok (closes bars) 12 26 9 ltac:(lia) ltac:(lia) ltac:(lia)) as (macd & -> & Hdif & Hdea & _).
  destruct (calc_kdj_ok (highs bars) (lows bars) (closes bars) 9 3 3 ltac:(lia) ltac:(lia) Hh Hl)
    as (kdj & -> & HK & HD & HJ).
  destruct (calc_rsi_ok (closes bars) 14) as (rsig & ->).
  destruct (calc_boll_ok qsqrt (closes bars) 20 2) as (boll & -> & Hup & Hmid & Hlo).
  destruct (detect_trend_ok (closes bars) 20 60) as (tr & ->).
  destruct (find_support_resistance_ok (highs bars) (lows bars) (closes bars) 20 Hh Hl)
    as (sr & ->); [ lia | ].
  cbn [bind rsi_RSI].
  destruct (iloc_neg_ok (closes bars) 1) as (c1 & ->); [ lia | ].
  destruct (iloc_neg_ok (closes bars) 2) as (c2 & ->); [ lia | ].
  destruct (iloc_neg_ok (macd_DIF macd) 1) as (x1 & ->); [ lia | ].
  destruct (iloc_neg_ok (macd_DEA macd) 1) as (x2 & ->); [ lia | ].
  destruct (iloc_neg_ok (kdj_K kdj) 1) as (x3 & ->); [ lia | ].
  destruct (iloc_neg_ok (kdj_D kdj) 1) as (x4 & ->); [ lia | ].
  destruct (iloc_neg_ok (kdj_J kdj) 1) as (x5 & ->); [ lia | ].
  destruct (iloc_neg_ok (rsi_series (closes bars) 14) 1) as (x6 & ->);
    [ rewrite length_rsi_series; lia | ].
  destruct (iloc_neg_ok (boll_UPPER boll) 1) as (x7 & ->); [ lia | ].
  destruct (iloc_neg_ok (boll_MID boll) 1) as (x8 & ->); [ lia | ].
  destruct (iloc_neg_ok (boll_LOWER boll) 1) as (x9 & ->); [ lia | ].
  destruct (iloc_neg_ok (calc_atr (highs bars) (lows bars) (closes bars) 14) 1)
    as (x10 & ->); [ rewrite length_calc_atr by assumption; lia | ].
  cbn [bind]. eauto.
Qed.

(** C2: a frame of one bar, whatever the bar, makes [analyze_stock] raise
    IndexError (at [close.iloc[-2]]), as does the empty frame; from two bars
    on it returns a bundle. *)
Theorem analyze_stock_single_bar_raises (qsqrt : Q -> Q) :
  (forall b : Bar, analyze_stock qsqrt (frame_of_bars [b]) = Raise IndexError) /\
  analyze_stock qsqrt (frame_of_bars []) = Raise IndexError /\
  (forall bars : list Bar, (2 <= length bars)%nat ->
     exists bundle, analyze_stock qsqrt (frame_of_bars bars) = Ok bundle).
Proof.
  split; [ | split ].
  - intros b. reflexivity.
  - reflexivity.
  - intros bars. apply analyze_stock_ok.
Qed.

(** The bar 10/10/10/10 with volume 1000 alone, and the signal guards on it. *)
Example analyze_stock_one_bar :
  analyze_stock qsqrt_floor (frame_of_bars [flat_bar 10 1000]) = Raise IndexError /\
  get_macd_signal [of_Z 0] [of_Z 0] = Ok "数据不足" /\
  get_kdj_signal [of_Z 50] [of_Z 50] = Ok "数据不足".
Proof. repeat split. Qed.

(* ------------------------------------------------------------------ *)
(** ** Five bars *)

Lemma calc_kdj_signal (high low close : Series) (n : nat) (m1 m2 : Z) (d : KDJData) :
  calc_kdj high low close n m1 m2 = Ok d ->
  get_kdj_signal (kdj_K d) (kdj_D d) = Ok (kdj_signal d).
Proof.
  intros H. destruct (calc_kdj_params _ _ _ _ _ _ _ H) as [H1 H2].
  rewrite calc_kdj_unfold in H by assumption. cbv zeta in H.
  destruct (get_kdj_signal _ _) eqn:E; cbn [bind] in H; [ | discriminate ].
  injection H as <-. exact E.
Qed.

Lemma round_finite (x : fnum) (nd : nat) : is_finite x = true -> is_finite (round x nd) = true.
Proof. now destruct x. Qed.

Lemma iloc_neg_at (s : Series) (k n : nat) (x : fnum) :
  iloc_neg s k = Ok x -> (1 <= k)%nat -> length s = n ->
  nth_error s (n - k) = Some x.
Proof.
  intros H Hk Hn. pose proof (iloc_neg_length _ _ _ H). subst n.
  apply (iloc_neg_nth_error s k); [ lia | exact H ].
Qed.

(** The period-over-period change of two finite closes, the earlier one
    non-zero, is finite. *)
Lemma change_pct_finite (q1 q2 : Q) :
  ~ (q2 == 0)%Q ->
  is_finite (round (fmul (fsub (fdiv (Fin q1) (Fin q2)) (of_Z 1)) (of_Z 100)) 2) = true.
Proof.
  intros Hq. apply round_finite. cbn [fdiv].
  assert (Qzerob q2 = false) as -> by now apply Qzerob_false.
  reflexivity.
Qed.

(** K and D both at 50 on the last two bars classify as neutral. *)
Lemma get_kdj_signal_flat (k d : Series) :
  iloc_neg k 1 = Ok (of_Z 50) -> iloc_neg k 2 = Ok (of_Z 50) ->
  iloc_neg d 1 = Ok (of_Z 50) -> iloc_neg d 2 = Ok (of_Z 50) ->
  get_kdj_signal k d = Ok "中性震荡".
Proof.
  intros Hk1 Hk2 Hd1 Hd2. unfold get_kdj_signal.
  pose proof (iloc_neg_length _ _ _ Hk2).
  destruct (Nat.ltb_spec (length k) 2); [ lia | ].
  unfold and_, cmp. rewrite Hk1, Hk2, Hd1, Hd2. reflexivity.
Qed.

(** C1: on five bars with finite, positive closes [analyze_stock] returns a
    bundle whose current price and change are defined (not NaN); the MACD
    label is one of the six regular labels and the KDJ label is 中性震荡,
    neither is 数据不足; the RSI value, the three Bollinger bands and ATR
    are NaN. *)
Theorem analyze_stock_five_bars (qsqrt : Q -> Q) (bars : list Bar) :
  length bars = 5%nat ->
  Forall (fun b => fin_sat (fun q => 0 < q)%Q (bar_close b)) bars ->
  exists b,
    analyze_stock qsqrt (frame_of_bars bars) = Ok b /\
    is_nan (current (price b)) = false /\
    is_nan (change_pct (price b)) = false /\
    In (out_macd_signal (ind_MACD (indicators b))) macd_labels /\
    out_kdj_signal (ind_KDJ (indicators b)) = "中性震荡" /\
    out_rsi_value (ind_RSI (indicators b)) = NaN /\
    out_upper (ind_BOLL (indicators b)) = NaN /\
    out_mid (ind_BOLL (indicators b)) = NaN /\
    out_lower (ind_BOLL (indicators b)) = NaN /\
    ind_ATR (indicators b) = NaN.
Proof.
  intros Hlen Hpos.
  assert (Hc : length (closes bars) = 5%nat) by (unfold closes; now rewrite length_map).
  assert (Hh : length (highs bars) = length (closes bars))
    by (unfold highs, closes; now rewrite !length_map).
  assert (Hl : length (lows bars) = length (closes bars))
    by (unfold lows, closes; now rewrite !length_map).
  assert (Hv : length (volumes bars) = length (closes bars))
    by (unfold volumes, closes; now rewrite !length_map).
  destruct (analyze_stock_ok qsqrt bars) as [b Hb]; [ lia | ].
  exists b. split; [ exact Hb | ].
  destruct (analyze_stock_inv qsqrt bars b Hb)
    as (macd & kdj & rsi & boll & tr & sr & c1 & c2 & dif1 & dea1 & k1 & d1 & j1 &
        rsi1 & up1 & mid1 & low1 & atr1 &
        Hmacd & Hkdj & Hrsi & Hboll & Htr & Hsr & Hc1 & Hc2 & Hdif1 & Hdea1 &
        Hk1 & Hd1 & Hj1 & Hrsi1 & Hup1 & Hmid1 & Hlow1 & Hatr1 & ->).
  cbn [price current change_pct indicators ind_MACD ind_KDJ ind_RSI ind_BOLL ind_ATR
       out_macd_signal out_kdj_signal out_rsi_value out_upper out_mid out_lower].
  (* closes are finite and positive *)
  assert (Hfp : forall j x, nth_error (closes bars) j = Some x ->
                       exists q, x = Fin q /\ (0 < q)%Q).
  { intros j x Hx. unfold closes in Hx. rewrite nth_error_map in Hx.
    destruct (nth_error bars j) as [bj | ] eqn:Ebj; [ | discriminate ].
    injection Hx as <-. rewrite Forall_forall in Hpos.
    specialize (Hpos bj (nth_error_In _ _ Ebj)).
    destruct (bar_close bj); cbn in Hpos; try contradiction. eauto. }
  destruct (Hfp _ _ (iloc_neg_at _ 1 5 _ Hc1 ltac:(lia) Hc)) as (q1 & -> & Hq1).
  destruct (Hfp _ _ (iloc_neg_at _ 2 5 _ Hc2 ltac:(lia) Hc)) as (q2 & -> & Hq2).
  (* positions 3 and 4 precede every window *)
  assert (Hi4 : (4 < length (closes bars))%nat) by lia.
  assert (Hi3 : (3 < length (closes bars))%nat) by lia.
  destruct (calc_kdj_unfilled _ _ _ 9 3 3 kdj 4 Hh Hl Hi4 ltac:(lia) Hkdj)
    as (_ & HK4 & HD4 & _).
  destruct (calc_kdj_unfilled _ _ _ 9 3 3 kdj 3 Hh Hl Hi3 ltac:(lia) Hkdj)
    as (_ & HK3 & HD3 & _).
  destruct (calc_boll_unfilled qsqrt _ 20 2 boll 4 Hi4 ltac:(lia) Hboll)
    as (Hu4 & Hm4 & Hl4).
  destruct (calc_kdj_ok _ _ _ 9 3 3 ltac:(lia) ltac:(lia) Hh Hl) as (kdj' & Hkdj' & HlK & HlD & _).
  rewrite Hkdj in Hkdj'. injection Hkdj' as <-.
  destruct (calc_boll_ok qsqrt (closes bars) 20 2) as (boll' & Hboll' & HlU & HlM & HlL).
  rewrite Hboll in Hboll'. injection Hboll' as <-.
  destruct (calc_macd_ok (closes bars) 12 26 9 ltac:(lia) ltac:(lia) ltac:(lia)) as (macd' & Hmacd' & _ & _ & Hlab).
  rewrite Hmacd in Hmacd'. injection Hmacd' as <-.
  destruct (calc_rsi_ok (closes bars) 14) as (rsig & Hrsi').
  rewrite Hrsi in Hrsi'. injection Hrsi' as ->. cbn [rsi_RSI] in Hrsi1.
  split; [ reflexivity | ].
  split.
  { assert (Hf := change_pct_finite q1 q2 ltac:(lra)).
    now destruct (round (fmul (fsub (fdiv (Fin q1) (Fin q2)) (of_Z 1)) (of_Z 100)) 2). }
  split; [ apply Hlab; lia | ].
  split.
  { pose proof (calc_kdj_signal _ _ _ _ _ _ _ Hkdj) as Hsig.
    rewrite get_kdj_signal_flat in Hsig.
    - now injection Hsig as <-.
    - apply iloc_neg_nth_error; [ lia | ]. now replace (length (kdj_K kdj) - 1)%nat with 4%nat by lia.
    - apply iloc_neg_nth_error; [ lia | ]. now replace (length (kdj_K kdj) - 2)%nat with 3%nat by lia.
    - apply iloc_neg_nth_error; [ lia | ]. now replace (length (kdj_D kdj) - 1)%nat with 4%nat by lia.
    - apply iloc_neg_nth_error; [ lia | ]. now replace (length (kdj_D kdj) - 2)%nat with 3%nat by lia. }
  assert (Hlast : forall (s : Series) (x : fnum),
             length s = 5%nat -> iloc_neg s 1 = Ok x -> nth_error s 4 = Some NaN -> x = NaN).
  { intros s x Hs Hx Hn. pose proof (iloc_neg_at s 1 5 x Hx ltac:(lia) Hs) as Hx'.
    change (5 - 1)%nat with 4%nat in Hx'. congruence. }
  assert (Hr : rsi1 = NaN).
  { apply (Hlast (rsi_series (closes bars) 14));
      [ | exact Hrsi1 | apply rsi_series_unfilled; lia ].
    rewrite length_rsi_series. lia. }
  assert (Hu : up1 = NaN) by (apply (Hlast (boll_UPPER boll)); [ lia | assumption | assumption ]).
  assert (Hm : mid1 = NaN) by (apply (Hlast (boll_MID boll)); [ lia | assumption | assumption ]).
  assert (Hlw : low1 = NaN) by (apply (Hlast (boll_LOWER boll)); [ lia | assumption | assumption ]).
  assert (Ha : atr1 = NaN).
  { apply (Hlast (calc_atr (highs bars) (lows bars) (closes bars) 14));
      [ | exact Hatr1 | apply calc_atr_unfilled; (assumption || lia) ].
    rewrite length_calc_atr by assumption. lia. }
  subst rsi1 up1 mid1 low1 atr1. repeat split.
Qed.

Lemma analyze_stock_five_bars_witness :
  exists b,
    analyze_stock qsqrt_floor (frame_of_bars sample_five_bars) = Ok b /\
    is_nan (current (price b)) = false /\
    is_nan (change_pct (price b)) = false /\
    In (out_macd_signal (ind_MACD (indicators b))) macd_labels /\
    out_kdj_signal (ind_KDJ (indicators b)) = "中性震荡" /\
    out_rsi_value (ind_RSI (indicators b)) = NaN /\
    out_upper (ind_BOLL (indicators b)) = NaN /\
    out_mid (ind_BOLL (indicators b)) = NaN /\
    out_lower (ind_BOLL (indicators b)) = NaN /\
    ind_ATR (indicators b) = NaN.
Proof.
  apply (analyze_stock_five_bars qsqrt_floor sample_five_bars eq_refl).
  repeat constructor.
Defined.

(** C1 as stated fails: on the five bars closing at 10, 11, 12, 11, 13 the
    bundle is returned and none of the four labels is 数据不足. *)
Lemma five_bars_signals :
  exists b,
    analyze_stock qsqrt_floor (frame_of_bars sample_five_bars) = Ok b /\
    out_macd_signal (ind_MACD (indicators b)) = "多头强势" /\
    out_kdj_signal (ind_KDJ (indicators b)) = "中性震荡" /\
    out_rsi_signal (ind_RSI (indicators b)) = "中性(nan)" /\
    out_boll_signal (ind_BOLL (indicators b)) = "中轨下方-偏空".
Proof.
  eexists. split; [ vm_compute; reflexivity | ]. repeat split.
Qed.

(* ------------------------------------------------------------------ *)
(** ** Finite inputs through the indicator library *)

Lemma finite_inv (x : fnum) : finite x -> exists q, x = Fin q.
Proof. destruct x; try discriminate. eauto. Qed.

(** Rolling minimum and maximum of finite numbers: finite, and a bound of
    every element of the window. *)
Lemma fold_fmin2_bound (r : list fnum) :
  Forall finite r ->
  forall x, exists m, fold_left fmin2 r (Fin x) = Fin m /\ (m <= x)%Q /\
                 (forall q, In (Fin q) r -> (m <= q)%Q).
Proof.
  induction 1 as [ | y r Hy _ IH ]; intros x; cbn [fold_left].
  - exists x. split; [ reflexivity | ]. split; [ lra | ]. intros q [].
  - destruct (finite_inv y Hy) as [qy ->].
    unfold fmin2 at 2. cbn [fltb].
    destruct (Qltb qy x) eqn:E; q_props.
    + destruct (IH qy) as (m & Hm & Hle & Hall). exists m.
      split; [ exact Hm | ]. split; [ lra | ].
      intros q [Hq | Hq]; [ injection Hq as <-; lra | now apply Hall ].
    + destruct (IH x) as (m & Hm & Hle & Hall). exists m.
      split; [ exact Hm | ]. split; [ lra | ].
      intros q [Hq | Hq]; [ injection Hq as <-; lra | now apply Hall ].
Qed.

Lemma fold_fmax2_bound (r : list fnum) :
  Forall finite r ->
  forall x, exists m, fold_left fmax2 r (Fin x) = Fin m /\ (x <= m)%Q /\
                 (forall q, In (Fin q) r -> (q <= m)%Q).
Proof.
  induction 1 as [ | y r Hy _ IH ]; intros x; cbn [fold_left].
  - exists x. split; [ reflexivity | ]. split; [ lra | ]. intros q [].
  - destruct (finite_inv y Hy) as [qy ->].
    unfold fmax2 at 2. cbn [fltb].
    destruct (Qltb x qy) eqn:E; q_props.
    + destruct (IH qy) as (m & Hm & Hle & Hall). exists m.
      split; [ exact Hm | ]. split; [ lra | ].
      intros q [Hq | Hq]; [ injection Hq as <-; lra | now apply Hall ].
    + destruct (IH x) as (m & Hm & Hle & Hall). exists m.
      split; [ exact Hm | ]. split; [ lra | ].
      intros q [Hq | Hq]; [ injection Hq as <-; lra | now apply Hall ].
Qed.

Lemma agg_min_bound (w : list fnum) :
  w <> [] -> Forall finite w ->
  exists m, agg_min w = Fin m /\ (forall q, In (Fin q) w -> (m <= q)%Q).
Proof.
  intros Hne Hw. destruct Hw as [ | x r Hx Hr ]; [ congruence | ].
  destruct (finite_inv x Hx) as [qx ->]. cbn [agg_min].
  destruct (fold_fmin2_bound r Hr qx) as (m & Hm & Hle & Hall).
  exists m. split; [ exact Hm | ].
  intros q [Hq | Hq]; [ injection Hq as <-; lra | now apply Hall ].
Qed.

Lemma agg_max_bound (w : list fnum) :
  w <> [] -> Forall finite w ->
  exists m, agg_max w = Fin m /\ (forall q, In (Fin q) w -> (q <= m)%Q).
Proof.
  intros Hne Hw. destruct Hw as [ | x r Hx Hr ]; [ congruence | ].
  destruct (finite_inv x Hx) as [qx ->]. cbn [agg_max].
  destruct (fold_fmax2_bound r Hr qx) as (m & Hm & Hle & Hall).
  exists m. split; [ exact Hm | ].
  intros q [Hq | Hq]; [ injection Hq as <-; lra | now apply Hall ].
Qed.

Lemma window_finite (w : nat) (s : Series) (i : nat) :
  (w <= i + 1)%nat -> Forall finite s -> Forall finite (window_at w s i).
Proof.
  intros Hw Hs. apply Forall_window_at; [ lia | ]. intros j x _ Hx.
  rewrite Forall_forall in Hs. apply Hs. eapply nth_error_In; eauto.
Qed.

Lemma finite_not_nan (l : list fnum) :
  Forall finite l -> Forall (fun x => is_missing x = false) l.
Proof.
  apply Forall_impl. intros x Hx. destruct (finite_inv x Hx) as [q ->]. reflexivity.
Qed.

Lemma rolling_min_bound (s : Series) (w i : nat) (q : Q) :
  (1 <= w <= i + 1)%nat -> (i < length s)%nat -> Forall finite s ->
  nth_error s i = Some (Fin q) ->
  exists m, rolling_at agg_min w s i = Fin m /\ (m <= q)%Q.
Proof.
  intros Hw Hi Hs Hq.
  pose proof (window_finite w s i ltac:(lia) Hs) as Hwin.
  rewrite rolling_at_filled; [ | lia | now apply finite_not_nan ].
  destruct (agg_min_bound (window_at w s i)) as (m & Hm & Hall);
    [ apply window_at_nonempty; lia | exact Hwin | ].
  exists m. split; [ exact Hm | ]. apply Hall.
  now apply (window_at_last w s i).
Qed.

Lemma rolling_max_bound (s : Series) (w i : nat) (q : Q) :
  (1 <= w <= i + 1)%nat -> (i < length s)%nat -> Forall finite s ->
  nth_error s i = Some (Fin q) ->
  exists m, rolling_at agg_max w s i = Fin m /\ (q <= m)%Q.
Proof.
  intros Hw Hi Hs Hq.
  pose proof (window_finite w s i ltac:(lia) Hs) as Hwin.
  rewrite rolling_at_filled; [ | lia | now apply finite_not_nan ].
  destruct (agg_max_bound (window_at w s i)) as (m & Hm & Hall);
    [ apply window_at_nonempty; lia | exact Hwin | ].
  exists m. split; [ exact Hm | ]. apply Hall.
  now apply (window_at_last w s i).
Qed.

(** Columns of well-formed bars. *)
Lemma bars_wf_nth (bars : list Bar) (i : nat) :
  Forall (fun b => bar_wf b = true) bars -> (i < length bars)%nat ->
  exists h l c v,
    nth_error (highs bars) i = Some (Fin h) /\
    nth_error (lows bars) i = Some (Fin l) /\
    nth_error (closes bars) i = Some (Fin c) /\
    nth_error (volumes bars) i = Some (Fin v) /\
    (l <= c)%Q /\ (c <= h)%Q.
Proof.
  intros Hwf Hi. destruct (nth_error_some_lt bars i Hi) as [b Hb].
  rewrite Forall_forall in Hwf. specialize (Hwf b (nth_error_In _ _ Hb)).
  unfold highs, lows, closes, volumes. rewrite !nth_error_map, Hb. cbn [option_map].
  destruct b as [o h l c v]. unfold bar_wf in Hwf. cbn in Hwf.
  rewrite !andb_true_iff in Hwf.
  destruct Hwf as ((((((Ho & Hh) & Hl) & Hc) & Hv) & Hlc) & Hch).
  destruct h; try discriminate. destruct l; try discriminate.
  destruct c; try discriminate. destruct v; try discriminate.
  cbn in Hlc, Hch. q_props. cbn. eauto 10.
Qed.

Lemma bars_wf_finite (bars : list Bar) :
  Forall (fun b => bar_wf b = true) bars ->
  Forall finite (highs bars) /\ Forall finite (lows bars) /\
  Forall finite (closes bars) /\ Forall finite (volumes bars).
Proof.
  intros Hwf. unfold highs, lows, closes, volumes.
  repeat split; apply Forall_map; eapply Forall_impl; try exact Hwf;
    intros b Hb; unfold bar_wf in Hb; rewrite !andb_true_iff in Hb;
    unfold finite; tauto.
Qed.

Lemma length_columns (bars : list Bar) :
  length (closes bars) = length bars /\
  length (highs bars) = length (closes bars) /\
  length (lows bars) = length (closes bars) /\
  length (volumes bars) = length (closes bars).
Proof. unfold closes, highs, lows, volumes. now rewrite !length_map. Qed.

(** RSI from the average gain and loss: finite unless both are zero. *)
Lemma rsi_value_finite (g l : Q) :
  (0 <= g)%Q -> (0 <= l)%Q -> (0 < g \/ 0 < l)%Q ->
  finite (fsub (of_Z 100) (fdiv (of_Z 100) (fadd (of_Z 1) (fdiv (Fin g) (Fin l))))).
Proof.
  intros Hg Hl Hpos.
  destruct (Qzerob l) eqn:El.
  - apply Qzerob_true in El.
    rewrite rsi_value_saturated; [ reflexivity | lra | exact El ].
  - cbn [fdiv]. rewrite El. unfold of_Z. cbn [fadd fdiv].
    apply Qzerob_false in El.
    assert (H1 : (1 <= Qred (inject_Z 1 + Qred (g / l)))%Q).
    { rewrite !Qred_correct. unfold inject_Z.
      assert (0 <= g / l)%Q by (apply Qdiv_nonneg; lra). lra. }
    assert (Qzerob (Qred (inject_Z 1 + Qred (g / l))) = false) as ->.
    { apply Qzerob_false. lra. }
    reflexivity.
Qed.

Lemma rsi_value_nan (g l : Q) :
  (g == 0)%Q -> (l == 0)%Q ->
  fsub (of_Z 100) (fdiv (of_Z 100) (fadd (of_Z 1) (fdiv (Fin g) (Fin l)))) = NaN.
Proof.
  intros Hg Hl. cbn [fdiv].
  assert (Qzerob l = true) as -> by now apply Qzerob_true.
  assert (Qzerob g = true) as -> by now apply Qzerob_true.
  reflexivity.
Qed.

(** The RSI of the final position of a finite close series: a number as soon
    as one step of its trailing window moves, NaN when none does. *)
Lemma rsi_last_defined (close : Series) (period : nat) :
  (1 <= period <= length close)%nat -> Forall finite close ->
  exists r,
    iloc_neg (rsi_series close period) 1 = Ok r /\
    ((exists j a b, (length close - period <= S j < length close)%nat /\
                    nth_error close j = Some (Fin a) /\
                    nth_error close (S j) = Some (Fin b) /\ ~ (a == b)%Q) ->
     finite r) /\
    ((forall j a b, (length close - period <= S j < length close)%nat ->
                    nth_error close j = Some (Fin a) ->
                    nth_error close (S j) = Some (Fin b) -> (a == b)%Q) ->
     r = NaN).
Proof.
  intros Hp Hfin.
  set (i := (length close - 1)%nat).
  assert (Hi : (i < length close)%nat) by (subst i; lia).
  assert (HG : forall j, (i + 1 - period <= j <= i)%nat ->
             exists q, nth_error (rsi_gains close) j = Some (Fin q) /\ (0 <= q)%Q).
  { intros j Hj. destruct (rsi_gains_losses_nth close j Hfin) as (g & l & Hg & _ & H0 & _);
      [ lia | eauto ]. }
  assert (HL : forall j, (i + 1 - period <= j <= i)%nat ->
             exists q, nth_error (rsi_losses close) j = Some (Fin q) /\ (0 <= q)%Q).
  { intros j Hj. destruct (rsi_gains_losses_nth close j Hfin) as (g & l & _ & Hl & _ & H0 & _);
      [ lia | eauto ]. }
  destruct (rolling_mean_nonneg (rsi_gains close) period i) as (G & HGm & HG0 & HGpos & HGz);
    [ lia | now rewrite length_rsi_gains | exact HG | ].
  destruct (rolling_mean_nonneg (rsi_losses close) period i) as (L & HLm & HL0 & HLpos & HLz);
    [ lia | now rewrite length_rsi_losses | exact HL | ].
  eexists. split; [ | split ].
  - apply iloc_neg_nth_error; rewrite length_rsi_series; [ lia | ].
    fold i. rewrite nth_error_rsi_series by exact Hi. rewrite HGm, HLm. reflexivity.
  - intros (j & a & b & Hj & Ha & Hb & Hne).
    destruct (rsi_gains_losses_nth close (S j) Hfin) as (g & l & Hg & Hl & _ & _ & Hstep & _);
      [ lia | ].
    destruct (Hstep j a b eq_refl Ha Hb) as (Hup & _ & Hdown & _).
    apply rsi_value_finite; try assumption.
    destruct (Qlt_le_dec a b) as [Hlt | Hle].
    + left. apply HGpos. exists (S j), g. split; [ subst i; lia | ]. split; [ exact Hg | auto ].
    + right. apply HLpos. exists (S j), l. split; [ subst i; lia | ]. split; [ exact Hl | ].
      apply Hdown. destruct (Qle_lt_or_eq _ _ Hle) as [H | H]; [ exact H | ].
      exfalso. apply Hne. now symmetry.
  - intros Hflat. apply rsi_value_nan.
    + apply HGz. intros j q Hj Hq.
      destruct (rsi_gains_losses_nth close j Hfin) as (g & l & Hg & _ & _ & _ & Hstep & Hzero);
        [ lia | ].
      rewrite Hg in Hq. injection Hq as <-.
      destruct j as [ | j' ]; [ now apply Hzero | ].
      destruct (nth_error_some_lt close j') as [a' Ha']; [ lia | ].
      destruct (nth_error_some_lt close (S j')) as [b' Hb']; [ lia | ].
      destruct (finite_nth_error close j' a' Hfin Ha') as [qa ->].
      destruct (finite_nth_error close (S j') b' Hfin Hb') as [qb ->].
      apply (Hstep j' qa qb eq_refl Ha' Hb').
      rewrite (Hflat j' qa qb); [ lra | subst i; lia | exact Ha' | exact Hb' ].
    + apply HLz. intros j q Hj Hq.
      destruct (rsi_gains_losses_nth close j Hfin) as (g & l & _ & Hl & _ & _ & Hstep & Hzero);
        [ lia | ].
      rewrite Hl in Hq. injection Hq as <-.
      destruct j as [ | j' ]; [ now apply Hzero | ].
      destruct (nth_error_some_lt close j') as [a' Ha']; [ lia | ].
      destruct (nth_error_some_lt close (S j')) as [b' Hb']; [ lia | ].
      destruct (finite_nth_error close j' a' Hfin Ha') as [qa ->].
      destruct (finite_nth_error close (S j') b' Hfin Hb') as [qb ->].
      apply (Hstep j' qa qb eq_refl Ha' Hb').
      rewrite (Hflat j' qa qb); [ lra | subst i; lia | exact Ha' | exact Hb' ].
Qed.

(* ------------------------------------------------------------------ *)
(** ** The last position of a rolling column *)

Lemma iloc_rolling (agg : list fnum -> fnum) (w : nat) (s : Series) :
  (1 <= length s)%nat ->
  iloc_neg (rolling agg w s) 1 = Ok (rolling_at agg w s (length s - 1)).
Proof.
  intros Hs. apply iloc_neg_nth_error; rewrite length_rolling; [ lia | ].
  apply nth_error_rolling. lia.
Qed.

Lemma flat_bar_wf (p v : Z) : bar_wf (flat_bar p v) = true.
Proof.
  unfold bar_wf, flat_bar, of_Z. cbn.
  assert (H : Qle_bool (inject_Z p) (inject_Z p) = true)
    by (apply Qle_bool_iff; apply Qle_refl).
  now rewrite H.
Qed.

(** The column names of the market-data source select the same series. *)
Lemma analyze_stock_column_names (qsqrt : Q -> Q) (bars : list Bar) :
  analyze_stock qsqrt (frame_of_bars_zh bars) = analyze_stock qsqrt (frame_of_bars bars).
Proof. reflexivity. Qed.

(* ------------------------------------------------------------------ *)
(** ** Classifier and scorer together *)

Lemma raw_score_step (m k r b t : string) :
  exists n, raw_score m k r b t = 5 * n.
Proof.
  unfold raw_score, macd_adjust, kdj_adjust, rsi_adjust, boll_adjust, trend_adjust.
  repeat match goal with |- context [if ?c then _ else _] => destruct c end;
    match goal with |- exists n, ?v = 5 * n => exists (v / 5); reflexivity end.
Qed.

Lemma technical_score_grid_aux (m k r b t : string) :
  exists n, score (technical_score m k r b t) = 5 * n /\ 0 <= n <= 20.
Proof.
  unfold technical_score. cbn [score].
  destruct (raw_score_step m k r b t) as [n Hn]. rewrite Hn.
  destruct (Z_le_gt_dec n 0); [ exists 0; lia | ].
  destruct (Z_le_gt_dec 20 n); [ exists 20; lia | exists n; lia ].
Qed.

(** X1: The returned score is a multiple of 5 between 0 and 100, the stars run
    from 1 to 5, and rating and stars always go together. *)
Theorem technical_score_grid (m k r b t : string) :
  let res := technical_score m k r b t in
  (exists n, score res = 5 * n /\ 0 <= n <= 20) /\
  1 <= stars res <= 5 /\
  In (rating res, stars res)
     [("强烈买入", 5); ("买入", 4); ("中性", 3); ("卖出", 2); ("强烈卖出", 1)].
Proof.
  cbn zeta. unfold technical_score. cbn [score rating stars].
  destruct (raw_score_step m k r b t) as [n Hn]. rewrite Hn.
  split; [ | ].
  - destruct (Z_le_gt_dec n 0); [ exists 0; lia | ].
    destruct (Z_le_gt_dec 20 n); [ exists 20; lia | exists n; lia ].
  - unfold rating_tier.
    repeat match goal with |- context [?a >=? ?b] => destruct (a >=? b) end;
      cbn; split; try lia; tauto.
Qed.

(** X2: A higher score never has fewer stars. *)
Theorem rating_tier_monotone (s1 s2 : Z) :
  s1 <= s2 -> snd (rating_tier s1) <= snd (rating_tier s2).
Proof.
  intros H. unfold rating_tier.
  repeat match goal with |- context [?a >=? ?b] => destruct (Z.geb_spec a b) end;
    cbn [snd]; lia.
Qed.

Lemma rating_tier_monotone_witness : snd (rating_tier 40) <= snd (rating_tier 70).
Proof. apply rating_tier_monotone. lia. Defined.

(** X3: The MACD label of two or more points always moves the score: by +15
    when DIF is above DEA on the last bar, by -15 otherwise, a tie or a
    missing value included. *)
Theorem macd_signal_always_scores (dif dea : Series) (d1 d2 e1 e2 : fnum) :
  iloc_neg dif 1 = Ok d1 -> iloc_neg dif 2 = Ok d2 ->
  iloc_neg dea 1 = Ok e1 -> iloc_neg dea 2 = Ok e2 ->
  exists sig, get_macd_signal dif dea = Ok sig /\
              macd_adjust sig = (if fgtb d1 e1 then 15 else -15).
Proof.
  intros Hd1 Hd2 He1 He2.
  pose proof (iloc_neg_length _ _ _ Hd2) as Hlen.
  unfold get_macd_signal.
  destruct (Nat.ltb_spec (length dif) 2); [ lia | ].
  unfold and_, cmp. rewrite Hd1, Hd2, He1, He2. cbn [bind].
  destruct (fgtb d1 e1) eqn:Hgt.
  - assert (Hlt : fltb d1 e1 = false) by (unfold fgtb in Hgt; now apply fltb_asym).
    rewrite Hlt.
    destruct (fleb d2 e2); [ | destruct (fgtb d1 (of_Z 0)) ];
      eexists; split; reflexivity.
  - destruct (fltb d1 e1); [ destruct (fgeb d2 e2) | ];
      try destruct (fltb d1 (of_Z 0)); eexists; split; reflexivity.
Qed.

Lemma macd_signal_always_scores_witness :
  exists sig, get_macd_signal [of_Z 1; of_Z 1] [of_Z 1; of_Z 1] = Ok sig /\
              macd_adjust sig = -15.
Proof.
  exact (macd_signal_always_scores [of_Z 1; of_Z 1] [of_Z 1; of_Z 1]
           (of_Z 1) (of_Z 1) (of_Z 1) (of_Z 1) eq_refl eq_refl eq_refl eq_refl).
Defined.

(** X4: The KDJ label scores only on a fresh cross: +15 or +10 for a golden
    cross with K below 20 or below 50, -15 or -10 for a death cross with K
    above 80 or above 50, and 0 in every other case, the overbought and
    oversold zones without a cross included. *)
Theorem kdj_signal_score (k d : Series) (k1 d1 k2 d2 : fnum) :
  iloc_neg k 1 = Ok k1 -> iloc_neg d 1 = Ok d1 ->
  iloc_neg k 2 = Ok k2 -> iloc_neg d 2 = Ok d2 ->
  exists sig, get_kdj_signal k d = Ok sig /\
    kdj_adjust sig =
      (if fgtb k1 d1 && fleb k2 d2 then
         (if fltb k1 (of_Z 20) then 15 else if fltb k1 (of_Z 50) then 10 else 0)
       else if fltb k1 d1 && fgeb k2 d2 then
         (if fgtb k1 (of_Z 80) then -15 else if fgtb k1 (of_Z 50) then -10 else 0)
       else 0).
Proof.
  intros Hk1 Hd1 Hk2 Hd2.
  pose proof (iloc_neg_length _ _ _ Hk2) as Hlen.
  unfold get_kdj_signal.
  destruct (Nat.ltb_spec (length k) 2); [ lia | ].
  unfold and_, cmp. rewrite Hk1, Hd1, Hk2, Hd2. cbn [bind].
  destruct (fgtb k1 d1); cbn [andb bind];
    [ destruct (fleb k2 d2); cbn [andb bind] | ];
    try (destruct (fltb k1 d1); cbn [andb bind];
         [ destruct (fgeb k2 d2); cbn [andb bind] | ]);
    repeat match goal with
      | |- context [if fltb k1 ?c then _ else _] => destruct (fltb k1 c)
      | |- context [if fgtb k1 ?c then _ else _] => destruct (fgtb k1 c)
      end;
    eexists; split; reflexivity.
Qed.

Lemma kdj_signal_score_witness :
  exists sig, get_kdj_signal [of_Z 85; of_Z 90] [of_Z 80; of_Z 85] = Ok sig /\
              kdj_adjust sig = 0.
Proof.
  exact (kdj_signal_score [of_Z 85; of_Z 90] [of_Z 80; of_Z 85]
           (of_Z 90) (of_Z 85) (of_Z 85) (of_Z 80) eq_refl eq_refl eq_refl eq_refl).
Defined.

(** X5: The Bollinger label always moves the score: -10 above the upper band,
    +10 below the lower band, +5 above the middle band and -5 in every other
    case, which is the case of every missing band. *)
Theorem boll_signal_always_scores (close upper mid lower : Series) (p u m l : fnum) :
  iloc_neg close 1 = Ok p -> iloc_neg upper 1 = Ok u ->
  iloc_neg mid 1 = Ok m -> iloc_neg lower 1 = Ok l ->
  exists sig, get_boll_signal close upper mid lower = Ok sig /\
    boll_adjust sig =
      (if fgtb p u then -10 else if fltb p l then 10
       else if fgtb p m then 5 else -5) /\
    (u = NaN -> l = NaN -> m = NaN -> sig = "中轨下方-偏空").
Proof.
  intros Hp Hu Hm Hl.
  pose proof (iloc_neg_length _ _ _ Hp) as Hlen.
  unfold get_boll_signal.
  destruct (Nat.ltb_spec (length close) 1); [ lia | ].
  rewrite Hp, Hu, Hm, Hl. cbn [bind].
  eexists. split; [ reflexivity | ]. split.
  - destruct (fgtb p u); [ reflexivity | ].
    destruct (fltb p l); [ reflexivity | ].
    destruct (fgtb p m); reflexivity.
  - intros -> -> ->. unfold fgtb. cbn [fltb]. now destruct p.
Qed.

Lemma boll_signal_always_scores_witness :
  exists sig, get_boll_signal [of_Z 10] [NaN] [NaN] [NaN] = Ok sig /\
    boll_adjust sig = -5 /\
    (NaN = NaN -> NaN = NaN -> NaN = NaN -> sig = "中轨下方-偏空").
Proof.
  exact (boll_signal_always_scores [of_Z 10] [NaN] [NaN] [NaN] (of_Z 10) NaN NaN NaN
           eq_refl eq_refl eq_refl eq_refl).
Defined.

(* ------------------------------------------------------------------ *)
(** ** The neutral RSI label carries no keyword *)

Lemma prefix_head (c : ascii) (sub s : string) :
  String.prefix (String c sub) s = true -> exists s', s = String c s'.
Proof.
  destruct s as [ | a s ]; cbn; [ discriminate | ].
  destruct (ascii_dec c a) as [-> | ]; [ eauto | discriminate ].
Qed.

(** A string in which the first byte of [sub] does not occur does not
    contain [sub]. *)
Lemma contains_first_absent (c : ascii) (sub s : string) :
  ~ In c (list_ascii_of_string s) -> contains (String c sub) s = false.
Proof.
  induction s as [ | a s IH ]; intros Hin.
  - reflexivity.
  - cbn [contains]. apply orb_false_iff. split.
    + destruct (String.prefix (String c sub) (String a s)) eqn:E; [ | reflexivity ].
      destruct (prefix_head _ _ _ E) as [s' Hs']. injection Hs' as -> _.
      exfalso. apply Hin. now left.
    + apply IH. intros H. apply Hin. now right.
Qed.

Lemma list_ascii_of_string_app (a b : string) :
  list_ascii_of_string (a ++ b)%string
  = list_ascii_of_string a ++ list_ascii_of_string b.
Proof. induction a as [ | c a IH ]; cbn; [ reflexivity | now rewrite IH ]. Qed.

(** Decimal numerals are made of the ten digits. *)
Lemma string_of_uint_digits (u : Decimal.uint) (c : ascii) :
  In c (list_ascii_of_string (NilEmpty.string_of_uint u)) ->
  (48 <= nat_of_ascii c <= 57)%nat.
Proof.
  induction u; cbn; intros H; try contradiction;
    (destruct H as [<- | H]; [ cbn; lia | now apply IHu ]).
Qed.

Lemma str_of_Z_digits (z : Z) (c : ascii) :
  In c (list_ascii_of_string (str_of_Z z)) -> (48 <= nat_of_ascii c <= 57)%nat.
Proof.
  unfold str_of_Z, NilZero.string_of_uint.
  destruct (N.to_uint (Z.to_N z)) eqn:E;
    try (rewrite <- E; apply string_of_uint_digits).
  cbn. intros [<- | []]. cbn. lia.
Qed.

(** Every byte of a formatted number is below 128. *)
Lemma format_1f_ascii (x : fnum) (c : ascii) :
  In c (list_ascii_of_string (format_1f x)) -> (nat_of_ascii c < 128)%nat.
Proof.
  destruct x as [ | | | q ]; cbn [format_1f].
  1-3: cbn; intros H;
       repeat (destruct H as [<- | H]; [ cbn; lia | ]); contradiction.
  rewrite !list_ascii_of_string_app. rewrite !in_app_iff.
  intros [H | [H | [H | H]]].
  - destruct (Qnegb q); cbn in H; [ destruct H as [<- | []]; cbn; lia | contradiction ].
  - apply str_of_Z_digits in H. lia.
  - cbn in H. destruct H as [<- | []]. cbn. lia.
  - apply str_of_Z_digits in H. lia.
Qed.

Lemma rsi_neutral_label_unscored (x : fnum) :
  rsi_adjust ("中性(" ++ format_1f x ++ ")")%string = 0.
Proof.
  assert (Habs : ~ In (ascii_of_nat 232)
                   (list_ascii_of_string ("中性(" ++ format_1f x ++ ")")%string)).
  { rewrite !list_ascii_of_string_app, !in_app_iff.
    intros [H | [H | H]].
    - cbn in H. repeat (destruct H as [H | H]; [ discriminate H | ]). contradiction.
    - apply format_1f_ascii in H. cbn in H. lia.
    - cbn in H. destruct H as [H | []]. discriminate H. }
  unfold rsi_adjust.
  change "超卖" with (String (ascii_of_nat 232) (String (ascii_of_nat 182)
            (String (ascii_of_nat 133) "卖"))).
  change "超买" with (String (ascii_of_nat 232) (String (ascii_of_nat 182)
            (String (ascii_of_nat 133) "买"))).
  now rewrite !contains_first_absent by exact Habs.
Qed.

(** X6: The RSI label costs 10 points above 70, earns 10 points below 30 and is
    neutral in between and for a missing value, whose label embeds the
    formatted number. *)
Theorem rsi_signal_score (rsi : Series) (v : fnum) :
  iloc_neg rsi 1 = Ok v ->
  exists sig, get_rsi_signal rsi = Ok sig /\
    rsi_adjust sig =
      (if fgtb v (of_Z 70) then -10 else if fltb v (of_Z 30) then 10 else 0) /\
    (is_nan v = true -> sig = "中性(nan)").
Proof.
  intros Hv. pose proof (iloc_neg_length _ _ _ Hv) as Hlen.
  unfold get_rsi_signal.
  destruct (Nat.ltb_spec (length rsi) 1); [ lia | ].
  rewrite Hv. cbn [bind]. eexists. split; [ reflexivity | ]. split.
  - destruct (fgtb v (of_Z 80)) eqn:E80.
    + assert (fgtb v (of_Z 70) = true) as -> by (clear - E80; f_cases).
      reflexivity.
    + destruct (fgtb v (of_Z 70)) eqn:E70; [ reflexivity | ].
      destruct (fltb v (of_Z 20)) eqn:E20.
      * assert (fltb v (of_Z 30) = true) as -> by (clear - E20; f_cases).
        reflexivity.
      * destruct (fltb v (of_Z 30)); [ reflexivity | ].
        apply rsi_neutral_label_unscored.
  - intros Hn. destruct v; try discriminate. reflexivity.
Qed.

Lemma rsi_signal_score_witness :
  exists sig, get_rsi_signal [Fin (91 # 2)] = Ok sig /\
    rsi_adjust sig = 0 /\ (false = true -> sig = "中性(nan)").
Proof.
  exact (rsi_signal_score [Fin (91 # 2)] (Fin (91 # 2)) eq_refl).
Defined.

Example get_rsi_signal_formats :
  get_rsi_signal [Fin (91 # 2)] = Ok "中性(45.5)" /\
  get_rsi_signal [Fin (4525 # 100)] = Ok "中性(45.2)" /\
  get_rsi_signal [Fin (75 # 1)] = Ok "超买" /\
  get_rsi_signal [Fin (15 # 1)] = Ok "严重超卖".
Proof. repeat split. Qed.

(* ------------------------------------------------------------------ *)
(** ** Series shorter than the windows *)

Lemma fltb_nan_right (x : fnum) : fltb x NaN = false.
Proof. now destruct x. Qed.

Lemma detect_trend_unfilled (close : Series) (ma_short ma_long : nat) :
  (1 <= length close)%nat ->
  (length close < ma_long \/ length close < ma_short)%nat ->
  detect_trend close ma_short ma_long = Ok "震荡整理".
Proof.
  intros Hlen Hshort. unfold detect_trend. rewrite !length_rolling.
  destruct (Nat.ltb_spec (length close) 1); [ lia | ]. cbn [orb].
  rewrite !iloc_rolling by lia.
  destruct (iloc_neg_ok close 1) as [c Hc]; [ lia | ]. rewrite Hc.
  unfold and_, cmp, fgtb. cbn [bind].
  destruct Hshort as [Hl | Hs].
  - rewrite (rolling_at_unfilled agg_mean ma_long) by lia.
    cbn [fltb]. rewrite fltb_nan_right. reflexivity.
  - rewrite (rolling_at_unfilled agg_mean ma_short) by lia.
    cbn [fltb]. rewrite !fltb_nan_right.
    now destruct (rolling_at agg_mean ma_long close (length close - 1)).
Qed.

(** X7: With fewer observations than either moving average needs, the trend of a
    non-empty series is always 震荡整理; the empty series gives 数据不足. *)
Theorem detect_trend_short_series (close : Series) (ma_short ma_long : nat) :
  (1 <= length close)%nat ->
  (length close < ma_long \/ length close < ma_short)%nat ->
  detect_trend close ma_short ma_long = Ok "震荡整理" /\
  detect_trend [] ma_short ma_long = Ok "数据不足".
Proof.
  intros Hlen Hshort. split; [ now apply detect_trend_unfilled | reflexivity ].
Qed.

Lemma detect_trend_short_series_witness :
  detect_trend (map of_Z [10; 11; 12]) 20 60 = Ok "震荡整理" /\
  detect_trend [] 20 60 = Ok "数据不足".
Proof.
  apply detect_trend_short_series; cbn; lia.
Defined.

Lemma calc_rsi_signal (close : Series) (period : nat) (d : RSIData) :
  calc_rsi close period = Ok d ->
  rsi_RSI d = rsi_series close period /\
  get_rsi_signal (rsi_RSI d) = Ok (rsi_signal d).
Proof.
  unfold calc_rsi. destruct (get_rsi_signal _) eqn:E; cbn [bind]; [ | discriminate ].
  intros H. injection H as <-. split; [ reflexivity | exact E ].
Qed.

Lemma calc_boll_signal (qsqrt : Q -> Q) (close : Series) (period : nat) (k : Z)
    (d : BOLLData) :
  calc_boll qsqrt close period k = Ok d ->
  get_boll_signal close (boll_UPPER d) (boll_MID d) (boll_LOWER d) = Ok (boll_signal d).
Proof.
  unfold calc_boll. destruct (get_boll_signal _ _ _ _) eqn:E; cbn [bind]; [ | discriminate ].
  intros H. injection H as <-. exact E.
Qed.

Lemma iloc_last_nth (s : Series) (x : fnum) :
  (1 <= length s)%nat -> nth_error s (length s - 1) = Some x -> iloc_neg s 1 = Ok x.
Proof. intros Hlen Hx. apply iloc_neg_nth_error; [ lia | exact Hx ]. Qed.

(** The labels of a series too short for the RSI and Bollinger windows. *)
Lemma calc_rsi_unfilled_signal (close : Series) (period : nat) (d : RSIData) :
  (1 <= length close < period)%nat ->
  calc_rsi close period = Ok d -> rsi_signal d = "中性(nan)".
Proof.
  intros Hlen Hd. destruct (calc_rsi_signal _ _ _ Hd) as (Hs & Hsig).
  rewrite Hs in Hsig. unfold get_rsi_signal in Hsig.
  rewrite length_rsi_series in Hsig.
  destruct (Nat.ltb_spec (length close) 1); [ lia | ].
  rewrite (iloc_last_nth _ NaN) in Hsig.
  - cbn in Hsig. now injection Hsig as <-.
  - rewrite length_rsi_series. lia.
  - rewrite length_rsi_series. apply rsi_series_unfilled; lia.
Qed.

(* ------------------------------------------------------------------ *)
(** ** A close that does not move *)

(** C6: the claim fails in the code.  On 120 or more bars that all close at
    one and the same price the average gain and the average loss of the
    trailing window are both zero, [calc_rsi] divides zero by zero, and the
    final RSI is NaN; [analyze_stock] returns it as the RSI value of the
    bundle, under the label 中性(nan). *)
Theorem constant_close_rsi_nan (qsqrt : Q -> Q) (bars : list Bar) (c : Q) :
  (120 <= length bars)%nat ->
  Forall (fun b => bar_close b = Fin c) bars ->
  iloc_neg (rsi_series (closes bars) 14) 1 = Ok NaN /\
  exists b,
    analyze_stock qsqrt (frame_of_bars bars) = Ok b /\
    out_rsi_value (ind_RSI (indicators b)) = NaN /\
    out_rsi_signal (ind_RSI (indicators b)) = "中性(nan)".
Proof.
  intros Hlen Hflat.
  assert (Hc : length (closes bars) = length bars) by apply length_map.
  assert (Hnth : forall j x, nth_error (closes bars) j = Some x -> x = Fin c).
  { intros j x Hx. unfold closes in Hx. rewrite nth_error_map in Hx.
    destruct (nth_error bars j) as [bj | ] eqn:Ebj; [ | discriminate ].
    injection Hx as <-. rewrite Forall_forall in Hflat.
    apply Hflat. eapply nth_error_In; eauto. }
  assert (Hfin : Forall finite (closes bars)).
  { unfold closes. apply Forall_map. eapply Forall_impl; [ | exact Hflat ].
    intros b Hb. cbn beta. now rewrite Hb. }
  destruct (rsi_last_defined (closes bars) 14 ltac:(lia) Hfin) as (r & Hr & _ & Hnan).
  assert (Er : r = NaN).
  { apply Hnan. intros j a b _ Ha Hb.
    apply Hnth in Ha. apply Hnth in Hb.
    injection Ha as ->. injection Hb as ->. reflexivity. }
  subst r. split; [ exact Hr | ].
  destruct (analyze_stock_ok qsqrt bars ltac:(lia)) as [b Hb].
  exists b. split; [ exact Hb | ].
  destruct (analyze_stock_inv qsqrt bars b Hb)
    as (macd & kdj & rsi & boll & tr & sr & c1 & c2 & dif1 & dea1 & k1 & d1 & j1 &
        rsi1 & up1 & mid1 & low1 & atr1 &
        _ & _ & Hrsi & _ & _ & _ & _ & _ & _ & _ & _ & _ & _ & Hrsi1 & _ & _ & _ & _ & ->).
  cbn [indicators ind_RSI out_rsi_value out_rsi_signal].
  destruct (calc_rsi_signal _ _ _ Hrsi) as (Hs & Hsig).
  rewrite Hs in Hrsi1, Hsig. rewrite Hr in Hrsi1. injection Hrsi1 as <-.
  split; [ reflexivity | ].
  unfold get_rsi_signal in Hsig. rewrite length_rsi_series in Hsig.
  destruct (Nat.ltb_spec (length (closes bars)) 1); [ lia | ].
  rewrite Hr in Hsig. cbn in Hsig. now injection Hsig as <-.
Qed.

(** 120 bars all trading at 10 only. *)
Lemma flat_market_rsi_nan :
  iloc_neg (rsi_series (closes (flat_market 120)) 14) 1 = Ok NaN /\
  exists b,
    analyze_stock qsqrt_floor (frame_of_bars (flat_market 120)) = Ok b /\
    out_rsi_value (ind_RSI (indicators b)) = NaN /\
    out_rsi_signal (ind_RSI (indicators b)) = "中性(nan)".
Proof.
  apply (constant_close_rsi_nan qsqrt_floor (flat_market 120) 10).
  - unfold flat_market. rewrite repeat_length. lia.
  - unfold flat_market. apply Forall_forall. intros b Hb.
    apply repeat_spec in Hb. now subst b.
Defined.

Lemma calc_boll_unfilled_signal (qsqrt : Q -> Q) (close : Series) (period : nat) (k : Z)
    (d : BOLLData) :
  (1 <= length close < period)%nat ->
  calc_boll qsqrt close period k = Ok d -> boll_signal d = "中轨下方-偏空".
Proof.
  intros Hlen Hd. pose proof (calc_boll_signal _ _ _ _ _ Hd) as Hsig.
  destruct (calc_boll_ok qsqrt close period k) as (d' & Hd' & HlU & HlM & HlL).
  rewrite Hd in Hd'. injection Hd' as <-.
  destruct (calc_boll_unfilled qsqrt close period k d (length close - 1))
    as (Hu & Hm & Hl); [ lia | lia | exact Hd | ].
  unfold get_boll_signal in Hsig.
  destruct (Nat.ltb_spec (length close) 1); [ lia | ].
  destruct (iloc_neg_ok close 1) as [p Hp]; [ lia | ].
  rewrite Hp in Hsig.
  rewrite (iloc_last_nth (boll_UPPER d) NaN) in Hsig by (rewrite ?HlU; (lia || exact Hu)).
  rewrite (iloc_last_nth (boll_MID d) NaN) in Hsig by (rewrite ?HlM; (lia || exact Hm)).
  rewrite (iloc_last_nth (boll_LOWER d) NaN) in Hsig by (rewrite ?HlL; (lia || exact Hl)).
  cbn [bind] in Hsig. unfold fgtb in Hsig. cbn [fltb] in Hsig.
  rewrite fltb_nan_right in Hsig. now injection Hsig as <-.
Qed.

Lemma calc_kdj_unfilled_signal (high low close : Series) (n : nat) (m1 m2 : Z)
    (d : KDJData) :
  length high = length close -> length low = length close ->
  (2 <= length close < n)%nat ->
  calc_kdj high low close n m1 m2 = Ok d -> kdj_signal d = "中性震荡".
Proof.
  intros Hh Hl Hlen Hd.
  destruct (calc_kdj_params _ _ _ _ _ _ _ Hd) as [Hm1 Hm2].
  destruct (calc_kdj_ok _ _ _ n m1 m2 Hm1 Hm2 Hh Hl) as (d' & Hd' & HlK & HlD & _).
  rewrite Hd in Hd'. injection Hd' as <-.
  pose proof (calc_kdj_signal _ _ _ _ _ _ _ Hd) as Hsig.
  destruct (calc_kdj_unfilled _ _ _ n m1 m2 d (length close - 1) Hh Hl) as (_ & HK1 & HD1 & _);
    [ lia | lia | exact Hd | ].
  destruct (calc_kdj_unfilled _ _ _ n m1 m2 d (length close - 2) Hh Hl) as (_ & HK2 & HD2 & _);
    [ lia | lia | exact Hd | ].
  rewrite get_kdj_signal_flat in Hsig.
  - now injection Hsig as <-.
  - apply iloc_neg_nth_error; [ lia | ]. now rewrite HlK.
  - apply iloc_neg_nth_error; [ lia | ]. now rewrite HlK.
  - apply iloc_neg_nth_error; [ lia | ]. now rewrite HlD.
  - apply iloc_neg_nth_error; [ lia | ]. now rewrite HlD.
Qed.

(** X8: On two to eight bars, whatever they hold, [analyze_stock] reports the
    trend 震荡整理 and a score that is either 60 (中性, 3 stars) or 30
    (强烈卖出, 1 star): only the MACD label varies, the unfilled Bollinger
    bands always cost 5 points. *)
Theorem analyze_stock_short_series_score (qsqrt : Q -> Q) (bars : list Bar) :
  (2 <= length bars <= 8)%nat ->
  exists b,
    analyze_stock qsqrt (frame_of_bars bars) = Ok b /\
    trend b = "震荡整理" /\
    In (out_macd_signal (ind_MACD (indicators b))) macd_labels /\
    out_kdj_signal (ind_KDJ (indicators b)) = "中性震荡" /\
    out_rsi_signal (ind_RSI (indicators b)) = "中性(nan)" /\
    out_boll_signal (ind_BOLL (indicators b)) = "中轨下方-偏空" /\
    (score_data b = mkScore 60 "中性" 3 \/ score_data b = mkScore 30 "强烈卖出" 1).
Proof.
  intros Hlen.
  destruct (length_columns bars) as (Hc & Hh & Hl & Hv).
  destruct (analyze_stock_ok qsqrt bars) as [b Hb]; [ lia | ].
  exists b. split; [ exact Hb | ].
  destruct (analyze_stock_inv qsqrt bars b Hb)
    as (macd & kdj & rsi & boll & tr & sr & c1 & c2 & dif1 & dea1 & k1 & d1 & j1 &
        rsi1 & up1 & mid1 & low1 & atr1 &
        Hmacd & Hkdj & Hrsi & Hboll & Htr & Hsr & _ & _ & _ & _ &
        _ & _ & _ & _ & _ & _ & _ & _ & ->).
  cbn [trend indicators ind_MACD ind_KDJ ind_RSI ind_BOLL score_data
       out_macd_signal out_kdj_signal out_rsi_signal out_boll_signal].
  rewrite detect_trend_unfilled in Htr by lia. injection Htr as <-.
  assert (H9 : (2 <= length (closes bars) < 9)%nat) by lia.
  assert (H14 : (1 <= length (closes bars) < 14)%nat) by lia.
  assert (H20 : (1 <= length (closes bars) < 20)%nat) by lia.
  rewrite (calc_kdj_unfilled_signal _ _ _ 9 3 3 kdj Hh Hl H9 Hkdj).
  rewrite (calc_rsi_unfilled_signal _ 14 rsi H14 Hrsi).
  rewrite (calc_boll_unfilled_signal qsqrt _ 20 2 boll H20 Hboll).
  destruct (calc_macd_ok (closes bars) 12 26 9 ltac:(lia) ltac:(lia) ltac:(lia)) as (macd' & Hmacd' & _ & _ & Hlab).
  rewrite Hmacd in Hmacd'. injection Hmacd' as <-.
  assert (H2 : (2 <= length (closes bars))%nat) by lia.
  specialize (Hlab H2).
  split; [ reflexivity | ]. split; [ exact Hlab | ].
  do 3 (split; [ reflexivity | ]).
  cbn in Hlab.
  destruct Hlab as [<- | [<- | [<- | [<- | [<- | [<- | []]]]]]];
    vm_compute; tauto.
Qed.

Lemma analyze_stock_short_series_score_witness :
  exists b,
    analyze_stock qsqrt_floor (frame_of_bars sample_five_bars) = Ok b /\
    trend b = "震荡整理" /\
    In (out_macd_signal (ind_MACD (indicators b))) macd_labels /\
    out_kdj_signal (ind_KDJ (indicators b)) = "中性震荡" /\
    out_rsi_signal (ind_RSI (indicators b)) = "中性(nan)" /\
    out_boll_signal (ind_BOLL (indicators b)) = "中轨下方-偏空" /\
    (score_data b = mkScore 60 "中性" 3 \/ score_data b = mkScore 30 "强烈卖出" 1).
Proof.
  apply (analyze_stock_short_series_score qsqrt_floor sample_five_bars).
  cbn. lia.
Defined.

(* ------------------------------------------------------------------ *)
(** ** Exponential smoothing *)

Lemma alpha_of_span_range (span : Z) :
  1 <= span -> (0 < alpha_of_span span /\ alpha_of_span span <= 1)%Q.
Proof.
  intros H. unfold alpha_of_span. rewrite Qred_correct.
  assert (Hpos : (0 < inject_Z (span + 1))%Q) by (unfold Qlt, inject_Z; cbn; lia).
  assert (H2 : (2 <= inject_Z (span + 1))%Q) by (unfold Qle, inject_Z; cbn; lia).
  split.
  - apply Qdiv_pos; [ reflexivity | exact Hpos ].
  - apply Qle_shift_div_r; [ exact Hpos | lra ].
Qed.

Lemma ewm_step_within (alpha w c lo hi : Q) :
  (0 <= alpha <= 1)%Q -> (lo <= w <= hi)%Q -> (lo <= c <= hi)%Q ->
  fin_sat (fun q => lo <= q <= hi)%Q
    (fdiv (fadd (fmul (Fin (Qred (1 * (1 - alpha)))) (Fin w)) (fmul (Fin alpha) (Fin c)))
          (Fin (Qred (Qred (1 * (1 - alpha)) + alpha)))).
Proof.
  intros Ha Hw Hc. cbn [fmul fadd fdiv].
  assert (Hone : (Qred (Qred (1 * (1 - alpha)) + alpha) == 1)%Q).
  { rewrite !Qred_correct. ring. }
  assert (Hz : Qzerob (Qred (Qred (1 * (1 - alpha)) + alpha)) = false).
  { apply Qzerob_false. rewrite Hone. discriminate. }
  rewrite Hz. cbn [fin_sat].
  assert (Hv : (Qred ((Qred (Qred (Qred (1 * (1 - alpha)) * w) + Qred (alpha * c)))
                      / Qred (Qred (1 * (1 - alpha)) + alpha))
                == (1 - alpha) * w + alpha * c)%Q).
  { rewrite Hone, !Qred_correct. field. }
  rewrite Hv. split; nra.
Qed.

Lemma ewm_go_within (alpha lo hi : Q) (xs : list fnum) :
  (0 <= alpha <= 1)%Q ->
  Forall (fin_sat (fun q => lo <= q <= hi)%Q) xs ->
  forall w, (lo <= w <= hi)%Q ->
  Forall (fin_sat (fun q => lo <= q <= hi)%Q) (ewm_go alpha (Fin w) 1 xs).
Proof.
  intros Ha. induction 1 as [ | x xs Hx _ IH ]; intros w Hw;
    cbn [ewm_go is_nan]; [ constructor | ].
  destruct x as [ | | | c ]; cbn [fin_sat] in Hx; try contradiction.
  cbn [is_nan].
  pose proof (ewm_step_within alpha w c lo hi Ha Hw Hx) as Hstep.
  destruct (fdiv _ _) as [ | | | w' ] eqn:E; cbn [fin_sat] in Hstep; try contradiction.
  constructor; [ exact Hstep | now apply IH ].
Qed.

(** X9: [calc_ema] raises ValueError for a period below one; for any other
    period it returns a series as long as the input that starts with the
    first close when that close is a number, and a series that holds one
    number throughout comes back with that number throughout. *)
Theorem calc_ema_period_guard (close : Series) (period : Z) :
  (period < 1 -> calc_ema close period = Raise ValueError) /\
  (1 <= period ->
   exists ema,
     calc_ema close period = Ok ema /\
     length ema = length close /\
     (forall q, hd_error close = Some (Fin q) -> hd_error ema = Some (Fin q)) /\
     (forall q, Forall (eq (Fin q)) close ->
                Forall (fin_sat (fun r => r == q)%Q) ema)).
Proof.
  split.
  - intros Hp. unfold calc_ema. now apply ewm_span_raises.
  - intros Hp. unfold calc_ema. rewrite ewm_span_ok by exact Hp.
    eexists. split; [ reflexivity | ].
    split; [ apply length_ewm_mean | ].
    split.
    + intros q Hq. destruct close as [ | x s ]; [ discriminate | ].
      cbn [hd_error] in Hq. injection Hq as ->. reflexivity.
    + intros q Hq. unfold ewm_mean.
      assert (Hfin : Forall (fun x => is_finite x = true) close).
      { eapply Forall_impl; [ | exact Hq ]. now intros x <-. }
      rewrite (prep_values_finite close Hfin).
      destruct Hq as [ | x s Hx Hs ]; [ constructor | ]. subst x.
      assert (Hin : Forall (fin_sat (fun r => q <= r <= q)%Q) s).
      { eapply Forall_impl; [ | exact Hs ]. intros x <-. cbn. lra. }
      destruct (alpha_of_span_range period Hp) as [Ha0 Ha1].
      assert (Hgo := ewm_go_within (alpha_of_span period) q q s
                       ltac:(split; lra) Hin q ltac:(split; lra)).
      constructor; [ cbn; reflexivity | ].
      eapply Forall_impl; [ | exact Hgo ].
      intros x Hx. destruct x; cbn in *; try contradiction. lra.
Qed.

(* ------------------------------------------------------------------ *)
(** ** Rounding keeps the order *)

(** [round_half_even q] is within one half of [q], and even at a tie. *)
Lemma round_half_even_spec (q : Q) :
  let z := round_half_even q in
  let n := Qnum q in
  let d := Zpos (Qden q) in
  (2 * z - 1) * d <= 2 * n <= (2 * z + 1) * d /\
  (2 * n = (2 * z + 1) * d -> Z.even z = true) /\
  (2 * n = (2 * z - 1) * d -> Z.even z = true).
Proof.
  cbn zeta. unfold round_half_even.
  set (n := Qnum q). set (d := Zpos (Qden q)).
  assert (Hd : 0 < d) by (subst d; lia).
  pose proof (Z.div_mod n d ltac:(lia)) as Hdm.
  pose proof (Z.mod_pos_bound n d Hd) as Hr.
  set (fl := n / d) in *. set (r := n mod d) in *.
  clearbody fl r n d. subst n.
  destruct (2 * r ?= d)%Z eqn:E.
  - apply Z.compare_eq in E.
    destruct (Z.even fl) eqn:Ev.
    + split; [ lia | ]. split; [ auto | ]. intros H. exfalso. lia.
    + assert (Hodd : Z.even (fl + 1) = true).
      { rewrite Z.even_add, Ev. reflexivity. }
      split; [ lia | ]. split; [ intros H; exfalso; lia | auto ].
  - rewrite Z.compare_lt_iff in E.
    split; [ lia | ]. split; intros H; exfalso; lia.
  - rewrite Z.compare_gt_iff in E.
    split; [ lia | ]. split; intros H; exfalso; lia.
Qed.

Lemma round_half_even_monotone (x y : Q) :
  (x <= y)%Q -> round_half_even x <= round_half_even y.
Proof.
  intros Hxy. unfold Qle in Hxy.
  destruct (round_half_even_spec x) as ((Hx1 & Hx2) & Hxu & Hxd).
  destruct (round_half_even_spec y) as ((Hy1 & Hy2) & Hyu & Hyd).
  cbn zeta in *.
  set (zx := round_half_even x) in *. set (zy := round_half_even y) in *.
  set (nx := Qnum x) in *. set (ny := Qnum y) in *.
  set (dx := Zpos (Qden x)) in *. set (dy := Zpos (Qden y)) in *.
  assert (Hdx : 0 < dx) by (subst dx; lia).
  assert (Hdy : 0 < dy) by (subst dy; lia).
  clearbody zx zy nx ny dx dy.
  destruct (Z_le_gt_dec zx zy) as [ | Hgt ]; [ assumption | exfalso ].
  assert (Hchain1 : (2 * zx - 1) * dx * dy <= 2 * nx * dy) by nia.
  assert (Hchain2 : 2 * nx * dy <= 2 * ny * dx) by nia.
  assert (Hchain3 : 2 * ny * dx <= (2 * zy + 1) * dy * dx) by nia.
  assert (Hle : (2 * zx - 1) * (dx * dy) <= (2 * zy + 1) * (dx * dy)) by nia.
  assert (Hpos : 0 < dx * dy) by nia.
  assert (Hz : 2 * zx - 1 <= 2 * zy + 1) by nia.
  assert (Heq : zx = zy + 1) by lia.
  assert (Ex : 2 * nx = (2 * zx - 1) * dx) by nia.
  assert (Ey : 2 * ny = (2 * zy + 1) * dy) by nia.
  specialize (Hxd Ex). specialize (Hyu Ey).
  rewrite Heq, Z.even_add, Hyu in Hxd. discriminate.
Qed.

(** Python [round(x, nd)] never reverses two finite numbers. *)
Lemma round_monotone (a b : Q) (nd : nat) :
  (a <= b)%Q ->
  exists a' b', round (Fin a) nd = Fin a' /\ round (Fin b) nd = Fin b' /\ (a' <= b')%Q.
Proof.
  intros Hab. cbn [round].
  set (p := inject_Z (10 ^ Z.of_nat nd)).
  assert (Hp : (0 < p)%Q).
  { subst p. unfold Qlt, inject_Z. cbn.
    pose proof (Z.pow_pos_nonneg 10 (Z.of_nat nd)). lia. }
  do 2 eexists. split; [ reflexivity | ]. split; [ reflexivity | ].
  rewrite !Qred_correct.
  assert (Hm : round_half_even (a * p) <= round_half_even (b * p)).
  { apply round_half_even_monotone. apply Qmult_le_compat_r; lra. }
  apply Qmult_le_compat_r.
  - unfold Qle, inject_Z. cbn. lia.
  - apply Qlt_le_weak. now apply Qinv_lt_0_compat.
Qed.

(* ------------------------------------------------------------------ *)
(** ** Support and resistance *)

(** X11: On well-formed bars that fill the window, the reported support is
    never above the reported resistance. *)
Theorem find_support_resistance_ordered (bars : list Bar) (period : nat) :
  (1 <= period <= length bars)%nat ->
  Forall (fun b => bar_wf b = true) bars ->
  exists sr,
    find_support_resistance (highs bars) (lows bars) (closes bars) period = Ok sr /\
    fleb (support sr) (resistance sr) = true.
Proof.
  intros Hp Hwf.
  destruct (length_columns bars) as (Hc & Hh & Hl & _).
  destruct (bars_wf_finite bars Hwf) as (Hfh & Hfl & _ & _).
  set (i := (length bars - 1)%nat).
  assert (Hi : (i < length bars)%nat) by (subst i; lia).
  destruct (bars_wf_nth bars i Hwf Hi) as (h & l & c & v & Hhi & Hli & Hci & _ & Hlc & Hch).
  destruct (rolling_min_bound (lows bars) period i l) as (m & Hm & Hml);
    [ subst i; lia | lia | exact Hfl | exact Hli | ].
  destruct (rolling_max_bound (highs bars) period i h) as (M & HM & HhM);
    [ subst i; lia | lia | exact Hfh | exact Hhi | ].
  unfold find_support_resistance.
  rewrite !iloc_rolling by lia.
  replace (length (lows bars) - 1)%nat with i by (subst i; lia).
  replace (length (highs bars) - 1)%nat with i by (subst i; lia).
  rewrite Hm, HM.
  rewrite (iloc_last_nth (highs bars) (Fin h)) by (rewrite ?Hh, ?Hc; (lia || exact Hhi)).
  rewrite (iloc_last_nth (lows bars) (Fin l)) by (rewrite ?Hl, ?Hc; (lia || exact Hli)).
  rewrite (iloc_last_nth (closes bars) (Fin c)) by (rewrite ?Hc; (lia || exact Hci)).
  cbn [bind].
  assert (HmM : (m <= M)%Q) by lra.
  destruct (round_monotone m M 2 HmM) as (s' & r' & Hs' & Hr' & Hsr).
  eexists. split; [ reflexivity | ].
  cbn [support resistance]. rewrite Hs', Hr'. cbn [fleb].
  now apply Qle_bool_iff.
Qed.

Lemma find_support_resistance_ordered_witness :
  exists sr,
    find_support_resistance (highs (rising_market 25)) (lows (rising_market 25))
                            (closes (rising_market 25)) 20 = Ok sr /\
    fleb (support sr) (resistance sr) = true.
Proof.
  assert (Hwf : Forall (fun b => bar_wf b = true) (rising_market 25)).
  { unfold rising_market. apply Forall_map. apply Forall_forall.
    intros k _. apply flat_bar_wf. }
  assert (Hp : (1 <= 20 <= length (rising_market 25))%nat) by (cbn; lia).
  exact (find_support_resistance_ordered (rising_market 25) 20 Hp Hwf).
Defined.

(** X12: With fewer bars than the window, support and resistance are NaN while
    the pivot is still computed from the last bar; with no bar at all the
    function raises IndexError. *)
Theorem find_support_resistance_short (high low close : Series) (period : nat) :
  length high = length close -> length low = length close ->
  (1 <= length close < period)%nat ->
  (exists sr h l c,
     find_support_resistance high low close period = Ok sr /\
     support sr = NaN /\ resistance sr = NaN /\
     iloc_neg high 1 = Ok h /\ iloc_neg low 1 = Ok l /\ iloc_neg close 1 = Ok c /\
     pivot sr = round (fdiv (fadd (fadd h l) c) (of_Z 3)) 2) /\
  find_support_resistance [] [] [] period = Raise IndexError.
Proof.
  intros Hh Hl Hlen. split; [ | reflexivity ].
  unfold find_support_resistance.
  rewrite !iloc_rolling by lia.
  rewrite !rolling_at_unfilled by lia.
  destruct (iloc_neg_ok high 1) as [h Hh1]; [ lia | ].
  destruct (iloc_neg_ok low 1) as [l Hl1]; [ lia | ].
  destruct (iloc_neg_ok close 1) as [c Hc1]; [ lia | ].
  rewrite Hh1, Hl1, Hc1. cbn [bind].
  eexists _, h, l, c. repeat split.
Qed.

Lemma find_support_resistance_short_witness :
  (exists sr h l c,
     find_support_resistance [of_Z 11] [of_Z 9] [of_Z 10] 20 = Ok sr /\
     support sr = NaN /\ resistance sr = NaN /\
     iloc_neg [of_Z 11] 1 = Ok h /\ iloc_neg [of_Z 9] 1 = Ok l /\
     iloc_neg [of_Z 10] 1 = Ok c /\
     pivot sr = round (fdiv (fadd (fadd h l) c) (of_Z 3)) 2) /\
  find_support_resistance [] [] [] 20 = Raise IndexError.
Proof.
  apply (find_support_resistance_short [of_Z 11] [of_Z 9] [of_Z 10] 20 eq_refl eq_refl).
  cbn. lia.
Defined.

(* ------------------------------------------------------------------ *)
(** ** Report advice against the rating *)

Lemma technical_score_tier (m k r b t : string) :
  (rating (technical_score m k r b t), stars (technical_score m k r b t))
  = rating_tier (score (technical_score m k r b t)).
Proof.
  unfold technical_score. cbn [score rating stars].
  rewrite rating_tier_clamp. now destruct (rating_tier _).
Qed.

Lemma rating_tier_inv (rt : string) (st s : Z) :
  (rt, st) = rating_tier s ->
  (rt = "强烈买入" -> 80 <= s) /\
  (rt = "买入" -> 65 <= s < 80) /\
  (rt = "中性" -> 50 <= s < 65) /\
  (rt = "卖出" -> 35 <= s < 50) /\
  (rt = "强烈卖出" -> s < 35).
Proof.
  unfold rating_tier.
  repeat match goal with |- context [?a >=? ?b] => destruct (Z.geb_spec a b) end;
    intros Heq; injection Heq as -> ->;
    repeat split; first [ congruence | lia ].
Qed.

(** X13: The report advises buying from 70 points on, while the rating 买入
    starts at 65: a stock rated 强烈买入 is always advised as a buy, one
    rated 中性 as a watch, one rated 卖出 or 强烈卖出 as an avoid, but one
    rated 买入 with 65 points is advised as a watch, and such a score occurs. *)
Theorem stock_advice_against_rating :
  (forall m k r b t : string,
      let res := technical_score m k r b t in
      (rating res = "强烈买入" -> stock_advice (score res) = advice_buy) /\
      (rating res = "买入" ->
         (70 <= score res -> stock_advice (score res) = advice_buy) /\
         (score res < 70 -> score res = 65 /\ stock_advice (score res) = advice_watch)) /\
      (rating res = "中性" -> stock_advice (score res) = advice_watch) /\
      (rating res = "卖出" \/ rating res = "强烈卖出" ->
         stock_advice (score res) = advice_avoid)) /\
  (let res := technical_score "金叉买入" "中性震荡" "中性(50.0)" "" "震荡整理" in
   res = mkScore 65 "买入" 4 /\ stock_advice (score res) = advice_watch).
Proof.
  split; [ | split; reflexivity ].
  intros m k r b t res.
  pose proof (technical_score_tier m k r b t) as Ht. fold res in Ht.
  destruct (technical_score_grid_aux m k r b t) as (n & Hn & Hrange). fold res in Hn.
  destruct (rating_tier_inv _ _ _ Ht) as (H5 & H4 & H3 & H2 & H1).
  clear Ht. revert H5 H4 H3 H2 H1 Hn.
  generalize (score res) as s. generalize (rating res) as rt.
  intros rt s H5 H4 H3 H2 H1 Hn.
  unfold stock_advice.
  split; [ | split; [ | split ] ].
  - intros H. specialize (H5 H).
    destruct (Z.geb_spec s 70); [ reflexivity | lia ].
  - intros H. specialize (H4 H). split; intros Hs.
    + destruct (Z.geb_spec s 70); [ reflexivity | lia ].
    + split; [ lia | ].
      destruct (Z.geb_spec s 70); [ lia | ].
      destruct (Z.geb_spec s 50); [ reflexivity | lia ].
  - intros H. specialize (H3 H).
    destruct (Z.geb_spec s 70); [ lia | ].
    destruct (Z.geb_spec s 50); [ reflexivity | lia ].
  - intros H.
    assert (Hs : s < 50) by (destruct H as [H | H]; [ specialize (H2 H) | specialize (H1 H) ]; lia).
    destruct (Z.geb_spec s 70); [ lia | ].
    destruct (Z.geb_spec s 50); [ lia | reflexivity ].
Qed.

(** X14: The market summary reports a sharp fall exactly when the change of the
    first index is not above -1, a missing change included; a change of
    exactly 1, 0 or -1 falls in the lower of its two neighbouring classes. *)
Theorem market_sentiment_sharp_fall (x : fnum) :
  (market_sentiment x = market_sentiment NaN <-> fgtb x (of_Z (-1)) = false) /\
  market_sentiment (of_Z 1) = market_sentiment (Fin (1 # 2)) /\
  market_sentiment (of_Z 0) = market_sentiment (Fin (- 1 # 2)) /\
  market_sentiment (of_Z (-1)) = market_sentiment NaN.
Proof.
  split; [ | repeat split ].
  unfold market_sentiment.
  destruct (fgtb x (of_Z 1)) eqn:E1.
  { assert (fgtb x (of_Z (-1)) = true) as -> by (clear - E1; f_cases).
    split; intros H; discriminate H. }
  destruct (fgtb x (of_Z 0)) eqn:E0.
  { assert (fgtb x (of_Z (-1)) = true) as -> by (clear - E0; f_cases).
    split; intros H; discriminate H. }
  destruct (fgtb x (of_Z (-1))); cbn; split; intros H; try reflexivity; discriminate H.
Qed.

(* ------------------------------------------------------------------ *)
(** ** Index change in the overview and in the market report *)

Lemma df_len_frame_of_bars (bars : list Bar) : df_len (frame_of_bars bars) = length bars.
Proof. cbn. apply length_map. Qed.

(** X15: A one-row frame with a positive close: the overview reports the
    change +0.00% (the previous row defaults to the latest one), while the
    entry of the market report raises IndexError at [df.iloc[-2]]; an empty
    frame gives no overview row. *)
Theorem index_change_single_row (name code : string) (b : Bar) (c : Q) :
  bar_close b = Fin c -> (0 < c)%Q ->
  (exists row, overview_row name code (frame_of_bars [b]) = Ok (Some row) /\
               ov_name row = name /\ ov_code row = code /\
               ov_close row = round (Fin c) 2 /\ ov_change row = "+0.00%") /\
  report_index_item name (frame_of_bars [b]) = Raise IndexError /\
  overview_row name code (frame_of_bars []) = Ok None.
Proof.
  intros Hc Hpos. assert (Hnz : ~ (c == 0)%Q) by lra.
  split; [ | split; reflexivity ].
  unfold overview_row. cbn [df_len frame_of_bars map length Nat.ltb Nat.leb].
  unfold df_iloc_neg. cbn [df_len frame_of_bars map length Nat.ltb Nat.leb bind].
  cbn. rewrite Hc. cbn [bind].
  eexists. split; [ reflexivity | ]. cbn [ov_name ov_code ov_close ov_change].
  repeat split.
  unfold fsub. cbn [fopp fadd fdiv].
  assert (Hz : Qzerob c = false) by now apply Qzerob_false.
  rewrite Hz.
  assert (H0 : Qred (Qred (c + Qred (- c)) / c) = 0%Q).
  { apply Qred_eq_of_Qeq; [ | reflexivity ]. rewrite Qred_correct, Qred_correct. field. exact Hnz. }
  rewrite H0. reflexivity.
Qed.

Lemma index_change_single_row_witness :
  (exists row, overview_row "上证指数" "sh000001" (frame_of_bars [flat_bar 3000 1]) = Ok (Some row) /\
               ov_name row = "上证指数" /\ ov_code row = "sh000001" /\
               ov_close row = round (Fin (3000 # 1)) 2 /\ ov_change row = "+0.00%") /\
  report_index_item "上证指数" (frame_of_bars [flat_bar 3000 1]) = Raise IndexError /\
  overview_row "上证指数" "sh000001" (frame_of_bars []) = Ok None.
Proof.
  apply (index_change_single_row "上证指数" "sh000001" (flat_bar 3000 1) (3000 # 1) eq_refl).
  reflexivity.
Defined.

(** X16: From two rows on, the overview row and the market-report entry of the
    same frame carry the same change (latest close over previous close,
    minus one, in percent) and the same latest close. *)
Theorem index_change_agrees (name code : string) (bars : list Bar) :
  (2 <= length bars)%nat ->
  exists row item c1 c2,
    iloc_neg (closes bars) 1 = Ok c1 /\ iloc_neg (closes bars) 2 = Ok c2 /\
    overview_row name code (frame_of_bars bars) = Ok (Some row) /\
    report_index_item name (frame_of_bars bars) = Ok item /\
    item_change item = fmul (fdiv (fsub c1 c2) c2) (of_Z 100) /\
    ov_change row = (format_signed_2f (item_change item) ++ "%")%string /\
    ov_close row = round (item_close item) 2 /\
    ov_amount row = round (item_volume item) 2.
Proof.
  intros Hlen.
  destruct (length_columns bars) as (Hc & _ & _ & Hv).
  destruct (iloc_neg_ok (closes bars) 1) as [c1 Hc1]; [ lia | ].
  destruct (iloc_neg_ok (closes bars) 2) as [c2 Hc2]; [ lia | ].
  destruct (iloc_neg_ok (volumes bars) 1) as [v1 Hv1]; [ lia | ].
  unfold overview_row, report_index_item, df_iloc_neg.
  rewrite df_len_frame_of_bars.
  destruct (Nat.ltb_spec 0 (length bars)); [ | lia ].
  destruct (Nat.ltb_spec 1 (length bars)); [ | lia ].
  destruct (Nat.ltb_spec (length bars) 1); [ lia | ].
  destruct (Nat.ltb_spec (length bars) 2); [ lia | ].
  cbn [bind].
  change (column (frame_of_bars bars) "close") with (Ok (closes bars)).
  change (column (frame_of_bars bars) "volume") with (Ok (volumes bars)).
  cbn [bind]. rewrite Hc1, Hc2, Hv1. cbn [bind].
  eexists _, _, c1, c2. repeat split.
Qed.

Lemma index_change_agrees_witness :
  exists row item c1 c2,
    iloc_neg (closes sample_five_bars) 1 = Ok c1 /\
    iloc_neg (closes sample_five_bars) 2 = Ok c2 /\
    overview_row "上证指数" "sh000001" (frame_of_bars sample_five_bars) = Ok (Some row) /\
    report_index_item "上证指数" (frame_of_bars sample_five_bars) = Ok item /\
    item_change item = fmul (fdiv (fsub c1 c2) c2) (of_Z 100) /\
    ov_change row = (format_signed_2f (item_change item) ++ "%")%string /\
    ov_close row = round (item_close item) 2 /\
    ov_amount row = round (item_volume item) 2.
Proof.
  apply (index_change_agrees "上证指数" "sh000001" sample_five_bars). cbn. lia.
Defined.

Example overview_row_sample :
  option_map ov_change
    (match overview_row "上证指数" "sh000001" (frame_of_bars sample_five_bars) with
     | Ok r => r
     | Raise _ => None
     end) = Some "+18.18%".
Proof. reflexivity. Qed.

(** X17: [get_market_overview] lists at most one row per index: a row is present
    exactly when the fetch of its index returned a frame on which the body
    produced that row, so an index that fails or has no data drops out
    without touching the others. *)
Theorem get_market_overview_rows (fetch : string -> result DataFrame) :
  (length (get_market_overview fetch) <= 6)%nat /\
  (forall row,
      In row (get_market_overview fetch) <->
      exists name code df,
        In (name, code) market_indices /\ fetch code = Ok df /\
        overview_row name code df = Ok (Some row)) /\
  ((forall code, exists e, fetch code = Raise e) -> get_market_overview fetch = []).
Proof.
  split; [ | split ].
  - unfold get_market_overview, market_indices. cbn [flat_map].
    rewrite !length_app. cbn [length].
    repeat match goal with
      | |- context [match ?c with Ok _ => _ | Raise _ => _ end] =>
          destruct c as [[?|]|]
      end; cbn [length]; lia.
  - intros row. unfold get_market_overview. rewrite in_flat_map. split.
    + intros ((name & code) & Hin & Hrow). cbn [fst snd] in Hrow.
      destruct (fetch code) as [df | e] eqn:Ef; cbn [bind] in Hrow; [ | contradiction ].
      destruct (overview_row name code df) as [[r | ] | e] eqn:Er;
        try contradiction.
      destruct Hrow as [<- | []]. exists name, code, df. tauto.
    + intros (name & code & df & Hin & Ef & Er).
      exists (name, code). split; [ exact Hin | ]. cbn [fst snd].
      rewrite Ef. cbn [bind]. rewrite Er. now left.
  - intros Hfail. unfold get_market_overview, market_indices. cbn [flat_map fst snd].
    repeat match goal with
      | |- context [fetch ?c] =>
          let e := fresh "e" in let E := fresh "E" in
          destruct (Hfail c) as [e E]; rewrite E; clear E
      end.
    reflexivity.
Qed.

(* ------------------------------------------------------------------ *)
(** ** Stock selection *)

(** Case analysis for the order of [nsmallest]. *)
Ltac key_cases :=
  unfold key_leb in *;
  repeat match goal with x : fnum |- _ => destruct x end;
  cbn [fleb is_nan negb orb andb] in *;
  try discriminate; try reflexivity;
  q_props; try lra.

Lemma key_leb_total (x y : fnum) : key_leb x y = false -> key_leb y x = true.
Proof. intros H. key_cases. Qed.

Lemma key_leb_trans (x y z : fnum) :
  key_leb x y = true -> key_leb y z = true -> key_leb x z = true.
Proof. intros H1 H2. key_cases. Qed.

Section Sorting.
Context {A : Type} (key : A -> fnum).

Lemma insert_row_perm (a : A) (l : list A) :
  Permutation (a :: l) (insert_row key a l).
Proof.
  induction l as [ | b r IH]; cbn [insert_row]; [ reflexivity | ].
  destruct (key_leb (key a) (key b)); [ reflexivity | ].
  rewrite perm_swap. now constructor.
Qed.

Lemma sort_rows_perm (l : list A) : Permutation l (sort_rows key l).
Proof.
  induction l as [ | a l IH]; cbn; [ constructor | ].
  rewrite <- insert_row_perm. now constructor.
Qed.

Lemma insert_row_sorted (a : A) (l : list A) :
  StronglySorted (row_le key) l -> StronglySorted (row_le key) (insert_row key a l).
Proof.
  induction 1 as [ | b r Hr IH Hb]; cbn [insert_row].
  - repeat constructor.
  - destruct (key_leb (key a) (key b)) eqn:E.
    + constructor; [ now constructor | ].
      constructor; [ exact E | ].
      eapply Forall_impl; [ | exact Hb ].
      intros c Hc. unfold row_le in *. eapply key_leb_trans; eassumption.
    + constructor; [ exact IH | ].
      eapply Permutation_Forall; [ apply insert_row_perm | ].
      constructor; [ | exact Hb ].
      now apply key_leb_total.
Qed.

Lemma sort_rows_sorted (l : list A) : StronglySorted (row_le key) (sort_rows key l).
Proof.
  induction l as [ | a l IH]; cbn; [ constructor | ].
  now apply insert_row_sorted.
Qed.

Lemma StronglySorted_app_inv (l1 l2 : list A) :
  StronglySorted (row_le key) (l1 ++ l2) ->
  StronglySorted (row_le key) l1 /\
  (forall a b, In a l1 -> In b l2 -> row_le key a b).
Proof.
  induction l1 as [ | x l1 IH]; cbn.
  - intros _. split; [ constructor | intros ? ? [] ].
  - intros H. apply StronglySorted_inv in H as [Hs Hx].
    destruct (IH Hs) as [H1 H2]. rewrite Forall_app in Hx.
    destruct Hx as [Hx1 Hx2]. split.
    + now constructor.
    + intros a b [<- | Ha] Hb.
      * rewrite Forall_forall in Hx2. now apply Hx2.
      * now apply H2.
Qed.

(** What [nsmallest] returns, whatever the order among equal keys. *)
Lemma nsmallest_spec (n : nat) (l : list A) :
  length (nsmallest n key l) = Nat.min n (length l) /\
  StronglySorted (row_le key) (nsmallest n key l) /\
  exists rest,
    Permutation l (nsmallest n key l ++ rest) /\
    (forall a b, In a (nsmallest n key l) -> In b rest -> row_le key a b).
Proof.
  unfold nsmallest. split; [ | split ].
  - rewrite length_firstn. now rewrite <- (Permutation_length (sort_rows_perm l)).
  - pose proof (sort_rows_sorted l) as H.
    rewrite <- (firstn_skipn n (sort_rows key l)) in H.
    now apply StronglySorted_app_inv in H.
  - exists (skipn n (sort_rows key l)). split.
    + rewrite firstn_skipn. apply sort_rows_perm.
    + pose proof (sort_rows_sorted l) as H.
      rewrite <- (firstn_skipn n (sort_rows key l)) in H.
      now apply StronglySorted_app_inv in H.
Qed.

Lemma nsmallest_In (n : nat) (l : list A) (a : A) :
  In a (nsmallest n key l) -> In a l.
Proof.
  intros H. unfold nsmallest in H.
  eapply Permutation_in; [ symmetry; apply sort_rows_perm | ].
  rewrite <- (firstn_skipn n). apply in_or_app. now left.
Qed.
End Sorting.

(** *** Counting and ranks *)

Lemma count_disjoint_le (p q r : fnum -> bool) (l : Series) :
  (forall y, In y l -> p y = true -> q y = false) ->
  (forall y, In y l -> p y = true -> r y = true) ->
  (forall y, In y l -> q y = true -> r y = true) ->
  (count p l + count q l <= count r l)%nat.
Proof.
  unfold count. induction l as [ | a l IH]; intros Hpq Hpr Hqr; cbn [filter length]; [ lia | ].
  assert (IH' : (length (filter p l) + length (filter q l) <= length (filter r l))%nat).
  { apply IH; intros y Hy; [ apply Hpq | apply Hpr | apply Hqr ]; now right. }
  specialize (Hpq a (or_introl eq_refl)).
  specialize (Hpr a (or_introl eq_refl)).
  specialize (Hqr a (or_introl eq_refl)).
  destruct (p a), (q a), (r a); cbn [length];
    try lia; try (specialize (Hpq eq_refl)); try (specialize (Hpr eq_refl));
    try (specialize (Hqr eq_refl)); discriminate.
Qed.

Lemma count_le_length (p q : fnum -> bool) (l : Series) :
  (forall y, In y l -> p y = true -> q y = false) ->
  (count p l + count q l <= length l)%nat.
Proof.
  intros H.
  pose proof (count_disjoint_le p q (fun _ => true) l H
                (fun _ _ _ => eq_refl) (fun _ _ _ => eq_refl)) as Hc.
  unfold count in *.
  replace (filter (fun _ => true) l) with l in Hc; [ exact Hc | ].
  clear. induction l as [ | a l IH]; cbn; congruence.
Qed.

Lemma count_ext (p q : fnum -> bool) (l : Series) :
  (forall y, p y = q y) -> count p l = count q l.
Proof.
  intros H. unfold count. f_equal. apply filter_ext. exact H.
Qed.

Lemma count_pos (p : fnum -> bool) (l : Series) (x : fnum) :
  In x l -> p x = true -> (1 <= count p l)%nat.
Proof.
  intros Hx Hp. unfold count.
  assert (Hin : In x (filter p l)) by (apply filter_In; tauto).
  destruct (filter p l); [ destruct Hin | cbn; lia ].
Qed.

Lemma In_present (x : fnum) (s : Series) :
  In x (present s) <-> In x s /\ is_nan x = false.
Proof.
  unfold present. rewrite filter_In, negb_true_iff. tauto.
Qed.

Ltac rank_cases :=
  unfold ranks_before, not_after, feqb in *;
  repeat match goal with
    | b : bool |- _ => destruct b
    | x : fnum |- _ => destruct x
    end;
  cbn [fltb fleb is_nan negb orb andb] in *;
  try discriminate; try reflexivity; try tauto;
  repeat match goal with
    | H : (_ && _) = true |- _ => apply andb_true_iff in H; destruct H
    | H : (_ && _) = false |- _ => apply andb_false_iff in H; destruct H
    | |- (_ && _) = true => apply andb_true_iff; split
    end;
  q_props; try lra.

Lemma feqb_refl (x : fnum) : is_nan x = false -> feqb x x = true.
Proof. intros H. rank_cases. Qed.

Lemma ranks_before_not_tie (asc : bool) (y x : fnum) :
  ranks_before asc y x = true -> feqb y x = false.
Proof.
  intros H. destruct (feqb y x) eqn:E; [ exfalso | reflexivity ]. rank_cases.
Qed.

Lemma ranks_before_trans (asc : bool) (z x y : fnum) :
  ranks_before asc z x = true -> ranks_before asc x y = true ->
  ranks_before asc z y = true.
Proof. intros H1 H2. rank_cases. Qed.

Lemma tie_ranks_before (asc : bool) (z x y : fnum) :
  feqb z x = true -> ranks_before asc x y = true -> ranks_before asc z y = true.
Proof. intros H1 H2. rank_cases. Qed.

Lemma not_after_cases (asc : bool) (x y : fnum) :
  not_after asc x y = true -> ranks_before asc x y = true \/ feqb x y = true.
Proof.
  intros H. destruct (ranks_before asc x y) eqn:E; [ now left | right ]. rank_cases.
Qed.

Lemma feqb_ranks_before (asc : bool) (x y z : fnum) :
  feqb x y = true -> ranks_before asc z x = ranks_before asc z y.
Proof.
  intros H.
  destruct (ranks_before asc z x) eqn:E1, (ranks_before asc z y) eqn:E2;
    try reflexivity; exfalso; rank_cases.
Qed.

Lemma feqb_ties (x y z : fnum) : feqb x y = true -> feqb z x = feqb z y.
Proof.
  intros H.
  destruct (feqb z x) eqn:E1, (feqb z y) eqn:E2;
    try reflexivity; exfalso; rank_cases.
Qed.

Lemma feqb_not_nan (x y : fnum) : feqb x y = true -> is_nan x = is_nan y.
Proof. intros H. rank_cases. Qed.

Lemma rank_among_fin (asc : bool) (valid : Series) (x : fnum) :
  is_nan x = false -> (0 < length valid)%nat ->
  exists r,
    rank_among asc valid x = Fin r /\
    (r == rank_value (count (fun y => ranks_before asc y x) valid)
                     (count (fun y => feqb y x) valid) (length valid))%Q.
Proof.
  intros Hx Hn. unfold rank_among, rank_value. rewrite Hx.
  unfold of_Z. cbn [fadd fdiv].
  change (Qzerob (inject_Z 2)) with false. cbn iota. cbn [fadd fdiv].
  assert (Hz : Qzerob (inject_Z (Z.of_nat (length valid))) = false).
  { unfold Qzerob, inject_Z. cbn [Qnum]. apply Z.eqb_neq. lia. }
  rewrite Hz. eexists. split; [ reflexivity | ].
  rewrite !Qred_correct. reflexivity.
Qed.

Lemma inject_nat_le (a b : nat) :
  (a <= b)%nat -> (inject_Z (Z.of_nat a) <= inject_Z (Z.of_nat b))%Q.
Proof. intros H. rewrite <- Zle_Qle. lia. Qed.

Lemma rank_value_lt (L1 E1 L2 E2 n : nat) :
  (1 <= E1)%nat -> (L1 + E1 <= L2)%nat -> (0 < n)%nat ->
  (rank_value L1 E1 n < rank_value L2 E2 n)%Q.
Proof.
  intros HE HL Hn. unfold rank_value.
  assert (Hn' : (0 < inject_Z (Z.of_nat n))%Q).
  { change 0%Q with (inject_Z 0). rewrite <- Zlt_Qlt. lia. }
  pose proof (inject_nat_le 1 E1 HE) as H1.
  pose proof (inject_nat_le (L1 + E1) L2 HL) as H2.
  pose proof (inject_nat_le 0 E2 (Nat.le_0_l _)) as H3.
  rewrite Nat2Z.inj_add, inject_Z_plus in H2.
  rewrite !inject_Z_plus.
  change (inject_Z (Z.of_nat 1)) with 1%Q in H1.
  change (inject_Z (Z.of_nat 0)) with 0%Q in H3.
  change (inject_Z 1) with 1%Q.
  set (l1 := inject_Z (Z.of_nat L1)) in *. set (e1 := inject_Z (Z.of_nat E1)) in *.
  set (l2 := inject_Z (Z.of_nat L2)) in *. set (e2 := inject_Z (Z.of_nat E2)) in *.
  set (m := inject_Z (Z.of_nat n)) in *.
  apply Qmult_lt_compat_r; [ now apply Qinv_lt_0_compat | ].
  clearbody l1 e1 l2 e2 m. unfold Qdiv. change (/ 2)%Q with (1 # 2)%Q. lra.
Qed.

Lemma rank_value_range (L E n : nat) :
  (1 <= E)%nat -> (L + E <= n)%nat ->
  (0 < rank_value L E n /\ rank_value L E n <= 1)%Q.
Proof.
  intros HE HL. unfold rank_value.
  assert (Hn' : (0 < inject_Z (Z.of_nat n))%Q).
  { change 0%Q with (inject_Z 0). rewrite <- Zlt_Qlt. lia. }
  pose proof (inject_nat_le 1 E HE) as H1.
  pose proof (inject_nat_le (L + E) n HL) as H2.
  pose proof (inject_nat_le 0 L (Nat.le_0_l _)) as H3.
  rewrite Nat2Z.inj_add, inject_Z_plus in H2.
  rewrite !inject_Z_plus.
  change (inject_Z (Z.of_nat 1)) with 1%Q in H1.
  change (inject_Z (Z.of_nat 0)) with 0%Q in H3.
  change (inject_Z 1) with 1%Q.
  set (l := inject_Z (Z.of_nat L)) in *. set (e := inject_Z (Z.of_nat E)) in *.
  set (m := inject_Z (Z.of_nat n)) in *.
  clearbody l e m. unfold Qdiv at 2 4. change (/ 2)%Q with (1 # 2)%Q.
  split.
  - apply Qlt_shift_div_l; [ exact Hn' | ]. lra.
  - apply Qle_shift_div_r; [ exact Hn' | ]. lra.
Qed.

Lemma rank_among_range (asc : bool) (valid : Series) (x : fnum) :
  In x valid -> is_nan x = false ->
  exists r, rank_among asc valid x = Fin r /\ (0 < r)%Q /\ (r <= 1)%Q.
Proof.
  intros Hin Hx.
  assert (Hn : (0 < length valid)%nat) by (destruct valid; [ destruct Hin | cbn; lia ]).
  destruct (rank_among_fin asc valid x Hx Hn) as (r & Hr & Hv).
  exists r. split; [ exact Hr | ]. rewrite Hv.
  apply rank_value_range.
  - apply (count_pos _ _ x Hin). now apply feqb_refl.
  - apply count_le_length. intros y _. apply ranks_before_not_tie.
Qed.

Lemma rank_among_lt (asc : bool) (valid : Series) (x y : fnum) :
  In x valid -> is_nan x = false -> is_nan y = false ->
  ranks_before asc x y = true ->
  exists rx ry,
    rank_among asc valid x = Fin rx /\ rank_among asc valid y = Fin ry /\
    (rx < ry)%Q.
Proof.
  intros Hin Hx Hy Hlt.
  assert (Hn : (0 < length valid)%nat) by (destruct valid; [ destruct Hin | cbn; lia ]).
  destruct (rank_among_fin asc valid x Hx Hn) as (rx & Hrx & Hvx).
  destruct (rank_among_fin asc valid y Hy Hn) as (ry & Hry & Hvy).
  exists rx, ry. split; [ exact Hrx | split; [ exact Hry | ] ].
  rewrite Hvx, Hvy. apply rank_value_lt.
  - apply (count_pos _ _ x Hin). now apply feqb_refl.
  - apply count_disjoint_le.
    + intros z _. apply ranks_before_not_tie.
    + intros z _ Hz. eapply ranks_before_trans; eassumption.
    + intros z _ Hz. eapply tie_ranks_before; eassumption.
  - exact Hn.
Qed.

Lemma rank_among_tie (asc : bool) (valid : Series) (x y : fnum) :
  feqb x y = true -> rank_among asc valid x = rank_among asc valid y.
Proof.
  intros H. unfold rank_among. rewrite (feqb_not_nan x y H).
  rewrite (count_ext (fun z => ranks_before asc z x) (fun z => ranks_before asc z y))
    by (intros z; now apply feqb_ranks_before).
  rewrite (count_ext (fun z => feqb z x) (fun z => feqb z y))
    by (intros z; now apply feqb_ties).
  reflexivity.
Qed.

(** The ranks of two rows on one factor follow the order of their values. *)
Lemma factor_rank_cmp (asc : bool) (col : Quote -> fnum) (df : list Quote) (a b : Quote) :
  In a df -> In b df -> has_value col a -> has_value col b ->
  not_after asc (col a) (col b) = true ->
  exists ra rb,
    factor_rank asc col df a = Fin ra /\ factor_rank asc col df b = Fin rb /\
    (0 < ra)%Q /\ (ra <= rb)%Q /\ (rb <= 1)%Q /\
    (ranks_before asc (col a) (col b) = true -> (ra < rb)%Q).
Proof.
  intros Ha Hb Hva Hvb Hle. unfold has_value in *. unfold factor_rank.
  set (valid := present (map col df)).
  assert (Hina : In (col a) valid).
  { apply In_present. split; [ now apply in_map | exact Hva ]. }
  assert (Hinb : In (col b) valid).
  { apply In_present. split; [ now apply in_map | exact Hvb ]. }
  destruct (rank_among_range asc valid (col a) Hina Hva) as (ra & Hra & Ha0 & Ha1).
  destruct (rank_among_range asc valid (col b) Hinb Hvb) as (rb & Hrb & Hb0 & Hb1).
  exists ra, rb. split; [ exact Hra | split; [ exact Hrb | ] ].
  assert (Hlt : ranks_before asc (col a) (col b) = true -> (ra < rb)%Q).
  { intros Hs.
    destruct (rank_among_lt asc valid (col a) (col b) Hina Hva Hvb Hs)
      as (ra' & rb' & Hra' & Hrb' & Hc).
    rewrite Hra in Hra'. rewrite Hrb in Hrb'.
    injection Hra' as <-. injection Hrb' as <-. exact Hc. }
  repeat split; try assumption.
  destruct (not_after_cases asc _ _ Hle) as [Hs | He].
  - apply Qlt_le_weak. now apply Hlt.
  - pose proof (rank_among_tie asc valid _ _ He) as Heq.
    rewrite Hra, Hrb in Heq. injection Heq as <-. apply Qle_refl.
Qed.

(** *** Scores row by row *)

Lemma zip_with_map_same {A : Type} (f : fnum -> fnum -> fnum) (g h : A -> fnum) (l : list A) :
  zip_with f (map g l) (map h l) = map (fun x => f (g x) (h x)) l.
Proof.
  unfold zip_with. induction l as [ | a l IH]; cbn; [ reflexivity | ].
  now rewrite IH.
Qed.

Lemma combine_map_same {A B : Type} (f : A -> B) (l : list A) :
  combine l (map f l) = map (fun x => (x, f x)) l.
Proof. induction l as [ | a l IH]; cbn; [ reflexivity | now rewrite IH ]. Qed.

Lemma rank_pct_rows (asc : bool) (col : Quote -> fnum) (df : list Quote) :
  rank_pct asc (map col df) = map (factor_rank asc col df) df.
Proof. unfold rank_pct. now rewrite map_map. Qed.

Lemma value_scores_rows (df : list Quote) :
  value_scores df = map (value_score_of df) df.
Proof.
  unfold value_scores, s_add, s_scale. rewrite !rank_pct_rows, !map_map.
  now rewrite zip_with_map_same.
Qed.

Lemma momentum_scores_rows (df : list Quote) :
  momentum_scores df = map (momentum_score_of df) df.
Proof.
  unfold momentum_scores, s_add, s_scale. rewrite !rank_pct_rows, !map_map.
  now rewrite zip_with_map_same.
Qed.

Lemma breakout_scores_rows (df : list Quote) :
  breakout_scores df = map (breakout_score_of df) df.
Proof.
  unfold breakout_scores, s_add, s_scale. rewrite !rank_pct_rows, !map_map.
  now rewrite !zip_with_map_same.
Qed.

Lemma quality_scores_rows (df : list Quote) :
  quality_scores df = map (quality_score_of df) df.
Proof.
  unfold quality_scores, s_add, s_scale. rewrite !rank_pct_rows, !map_map.
  now rewrite zip_with_map_same.
Qed.

Lemma fleb_has_values (x y : fnum) :
  fleb x y = true -> is_nan x = false /\ is_nan y = false.
Proof. intros H. split; rank_cases. Qed.

(** A row the selection keeps is never beaten by one it leaves out. *)
Lemma nsmallest_keeps_better {A : Type} (key : A -> fnum) (n : nat) (l : list A)
      (a b : A) (sa sb : Q) :
  In a l -> key a = Fin sa -> key b = Fin sb -> (sa < sb)%Q ->
  In b (nsmallest n key l) -> In a (nsmallest n key l).
Proof.
  intros Ha Hka Hkb Hlt Hb.
  destruct (nsmallest_spec key n l) as (_ & _ & rest & Hperm & Hdom).
  assert (Ha' : In a (nsmallest n key l ++ rest)) by (eapply Permutation_in; eassumption).
  apply in_app_or in Ha' as [Hres | Hrest]; [ exact Hres | exfalso ].
  specialize (Hdom b a Hb Hrest). unfold row_le in Hdom.
  rewrite Hka, Hkb in Hdom. unfold key_leb in Hdom. cbn in Hdom.
  q_props. lra.
Qed.

(** The weighted sum of two ranks. *)
Lemma weighted_pair_lt (ra rb ra' rb' w w' : Q) :
  (0 < w)%Q -> (0 < w')%Q -> (w + w' == 1)%Q ->
  (0 < ra)%Q -> (ra <= rb)%Q -> (rb <= 1)%Q ->
  (0 < ra')%Q -> (ra' <= rb')%Q -> (rb' <= 1)%Q ->
  (ra < rb)%Q \/ (ra' < rb')%Q ->
  exists sa sb,
    fadd (fmul (Fin ra) (Fin w)) (fmul (Fin ra') (Fin w')) = Fin sa /\
    fadd (fmul (Fin rb) (Fin w)) (fmul (Fin rb') (Fin w')) = Fin sb /\
    (0 < sa)%Q /\ (sa < sb)%Q /\ (sb <= 1)%Q.
Proof.
  intros Hw Hw' Hsum H1 H2 H3 H4 H5 H6 Hs.
  eexists. eexists. split; [ reflexivity | split; [ reflexivity | ] ].
  rewrite !Qred_correct.
  assert (Ha : (0 < ra * w)%Q) by nra.
  assert (Ha' : (0 < ra' * w')%Q) by nra.
  assert (Hb : (ra * w <= rb * w)%Q) by nra.
  assert (Hb' : (ra' * w' <= rb' * w')%Q) by nra.
  assert (Hc : (rb * w <= w)%Q) by nra.
  assert (Hc' : (rb' * w' <= w')%Q) by nra.
  repeat split; try lra.
  destruct Hs as [Hs | Hs]; [ assert (ra * w < rb * w)%Q by nra | assert (ra' * w' < rb' * w')%Q by nra ]; lra.
Qed.

(** Two factors with weights summing to one: a row that is no later than
    another on both, and strictly before on one, has the strictly lower
    score. *)
Lemma two_factor_dominance (asc1 asc2 : bool) (c1 c2 : Quote -> fnum) (w1 w2 : Q)
      (df : list Quote) (a b : Quote) :
  (0 < w1)%Q -> (0 < w2)%Q -> (w1 + w2 == 1)%Q ->
  In a df -> In b df ->
  not_after asc1 (c1 a) (c1 b) = true ->
  not_after asc2 (c2 a) (c2 b) = true ->
  ranks_before asc1 (c1 a) (c1 b) = true \/ ranks_before asc2 (c2 a) (c2 b) = true ->
  exists sa sb,
    fadd (fmul (factor_rank asc1 c1 df a) (Fin w1))
         (fmul (factor_rank asc2 c2 df a) (Fin w2)) = Fin sa /\
    fadd (fmul (factor_rank asc1 c1 df b) (Fin w1))
         (fmul (factor_rank asc2 c2 df b) (Fin w2)) = Fin sb /\
    (0 < sa)%Q /\ (sa < sb)%Q /\ (sb <= 1)%Q.
Proof.
  intros Hw1 Hw2 Hsum Ha Hb H1 H2 Hs.
  assert (Hv1 : has_value c1 a /\ has_value c1 b).
  { unfold has_value. destruct asc1; cbn [not_after] in H1;
      apply fleb_has_values in H1; tauto. }
  assert (Hv2 : has_value c2 a /\ has_value c2 b).
  { unfold has_value. destruct asc2; cbn [not_after] in H2;
      apply fleb_has_values in H2; tauto. }
  destruct Hv1 as [Hv1a Hv1b]. destruct Hv2 as [Hv2a Hv2b].
  destruct (factor_rank_cmp asc1 c1 df a b Ha Hb Hv1a Hv1b H1)
    as (ra & rb & -> & -> & Ha0 & Hab & Hb1 & Hlt).
  destruct (factor_rank_cmp asc2 c2 df a b Ha Hb Hv2a Hv2b H2)
    as (ra' & rb' & -> & -> & Ha0' & Hab' & Hb1' & Hlt').
  apply weighted_pair_lt; try assumption.
  destruct Hs as [Hs | Hs]; [ left; now apply Hlt | right; now apply Hlt' ].
Qed.

(** [implied_roe] falls as PE x PB rises, on non-negative products. *)
Lemma implied_roe_antitone (x y : fnum) :
  fleb (of_Z 0) x = true -> fleb x y = true ->
  fleb (fdiv (of_Z 1) (fadd y (Fin (1 # 100))))
       (fdiv (of_Z 1) (fadd x (Fin (1 # 100)))) = true /\
  (fltb x y = true ->
   fltb (fdiv (of_Z 1) (fadd y (Fin (1 # 100))))
        (fdiv (of_Z 1) (fadd x (Fin (1 # 100)))) = true).
Proof.
  intros H0 Hxy. unfold of_Z in *.
  destruct x as [ | | | qx], y as [ | | | qy]; cbn [fleb] in H0, Hxy; try discriminate.
  - split; [ reflexivity | discriminate ].
  - apply Qle_bool_iff in H0. change (inject_Z 0) with 0%Q in H0.
    cbn [fadd fdiv].
    assert (Hd : (0 < Qred (qx + (1 # 100)))%Q) by (rewrite Qred_correct; lra).
    assert (Qzerob (Qred (qx + (1 # 100))) = false) as ->
        by (apply Qzerob_false; lra).
    cbn [fleb fltb].
    assert (Hp : (0 < Qred (inject_Z 1 / Qred (qx + (1 # 100))))%Q).
    { rewrite Qred_correct. apply Qlt_shift_div_l; [ exact Hd | ].
      change (inject_Z 1) with 1%Q. lra. }
    split; [ apply Qle_bool_iff; lra | intros _; apply Qltb_true; exact Hp ].
  - apply Qle_bool_iff in H0, Hxy. change (inject_Z 0) with 0%Q in H0.
    cbn [fadd fdiv].
    assert (Hdx : (0 < Qred (qx + (1 # 100)))%Q) by (rewrite Qred_correct; lra).
    assert (Hdy : (0 < Qred (qy + (1 # 100)))%Q) by (rewrite Qred_correct; lra).
    assert (Qzerob (Qred (qx + (1 # 100))) = false) as ->
        by (apply Qzerob_false; lra).
    assert (Qzerob (Qred (qy + (1 # 100))) = false) as ->
        by (apply Qzerob_false; lra).
    cbn [fleb fltb].
    set (dx := Qred (qx + (1 # 100))) in *. set (dy := Qred (qy + (1 # 100))) in *.
    assert (Hle : (dx <= dy)%Q) by (subst dx dy; rewrite !Qred_correct; lra).
    change (inject_Z 1) with 1%Q. unfold Qdiv.
    split.
    + apply Qle_bool_iff. rewrite !Qred_correct, !Qmult_1_l.
      apply Qnot_lt_le. intros Hc.
      apply (Qinv_lt_contravar dy dx Hdy Hdx) in Hc. lra.
    + intros Hlt. apply Qltb_true in Hlt. apply Qltb_true.
      rewrite !Qred_correct, !Qmult_1_l.
      apply (Qinv_lt_contravar dx dy Hdx Hdy).
      subst dx dy. rewrite !Qred_correct. lra.
Qed.

(** *** The strategies *)

Lemma selection_of_rows {A : Type} (f : Quote -> A) (key : A -> fnum) (n : nat)
      (df : list Quote) :
  length (nsmallest n key (map f df)) = Nat.min n (length df) /\
  (forall row, In row (nsmallest n key (map f df)) -> exists q, In q df /\ row = f q) /\
  StronglySorted (row_le key) (nsmallest n key (map f df)).
Proof.
  destruct (nsmallest_spec key n (map f df)) as (Hlen & Hsorted & _).
  rewrite length_map in Hlen. split; [ exact Hlen | split; [ | exact Hsorted ] ].
  intros row Hrow. apply nsmallest_In in Hrow. apply in_map_iff in Hrow.
  destruct Hrow as (q & <- & Hq). now exists q.
Qed.

Lemma strategy_value_rows (df : list Quote) (top_n : nat) :
  strategy_value df top_n =
  nsmallest top_n snd (map (fun q => (q, value_score_of df q)) df).
Proof.
  unfold strategy_value. now rewrite value_scores_rows, combine_map_same.
Qed.

Lemma strategy_momentum_rows (df : list Quote) (top_n : nat) :
  strategy_momentum df top_n =
  nsmallest top_n snd (map (fun q => (q, momentum_score_of df q)) df).
Proof.
  unfold strategy_momentum. now rewrite momentum_scores_rows, combine_map_same.
Qed.

Lemma strategy_quality_rows (df : list Quote) (top_n : nat) :
  strategy_quality df top_n =
  nsmallest top_n snd (map (fun q => (q, implied_roe q, quality_score_of df q)) df).
Proof.
  unfold strategy_quality.
  rewrite quality_scores_rows, combine_map_same.
  f_equal. induction df as [ | q l IH]; cbn; [ reflexivity | ].
  f_equal. revert IH. generalize (quality_score_of (q :: l)).
  generalize (quality_score_of l) at 1. intros _ g _.
  clear. induction l as [ | a l IH]; cbn; [ reflexivity | now rewrite IH ].
Qed.

(** X18: [strategy_value], [strategy_momentum] and [strategy_quality] return
    [min(top_n, len(df))] rows of the table, each with the score its own
    factor values give against the whole table, in ascending order of the
    score with missing scores last. *)
Theorem strategy_selection_shape (df : list Quote) (top_n : nat) :
  (length (strategy_value df top_n) = Nat.min top_n (length df) /\
   (forall row, In row (strategy_value df top_n) ->
                In (fst row) df /\ snd row = value_score_of df (fst row)) /\
   StronglySorted (row_le snd) (strategy_value df top_n)) /\
  (length (strategy_momentum df top_n) = Nat.min top_n (length df) /\
   (forall row, In row (strategy_momentum df top_n) ->
                In (fst row) df /\ snd row = momentum_score_of df (fst row)) /\
   StronglySorted (row_le snd) (strategy_momentum df top_n)) /\
  (length (strategy_quality df top_n) = Nat.min top_n (length df) /\
   (forall row, In row (strategy_quality df top_n) ->
                In (fst (fst row)) df /\
                snd (fst row) = implied_roe (fst (fst row)) /\
                snd row = quality_score_of df (fst (fst row))) /\
   StronglySorted (row_le snd) (strategy_quality df top_n)).
Proof.
  rewrite strategy_value_rows, strategy_momentum_rows, strategy_quality_rows.
  split; [ | split ].
  - destruct (selection_of_rows (fun q => (q, value_score_of df q)) snd top_n df)
      as (Hl & Hr & Hs).
    split; [ exact Hl | split; [ | exact Hs ] ].
    intros row Hrow. destruct (Hr row Hrow) as (q & Hq & ->). now split.
  - destruct (selection_of_rows (fun q => (q, momentum_score_of df q)) snd top_n df)
      as (Hl & Hr & Hs).
    split; [ exact Hl | split; [ | exact Hs ] ].
    intros row Hrow. destruct (Hr row Hrow) as (q & Hq & ->). now split.
  - destruct (selection_of_rows (fun q => (q, implied_roe q, quality_score_of df q))
                                snd top_n df) as (Hl & Hr & Hs).
    split; [ exact Hl | split; [ | exact Hs ] ].
    intros row Hrow. destruct (Hr row Hrow) as (q & Hq & ->). now repeat split.
Qed.

(** X19: [strategy_value] prefers the cheaper stock: a row whose PE and PB
    are both no higher than another row's, one of them strictly lower, has
    the strictly lower [value_score] (both scores lie in (0, 1]), so
    whenever the other row is selected this one is selected too. *)
Theorem strategy_value_dominance (df : list Quote) (top_n : nat) (a b : Quote) :
  In a df -> In b df ->
  fleb (q_pe a) (q_pe b) = true -> fleb (q_pb a) (q_pb b) = true ->
  fltb (q_pe a) (q_pe b) = true \/ fltb (q_pb a) (q_pb b) = true ->
  exists sa sb,
    value_score_of df a = Fin sa /\ value_score_of df b = Fin sb /\
    (0 < sa)%Q /\ (sa < sb)%Q /\ (sb <= 1)%Q /\
    (In (b, Fin sb) (strategy_value df top_n) ->
     In (a, Fin sa) (strategy_value df top_n)).
Proof.
  intros Ha Hb Hpe Hpb Hs.
  destruct (two_factor_dominance true true q_pe q_pb (1 # 2) (1 # 2) df a b)
    as (sa & sb & Hsa & Hsb & H0 & Hlt & H1);
    try assumption; try reflexivity.
  exists sa, sb. fold (value_score_of df a) in Hsa. fold (value_score_of df b) in Hsb.
  repeat (split; [ assumption | ]).
  rewrite strategy_value_rows.
  apply (nsmallest_keeps_better snd top_n _ (a, Fin sa) (b, Fin sb) sa sb);
    try reflexivity; try assumption.
  apply in_map_iff. exists a. now rewrite Hsa.
Qed.

Lemma strategy_value_dominance_witness :
  exists sa sb,
    value_score_of sample_quotes quote_a = Fin sa /\
    value_score_of sample_quotes quote_b = Fin sb /\
    (0 < sa)%Q /\ (sa < sb)%Q /\ (sb <= 1)%Q /\
    (In (quote_b, Fin sb) (strategy_value sample_quotes 1) ->
     In (quote_a, Fin sa) (strategy_value sample_quotes 1)).
Proof.
  apply (strategy_value_dominance sample_quotes 1 quote_a quote_b).
  - right. now left.
  - now left.
  - reflexivity.
  - reflexivity.
  - now left.
Defined.

(** X20: [strategy_momentum] prefers the larger rise and, on the turnover
    factor, the LOWER turnover: a row that rose at least as much as another
    with a turnover no higher, one of the two strictly, has the strictly
    lower [momentum_score], and is selected whenever the other is. *)
Theorem strategy_momentum_dominance (df : list Quote) (top_n : nat) (a b : Quote) :
  In a df -> In b df ->
  fleb (q_pct_chg b) (q_pct_chg a) = true ->
  fleb (q_turnover a) (q_turnover b) = true ->
  fltb (q_pct_chg b) (q_pct_chg a) = true \/ fltb (q_turnover a) (q_turnover b) = true ->
  exists sa sb,
    momentum_score_of df a = Fin sa /\ momentum_score_of df b = Fin sb /\
    (0 < sa)%Q /\ (sa < sb)%Q /\ (sb <= 1)%Q /\
    (In (b, Fin sb) (strategy_momentum df top_n) ->
     In (a, Fin sa) (strategy_momentum df top_n)).
Proof.
  intros Ha Hb Hpct Hto Hs.
  destruct (two_factor_dominance false true q_pct_chg q_turnover (7 # 10) (3 # 10) df a b)
    as (sa & sb & Hsa & Hsb & H0 & Hlt & H1);
    try assumption; try reflexivity.
  exists sa, sb.
  fold (momentum_score_of df a) in Hsa. fold (momentum_score_of df b) in Hsb.
  repeat (split; [ assumption | ]).
  rewrite strategy_momentum_rows.
  apply (nsmallest_keeps_better snd top_n _ (a, Fin sa) (b, Fin sb) sa sb);
    try reflexivity; try assumption.
  apply in_map_iff. exists a. now rewrite Hsa.
Qed.

Lemma strategy_momentum_dominance_witness :
  exists sa sb,
    momentum_score_of sample_quotes quote_a = Fin sa /\
    momentum_score_of sample_quotes quote_b = Fin sb /\
    (0 < sa)%Q /\ (sa < sb)%Q /\ (sb <= 1)%Q /\
    (In (quote_b, Fin sb) (strategy_momentum sample_quotes 1) ->
     In (quote_a, Fin sa) (strategy_momentum sample_quotes 1)).
Proof.
  apply (strategy_momentum_dominance sample_quotes 1 quote_a quote_b).
  - right. now left.
  - now left.
  - reflexivity.
  - reflexivity.
  - now left.
Defined.

(** X21: [strategy_quality] prefers the SMALLER market value among rows that
    are no worse on PE x PB: with non-negative products, a row whose PE x PB
    is no higher than another row's and whose 总市值 is strictly lower has an
    implied ROE that is no lower and the strictly lower [quality_score], and
    is selected whenever the other is. *)
Theorem strategy_quality_dominance (df : list Quote) (top_n : nat) (a b : Quote) :
  In a df -> In b df ->
  fleb (of_Z 0) (fmul (q_pe a) (q_pb a)) = true ->
  fleb (fmul (q_pe a) (q_pb a)) (fmul (q_pe b) (q_pb b)) = true ->
  fltb (q_total_cap a) (q_total_cap b) = true ->
  exists sa sb,
    quality_score_of df a = Fin sa /\ quality_score_of df b = Fin sb /\
    (0 < sa)%Q /\ (sa < sb)%Q /\ (sb <= 1)%Q /\
    fleb (implied_roe b) (implied_roe a) = true /\
    (In (b, implied_roe b, Fin sb) (strategy_quality df top_n) ->
     In (a, implied_roe a, Fin sa) (strategy_quality df top_n)).
Proof.
  intros Ha Hb H0 Hprod Hs.
  assert (Hcap : fleb (q_total_cap a) (q_total_cap b) = true).
  { revert Hs. generalize (q_total_cap a) (q_total_cap b). intros x y Hs. f_cases. }
  destruct (implied_roe_antitone _ _ H0 Hprod) as [Hroe _].
  fold (implied_roe a) in Hroe. fold (implied_roe b) in Hroe.
  destruct (two_factor_dominance false true implied_roe q_total_cap (7 # 10) (3 # 10) df a b)
    as (sa & sb & Hsa & Hsb & Hpos & Hlt & H1);
    try assumption; try reflexivity.
  { now right. }
  exists sa, sb.
  fold (quality_score_of df a) in Hsa. fold (quality_score_of df b) in Hsb.
  repeat (split; [ assumption | ]).
  rewrite strategy_quality_rows.
  apply (nsmallest_keeps_better snd top_n _ (a, implied_roe a, Fin sa)
                                (b, implied_roe b, Fin sb) sa sb);
    try reflexivity; try assumption.
  apply in_map_iff. exists a. now rewrite Hsa.
Qed.

Lemma strategy_quality_dominance_witness :
  exists sa sb,
    quality_score_of sample_quotes quote_a = Fin sa /\
    quality_score_of sample_quotes quote_b = Fin sb /\
    (0 < sa)%Q /\ (sa < sb)%Q /\ (sb <= 1)%Q /\
    fleb (implied_roe quote_b) (implied_roe quote_a) = true /\
    (In (quote_b, implied_roe quote_b, Fin sb) (strategy_quality sample_quotes 1) ->
     In (quote_a, implied_roe quote_a, Fin sa) (strategy_quality sample_quotes 1)).
Proof.
  apply (strategy_quality_dominance sample_quotes 1 quote_a quote_b).
  - right. now left.
  - now left.
  - reflexivity.
  - reflexivity.
  - reflexivity.
Defined.

Lemma filter_map_rows {A B : Type} (f : A -> B) (p : B -> bool) (l : list A) :
  filter p (map f l) = map f (filter (fun x => p (f x)) l).
Proof.
  induction l as [ | a l IH]; cbn; [ reflexivity | ].
  destruct (p (f a)); cbn; now rewrite IH.
Qed.

Lemma strategy_breakout_rows (df : list Quote) (top_n : nat) :
  strategy_breakout df top_n =
  nsmallest top_n snd
    (map (fun q => (q, breakout_score_of df q)) (filter breakout_mask df)).
Proof.
  unfold strategy_breakout.
  rewrite breakout_scores_rows, combine_map_same, filter_map_rows.
  reflexivity.
Qed.

(** X22: [strategy_breakout] returns only rows with 量比 > 1.5 and 涨跌幅 > 2,
    [min(top_n, number of such rows)] of them in ascending order of
    [breakout_score]; the score of a row is the one its ranks in the WHOLE
    table give, the mask being applied after the ranking; when no row passes
    the mask the result is empty. *)
Theorem strategy_breakout_selection (df : list Quote) (top_n : nat) :
  (forall row,
      In row (strategy_breakout df top_n) ->
      In (fst row) df /\
      snd row = breakout_score_of df (fst row) /\
      fgtb (q_vol_ratio (fst row)) (Fin (3 # 2)) = true /\
      fgtb (q_pct_chg (fst row)) (of_Z 2) = true) /\
  length (strategy_breakout df top_n)
  = Nat.min top_n (length (filter breakout_mask df)) /\
  StronglySorted (row_le snd) (strategy_breakout df top_n) /\
  ((forall q, In q df -> breakout_mask q = false) -> strategy_breakout df top_n = []).
Proof.
  rewrite strategy_breakout_rows.
  destruct (selection_of_rows (fun q => (q, breakout_score_of df q)) snd top_n
                              (filter breakout_mask df)) as (Hl & Hr & Hs).
  split; [ | split; [ exact Hl | split; [ exact Hs | ] ] ].
  - intros row Hrow. destruct (Hr row Hrow) as (q & Hq & ->). cbn [fst snd].
    apply filter_In in Hq as [Hq Hm]. unfold breakout_mask in Hm.
    apply andb_true_iff in Hm. tauto.
  - intros Hnone.
    assert (E : filter breakout_mask df = []).
    { clear - Hnone. induction df as [ | q l IH]; cbn; [ reflexivity | ].
      rewrite (Hnone q (or_introl eq_refl)). apply IH.
      intros q' Hq'. apply Hnone. now right. }
    rewrite E. cbn. now destruct top_n.
Qed.

Lemma stock_pool_filter_In (df : list Quote) (q : Quote) :
  In q (stock_pool_filter df) <->
  In q df /\
  contains "ST" (q_name q) = false /\ contains "退" (q_name q) = false /\
  (exists pct, q_pct_chg q = Fin pct /\ (- (99 # 10) < pct)%Q /\ (pct < 99 # 10)%Q) /\
  fltb (of_Z 0) (q_turnover q) = true /\
  fltb (of_Z 0) (q_pe q) = true.
Proof.
  unfold stock_pool_filter. rewrite !filter_In, negb_true_iff, orb_false_iff.
  unfold fgtb.
  assert (Hpct : fltb (q_pct_chg q) (Fin (99 # 10)) = true /\
                 fltb (Fin (- 99 # 10)) (q_pct_chg q) = true <->
                 exists pct, q_pct_chg q = Fin pct /\
                             (- (99 # 10) < pct)%Q /\ (pct < 99 # 10)%Q).
  { destruct (q_pct_chg q) as [ | | | pct]; cbn [fltb].
    - split; [ intros [? _]; discriminate | intros (? & ? & _); discriminate ].
    - split; [ intros [? _]; discriminate | intros (? & ? & _); discriminate ].
    - split; [ intros [_ ?]; discriminate | intros (? & ? & _); discriminate ].
    - rewrite !Qltb_true. split.
      + intros [H1 H2]. exists pct. repeat split; [ | exact H1 ].
        change (- (99 # 10))%Q with (- 99 # 10)%Q. exact H2.
      + intros (p & Hp & H1 & H2). injection Hp as <-. split; [ exact H2 | ].
        change (- 99 # 10)%Q with (- (99 # 10))%Q. exact H1. }
  tauto.
Qed.

(** X23: The pool of [get_stock_pool] holds exactly the fetched rows whose
    name has neither ST nor 退, whose 涨跌幅 is a finite number strictly
    between -9.9 and 9.9, and whose 换手率 and 市盈率-动态 are strictly
    positive, so a row with one of the three values missing is never in the
    pool; filtering the pool again changes nothing. *)
Theorem stock_pool_filter_spec (df : list Quote) :
  (forall q,
      In q (stock_pool_filter df) <->
      In q df /\
      contains "ST" (q_name q) = false /\ contains "退" (q_name q) = false /\
      (exists pct, q_pct_chg q = Fin pct /\ (- (99 # 10) < pct)%Q /\ (pct < 99 # 10)%Q) /\
      fltb (of_Z 0) (q_turnover q) = true /\
      fltb (of_Z 0) (q_pe q) = true) /\
  (forall q,
      In q df ->
      is_nan (q_pct_chg q) || is_nan (q_turnover q) || is_nan (q_pe q) = true ->
      ~ In q (stock_pool_filter df)) /\
  stock_pool_filter (stock_pool_filter df) = stock_pool_filter df.
Proof.
  split; [ | split ].
  - intros q. apply stock_pool_filter_In.
  - intros q _ Hnan Hin. apply stock_pool_filter_In in Hin.
    destruct Hin as (_ & _ & _ & (pct & Hp & _) & Ht & He).
    rewrite Hp in Hnan. cbn [is_nan orb] in Hnan.
    destruct (q_turnover q), (q_pe q); cbn in Hnan, Ht, He; discriminate.
  - set (pool := stock_pool_filter df).
    assert (Hall : forall q, In q pool -> In q (stock_pool_filter df)) by (intros; assumption).
    clearbody pool. unfold stock_pool_filter at 1.
    assert (Hkeep : forall (p : Quote -> bool) (l : list Quote),
               (forall q, In q l -> p q = true) -> filter p l = l).
    { intros p l H. induction l as [ | a l IH]; cbn; [ reflexivity | ].
      rewrite (H a (or_introl eq_refl)). f_equal. apply IH.
      intros q Hq. apply H. now right. }
    assert (Hq : forall q, In q pool ->
               negb (contains "ST" (q_name q) || contains "退" (q_name q)) = true /\
               fltb (q_pct_chg q) (Fin (99 # 10)) = true /\
               fgtb (q_pct_chg q) (Fin (- 99 # 10)) = true /\
               fgtb (q_turnover q) (of_Z 0) = true /\
               fgtb (q_pe q) (of_Z 0) = true).
    { intros q Hin. apply Hall in Hin. unfold stock_pool_filter in Hin.
      rewrite !filter_In in Hin. tauto. }
    cbv zeta.
    repeat (rewrite (Hkeep _ pool) by (intros q Hin; apply Hq in Hin; tauto)).
    reflexivity.
Qed.

(** X24: The breakout picks of [generate_daily_picks], i.e. [strategy_breakout]
    run on the pool of [get_stock_pool]: every pick is a fetched row without
    ST or 退 in its name whose 涨跌幅 lies strictly between 2 and 9.9, with
    量比 above 1.5 and positive 换手率 and 市盈率-动态, scored against the
    pool. *)
Theorem daily_breakout_band (table : list Quote) (top_n : nat) (row : Quote * fnum) :
  In row (strategy_breakout (stock_pool_filter table) top_n) ->
  In (fst row) table /\
  contains "ST" (q_name (fst row)) = false /\
  contains "退" (q_name (fst row)) = false /\
  (exists pct, q_pct_chg (fst row) = Fin pct /\ (2 < pct)%Q /\ (pct < 99 # 10)%Q) /\
  fgtb (q_vol_ratio (fst row)) (Fin (3 # 2)) = true /\
  fgtb (q_turnover (fst row)) (of_Z 0) = true /\
  fgtb (q_pe (fst row)) (of_Z 0) = true /\
  snd row = breakout_score_of (stock_pool_filter table) (fst row).
Proof.
  intros Hrow. rewrite strategy_breakout_rows in Hrow.
  apply nsmallest_In in Hrow. apply in_map_iff in Hrow.
  destruct Hrow as (q & <- & Hq). cbn [fst snd].
  apply filter_In in Hq as [Hpool Hmask].
  apply stock_pool_filter_In in Hpool.
  destruct Hpool as (Hin & Hst & Htui & (pct & Hp & Hlo & Hhi) & Ht & He).
  unfold breakout_mask in Hmask. apply andb_true_iff in Hmask as [Hv Hc].
  repeat split; try assumption.
  exists pct. split; [ exact Hp | ]. split; [ | exact Hhi ].
  rewrite Hp in Hc. unfold fgtb, of_Z in Hc. cbn [fltb] in Hc.
  apply Qltb_true in Hc. exact Hc.
Qed.

Lemma daily_breakout_band_witness :
  In quote_a sample_quotes /\
  contains "ST" (q_name quote_a) = false /\
  contains "退" (q_name quote_a) = false /\
  (exists pct, q_pct_chg quote_a = Fin pct /\ (2 < pct)%Q /\ (pct < 99 # 10)%Q) /\
  fgtb (q_vol_ratio quote_a) (Fin (3 # 2)) = true /\
  fgtb (q_turnover quote_a) (of_Z 0) = true /\
  fgtb (q_pe quote_a) (of_Z 0) = true /\
  breakout_score_of (stock_pool_filter sample_quotes) quote_a
  = breakout_score_of (stock_pool_filter sample_quotes) quote_a.
Proof.
  apply (daily_breakout_band sample_quotes 1
           (quote_a, breakout_score_of (stock_pool_filter sample_quotes) quote_a)).
  vm_compute. left. reflexivity.
Defined.
